(** * Fruit Ninja bot: track manager, trajectory predictor, targeting engine

    A shallow embedding of [src/vision/fruit_tracker.py] (class
    [FruitTracker]) and of the decision part of [real_bot.py] (class
    [FruitNinjaBot]), with the properties of the design document proved or
    refuted on it; then of [src/strategies/ml_strategy.py] (class
    [MLStrategy]) and of the frame rate limit of
    [src/vision/screen_capture.py] (class [GameCapture]), with further
    properties of the four files.

    Conventions of the embedding.
    - Pixel coordinates are Python [int]s: [Z].
    - Python [float]s (wall-clock times, velocities, scores) are idealised
      as rationals [Q]; comparisons are the boolean ones of [Q].
    - [math.sqrt] is a parameter of the development (class [MathModule]):
      the properties below hold whatever it computes.
    - A [dict] whose iteration order the code relies on (the track table,
      the per-frame assignment) is an association list in insertion order;
      the fingerprint table, whose order plays no part, is a [gmap].
    - A detection dictionary is referred to by its index in the frame's
      detection list, so that two table entries holding the same Python
      object hold the same index.
    - [time.time()] is an input of every call that reads it. *)

From Stdlib Require Import ZArith QArith Qminmax Qabs Lia Lqa.
From stdpp Require Import gmap list.

Open Scope Q_scope.

(** ** Python values and built-ins *)

Class MathModule : Type := { sqrt : Q -> Q }.

(** A square root that is exact on the squares of integers, for the
    worked examples. *)
Definition integer_sqrt : MathModule :=
  {| sqrt := fun q => inject_Z (Z.sqrt (Qnum q / Zpos (Qden q))) |}.

Definition Qltb (x y : Q) : bool := negb (Qle_bool y x).

(** [min(a, b)] keeps its first argument unless the second is smaller. *)
Definition py_min (a b : Q) : Q := if Qltb b a then b else a.

(** [int(x)] on a float truncates towards zero. *)
Definition py_int (q : Q) : Z := Z.quot (Qnum q) (Zpos (Qden q)).

(** True division [a / b]; [None] stands for [ZeroDivisionError]. *)
Definition py_div (a b : Q) : option Q :=
  if Qeq_bool b 0 then None else Some (a / b).

(** [np.argmin]: the index of the first occurrence of the minimum. *)
Fixpoint argmin_from (best_idx : nat) (best : Q) (i : nat) (row : list Q) : nat :=
  match row with
  | [] => best_idx
  | c :: rest =>
      if Qltb c best then argmin_from i c (S i) rest
      else argmin_from best_idx best (S i) rest
  end.

Definition argmin (row : list Q) : nat :=
  match row with
  | [] => 0%nat
  | c :: rest => argmin_from 0 c 1 rest
  end.

(** Insertion-ordered dictionaries with [int] keys. *)
Fixpoint dict_get {V : Type} (k : nat) (d : list (nat * V)) : option V :=
  match d with
  | [] => None
  | (k', v) :: rest => if Nat.eqb k' k then Some v else dict_get k rest
  end.

(** [d[k] = v]: an existing key keeps its place, a new one goes last. *)
Fixpoint dict_set {V : Type} (k : nat) (v : V) (d : list (nat * V)) : list (nat * V) :=
  match d with
  | [] => [(k, v)]
  | (k', v') :: rest =>
      if Nat.eqb k' k then (k', v) :: rest else (k', v') :: dict_set k v rest
  end.

(** [del d[k]]. *)
Definition dict_del {V : Type} (k : nat) (d : list (nat * V)) : list (nat * V) :=
  List.filter (fun kv => negb (Nat.eqb (fst kv) k)) d.

(** [deque(maxlen=n).append(x)]: the oldest entry leaves a full deque. *)
Definition deque_append {A : Type} (maxlen : nat) (d : list A) (x : A) : list A :=
  let d' := d ++ [x] in skipn (length d' - maxlen) d'.

(** A detection as the detector emits it: the ["center"] pixel and the
    ["confidence"] key, which the colour-mask detector of
    [object_detection.py] leaves out. *)
Record detection : Type := Detection {
  center : Z * Z;
  confidence : option Q
}.

(** ** [fruit_tracker.py]: class [FruitTracker] *)

Module FruitTracker.

(** A history entry [(time, x, y)]. *)
Definition sample : Type := Q * Z * Z.

Definition sample_time (s : sample) : Q := fst (fst s).

Inductive phase : Type := Ascending | Hover | Descending | Unknown.

(** The mutable attributes of a [FruitTracker]. *)
Record tracker : Type := Tracker {
  fruit_history : list (nat * list sample);
  next_track_id : nat;
  max_history : nat
}.

(** [__init__(max_history=10)]. *)
Definition init (max_history : nat) : tracker := Tracker [] 0 max_history.

(** [self.gravity = 9.8 * 50]. *)
Definition gravity : Q := (98 # 10) * 50.

(** The keys [update] adds to a fruit dictionary. *)
Record annotation : Type := Annotation {
  track_id : nat;
  fruit_phase : phase;
  predicted_pos : Z * Z;
  velocity : Q * Q
}.

(** The phase tests that close [_calculate_trajectory_parameters]. *)
Definition classify (velocity_y acceleration_y : Q) : phase :=
  if Qltb velocity_y (-5) && Qltb acceleration_y 0 then Ascending
  else if Qltb (Qabs velocity_y) 15 then Hover
  else if Qltb 5 velocity_y then Descending
  else Unknown.

(** [_calculate_trajectory_parameters], on the history of the track.
    [recent_*[-1]], [[-2]] and [[-3]] are the last three entries. *)
Definition _calculate_trajectory_parameters (history : list sample)
  : option (phase * Q * Q * Q) :=
  match rev history with
  | (t1, x1, y1) :: (t2, x2, y2) :: older =>
      let dt := t1 - t2 in
      if Qle_bool dt 0 then Some (Unknown, 0, 0, 0)
      else
        velocity_x ← py_div (inject_Z (x1 - x2)) dt;
        velocity_y ← py_div (inject_Z (y1 - y2)) dt;
        acceleration_y ←
          match older with
          | (t3, _, y3) :: _ =>
              let prev_dt := t2 - t3 in
              if Qltb 0 prev_dt then
                prev_velocity_y ← py_div (inject_Z (y2 - y3)) prev_dt;
                py_div (velocity_y - prev_velocity_y) dt
              else Some (- gravity)
          | [] => Some (- gravity)
          end;
        Some (classify velocity_y acceleration_y,
              velocity_x, velocity_y, acceleration_y)
  | _ => Some (Unknown, 0, 0, 0)
  end.

(** The extrapolation of [update], for a lookahead [predict_time]. *)
Definition predict (predict_time : Q) (current : Z * Z) (vel_x vel_y accel_y : Q)
  : Z * Z :=
  let predicted_x := inject_Z (fst current) + vel_x * predict_time in
  let predicted_y := inject_Z (snd current) + vel_y * predict_time
                     + (5 # 10) * accel_y * predict_time ^ 2 in
  (py_int predicted_x, py_int predicted_y).

(** [predict_time = 0.15] in [update]. *)
Definition predict_time : Q := 15 # 100.

(** The annotation [update] writes for a fruit matched to [tid], from the
    history of the track once the new entry is in. *)
Definition annotate (tid : nat) (history : list sample) (fruit : detection)
  : option annotation :=
  if (2 <=? length history)%nat then
    '(ph, vel_x, vel_y, accel_y) ← _calculate_trajectory_parameters history;
    Some (Annotation tid ph
            (predict predict_time (center fruit) vel_x vel_y accel_y)
            (vel_x, vel_y))
  else Some (Annotation tid Unknown (center fruit) (0, 0)).

(** [_clean_old_tracks]. *)
Definition is_stale (current_time : Q) (history : list sample) : bool :=
  match last history with
  | Some s => Qltb 1 (current_time - sample_time s)
  | None => false
  end.

Definition _clean_old_tracks (current_time : Q) (histories : list (nat * list sample))
  : list (nat * list sample) :=
  let to_remove :=
    map fst (List.filter (fun kv => is_stale current_time (snd kv)) histories) in
  fold_left (fun d tid => dict_del tid d) to_remove histories.

Section WithMath.
Context `{MathModule}.

Definition _calculate_distance (point1 point2 : Z * Z) : Q :=
  sqrt (inject_Z ((fst point1 - fst point2) ^ 2 + (snd point1 - snd point2) ^ 2)).

(** The entry of [cost_matrix] for a track and a fruit: zero, overwritten
    by the distance from the last position when the track has a history. *)
Definition cost (history : list sample) (fruit : detection) : Q :=
  match last history with
  | Some (_, x, y) => _calculate_distance (x, y) (center fruit)
  | None => 0
  end.

(** Row [i] of [cost_matrix]. *)
Definition cost_row (history : list sample) (current_fruits : list detection)
  : list Q :=
  map (cost history) current_fruits.

(** The test a track passes in the matching loop for the fruit of index
    [j]: the first least entry of its row is at [j], and is below 50. *)
Definition claims (current_fruits : list detection) (history : list sample)
    (j : nat) : Prop :=
  argmin (cost_row history current_fruits) = j /\
  nth j (cost_row history current_fruits) 0 < 50.

(** The matching loop of [_assign_track_ids] over the existing tracks, for
    a non-empty [current_fruits]. *)
Fixpoint match_tracks (current_fruits : list detection)
    (existing : list (nat * list sample))
    (assigned : list (nat * nat)) (used_current : gset nat)
  : list (nat * nat) * gset nat :=
  match existing with
  | [] => (assigned, used_current)
  | (tid, history) :: rest =>
      let row := cost_row history current_fruits in
      let closest_idx := argmin row in
      let closest_distance := nth closest_idx row 0 in
      if Qltb closest_distance 50 then
        match_tracks current_fruits rest
          (dict_set tid closest_idx assigned) (used_current ∪ {[closest_idx]})
      else match_tracks current_fruits rest assigned used_current
  end.

(** The loop giving new ids to the fruits whose index is not in
    [used_current]. *)
Definition spawn_unmatched (used_current : gset nat) (n : nat)
    (acc : list (nat * nat) * nat) : list (nat * nat) * nat :=
  fold_left
    (fun '(assigned, next_id) j =>
       if bool_decide (j ∈ used_current) then (assigned, next_id)
       else (dict_set next_id j assigned, S next_id))
    (seq 0 n) acc.

(** [_assign_track_ids]: the dictionary [assigned], from track id to the
    index of the fruit in [current_fruits], and the new [next_track_id]. *)
Definition _assign_track_ids (t : tracker) (current_fruits : list detection)
  : list (nat * nat) * nat :=
  match fruit_history t with
  | [] =>
      fold_left
        (fun '(assigned, next_id) j => (dict_set next_id j assigned, S next_id))
        (seq 0 (length current_fruits)) ([], next_track_id t)
  | existing =>
      let '(assigned, used_current) :=
        match current_fruits with
        | [] => ([], ∅)
        | _ => match_tracks current_fruits existing [] ∅
        end in
      spawn_unmatched used_current (length current_fruits)
        (assigned, next_track_id t)
  end.

(** The loop of [update] over [assigned.items()]: the histories, and the
    annotations written so far on the fruits, by index. *)
Fixpoint update_loop (maxlen : nat) (current_time : Q)
    (current_fruits : list detection) (items : list (nat * nat))
    (histories : list (nat * list sample)) (notes : list (nat * annotation))
  : option (list (nat * list sample) * list (nat * annotation)) :=
  match items with
  | [] => Some (histories, notes)
  | (tid, j) :: rest =>
      fruit ← current_fruits !! j;
      let old := default [] (dict_get tid histories) in
      let history :=
        deque_append maxlen old (current_time, fst (center fruit), snd (center fruit)) in
      note ← annotate tid history fruit;
      update_loop maxlen current_time current_fruits rest
        (dict_set tid history histories) (dict_set j note notes)
  end.

(** [update]: the tracker afterwards and [updated_fruits], each fruit with
    the annotation its dictionary holds when [update] returns.  [None]
    stands for an exception ([ZeroDivisionError], [IndexError]). *)
Definition update (t : tracker) (current_fruits : list detection) (current_time : Q)
  : option (tracker * list (detection * annotation)) :=
  let '(assigned, next_id) := _assign_track_ids t current_fruits in
  '(histories, notes) ←
    update_loop (max_history t) current_time current_fruits assigned
      (fruit_history t) [];
  updated_fruits ←
    mapM (fun '(_, j) =>
            fruit ← current_fruits !! j;
            note ← dict_get j notes;
            Some (fruit, note)) assigned;
  Some (Tracker (_clean_old_tracks current_time histories) next_id (max_history t),
        updated_fruits).

(** [update] frame after frame, each frame with its detections and its
    reading of the clock. *)
Fixpoint updates (t : tracker) (frames : list (list detection * Q)) : option tracker :=
  match frames with
  | [] => Some t
  | (current_fruits, current_time) :: rest =>
      '(t', _) ← update t current_fruits current_time;
      updates t' rest
  end.

End WithMath.

(** What [update] maintains of the track table: one entry per id, and
    every id below [next_track_id]. *)
Record well_formed (t : tracker) : Prop := WellFormed {
  wf_keys : NoDup (map fst (fruit_history t));
  wf_fresh : forall tid history,
    In (tid, history) (fruit_history t) -> (tid < next_track_id t)%nat
}.

End FruitTracker.

(** ** [real_bot.py]: class [FruitNinjaBot] *)

Module RealBot.

(** [CAPTURE_REGION] of [src/utils/config.py]: (left, top, right, bottom). *)
Definition CAPTURE_REGION : Z * Z * Z * Z := (913, 171, 1885, 979)%Z.

Definition region_left : Z := fst (fst (fst CAPTURE_REGION)).
Definition region_top : Z := snd (fst (fst CAPTURE_REGION)).
Definition region_right : Z := snd (fst CAPTURE_REGION).
Definition region_bottom : Z := snd CAPTURE_REGION.

Definition frame_height : Z := (region_bottom - region_top)%Z.
Definition frame_width : Z := (region_right - region_left)%Z.

(** The attributes of the bot the decision reads or writes.  The key of
    [potential_pomegranates] is the string ["{x}_{y}"] built from the
    centre, one string per pair of integers: the pair itself here. *)
Record bot : Type := Bot {
  swipe_length : Z;
  swipe_duration : Q;
  cooldown : Q;
  last_swipe_time : Q;
  frame_counter : Z;
  total_swipes : Z;
  total_fruits_cut : Z;
  potential_pomegranates : gmap (Z * Z) (Q * Z);
  rapid_mode : bool;
  rapid_mode_end_time : Q
}.

(** [__init__]. *)
Definition init : bot :=
  {| swipe_length := 60; swipe_duration := 20 # 1000; cooldown := 1 # 10;
     last_swipe_time := 0; frame_counter := 0; total_swipes := 0;
     total_fruits_cut := 0; potential_pomegranates := ∅;
     rapid_mode := false; rapid_mode_end_time := 0 |}.

Definition set_rapid (b : bot) (active : bool) (end_time : Q) : bot :=
  {| swipe_length := swipe_length b; swipe_duration := swipe_duration b;
     cooldown := cooldown b; last_swipe_time := last_swipe_time b;
     frame_counter := frame_counter b; total_swipes := total_swipes b;
     total_fruits_cut := total_fruits_cut b;
     potential_pomegranates := potential_pomegranates b;
     rapid_mode := active; rapid_mode_end_time := end_time |}.

Definition set_potential_pomegranates (b : bot) (table : gmap (Z * Z) (Q * Z)) : bot :=
  {| swipe_length := swipe_length b; swipe_duration := swipe_duration b;
     cooldown := cooldown b; last_swipe_time := last_swipe_time b;
     frame_counter := frame_counter b; total_swipes := total_swipes b;
     total_fruits_cut := total_fruits_cut b;
     potential_pomegranates := table;
     rapid_mode := rapid_mode b; rapid_mode_end_time := rapid_mode_end_time b |}.

(** The counters and the swipe time, as [execute_swipe] and [run] leave
    them. *)
Definition set_counters (b : bot) (swipe_time : Q) (frames swipes cut : Z) : bot :=
  {| swipe_length := swipe_length b; swipe_duration := swipe_duration b;
     cooldown := cooldown b; last_swipe_time := swipe_time;
     frame_counter := frames; total_swipes := swipes;
     total_fruits_cut := cut;
     potential_pomegranates := potential_pomegranates b;
     rapid_mode := rapid_mode b; rapid_mode_end_time := rapid_mode_end_time b |}.

(** What a frame hands to the actuator: nothing, or one call of
    [perform_swipe(start_x, start_y, end_x, end_y, duration)]. *)
Inductive action : Type :=
  | NoAction
  | Swipe (start_x start_y end_x end_y : Z) (duration : Q).

Definition is_swipe (a : action) : bool :=
  match a with Swipe _ _ _ _ _ => true | NoAction => false end.

(** The two corridor tests, on the offsets of a bomb from the fruit. *)
Definition in_score_corridor (fruit bomb : detection) : bool :=
  let horizontal_distance := Z.abs (fst (center fruit) - fst (center bomb)) in
  let vertical_difference := Z.abs (snd (center fruit) - snd (center bomb)) in
  (horizontal_distance <? 60)%Z && (vertical_difference <? 25)%Z.

Definition in_path_corridor (fruit bomb : detection) : bool :=
  let horizontal_distance := Z.abs (fst (center fruit) - fst (center bomb)) in
  let vertical_difference := Z.abs (snd (center fruit) - snd (center bomb)) in
  (horizontal_distance <? 70)%Z && (vertical_difference <? 30)%Z.

(** [is_swipe_safe]. *)
Fixpoint is_swipe_safe (fruit : detection) (bombs : list detection) : bool :=
  match bombs with
  | [] => true
  | bomb :: rest =>
      if in_path_corridor fruit bomb then false else is_swipe_safe fruit rest
  end.

(** [adjust_swipe_for_bombs]: the loop over the bombs, then the floor on
    the length. *)
Fixpoint adjust_loop (fruit_x fruit_y : Z) (bombs : list detection)
    (base_start base_end : Z) : Z * Z :=
  match bombs with
  | [] => (base_start, base_end)
  | bomb :: rest =>
      let '(bomb_x, bomb_y) := center bomb in
      if (Z.abs (fruit_y - bomb_y) <? 30)%Z then
        if (bomb_x <? fruit_x)%Z && (Z.abs (bomb_x - fruit_x) <? 80)%Z then
          adjust_loop fruit_x fruit_y rest (Z.max base_start (bomb_x + 25)) base_end
        else if (fruit_x <? bomb_x)%Z && (Z.abs (bomb_x - fruit_x) <? 80)%Z then
          adjust_loop fruit_x fruit_y rest base_start (Z.min base_end (bomb_x - 25))
        else adjust_loop fruit_x fruit_y rest base_start base_end
      else adjust_loop fruit_x fruit_y rest base_start base_end
  end.

Definition adjust_swipe_for_bombs (b : bot) (fruit_x fruit_y : Z)
    (bombs : list detection) : Z * Z :=
  let '(base_start, base_end) :=
    adjust_loop fruit_x fruit_y bombs
      (fruit_x - swipe_length b)%Z (fruit_x + swipe_length b)%Z in
  if (base_end - base_start <? 40)%Z then ((fruit_x - 40)%Z, (fruit_x + 40)%Z)
  else (base_start, base_end).

(** The test of [check_pomegranate_behavior] on a table entry. *)
Definition persists (current_time : Q) (entry : Q * Z) : bool :=
  Qltb 1 (current_time - fst entry) && (2 <=? snd entry)%Z.

(** A fruit whose fingerprint is in the table and passes the test. *)
Definition persisting_fruit (b : bot) (current_time : Q) (fruit : detection) : bool :=
  match potential_pomegranates b !! center fruit with
  | Some entry => persists current_time entry
  | None => false
  end.

(** The loop of [check_pomegranate_behavior] over the fruits. *)
Fixpoint pomegranate_loop (b : bot) (current_time : Q) (fruits : list detection)
  : bot * bool :=
  match fruits with
  | [] => (b, rapid_mode b)
  | fruit :: rest =>
      match potential_pomegranates b !! center fruit with
      | Some entry =>
          if persists current_time entry then
            ((if rapid_mode b then b else set_rapid b true (current_time + 3)),
             true)
          else pomegranate_loop b current_time rest
      | None => pomegranate_loop b current_time rest
      end
  end.

(** [check_pomegranate_behavior]. *)
Definition check_pomegranate_behavior (b : bot) (fruits : list detection)
    (current_time : Q) : bot * bool :=
  let b' :=
    if rapid_mode b && Qltb (rapid_mode_end_time b) current_time
    then set_rapid b false (rapid_mode_end_time b) else b in
  pomegranate_loop b' current_time fruits.

(** [track_pomegranate_candidate]. *)
Definition is_old (current_time : Q) (entry : Q * Z) : bool :=
  Qltb 2 (current_time - fst entry).

Definition track_pomegranate_candidate (b : bot) (fruit : detection)
    (current_time : Q) : bot :=
  let fruit_id := center fruit in
  let table :=
    match potential_pomegranates b !! fruit_id with
    | None => <[fruit_id := (current_time, 1%Z)]> (potential_pomegranates b)
    | Some (first_seen, slice_count) =>
        <[fruit_id := (first_seen, (slice_count + 1)%Z)]> (potential_pomegranates b)
    end in
  let to_remove :=
    map fst (List.filter (fun kv => is_old current_time (snd kv)) (map_to_list table)) in
  set_potential_pomegranates b
    (fold_left (fun m fid => delete fid m) to_remove table).

(** [execute_swipe]: the swipe handed to the mouse controller and the bot
    afterwards (its return value is always 1). *)
Definition execute_swipe (b : bot) (fruit : detection) (bombs : list detection)
    (current_time : Q) (is_rapid_mode : bool) : bot * action :=
  let '(fruit_x, fruit_y) := center fruit in
  let '(start_x, end_x) := adjust_swipe_for_bombs b fruit_x fruit_y bombs in
  let abs_start_x := (region_left + Z.max 0 (Z.min start_x frame_width))%Z in
  let abs_end_x := (region_left + Z.max 0 (Z.min end_x frame_width))%Z in
  let abs_target_y := (region_top + Z.max 0 (Z.min fruit_y frame_height))%Z in
  let duration := swipe_duration b * (if is_rapid_mode then 8 # 10 else 1) in
  let b1 := track_pomegranate_candidate b fruit current_time in
  (set_counters b1 current_time (frame_counter b1) (total_swipes b1 + 1)
     (total_fruits_cut b1),
   Swipe abs_start_x abs_target_y abs_end_x abs_target_y duration).

Section WithMath.
Context `{MathModule}.

(** [distance_safety] in [calculate_safety_score]: the distance to the
    bomb over 100, capped at 1. *)
Definition distance_safety (fruit bomb : detection) : Q :=
  let '(fruit_x, fruit_y) := center fruit in
  let '(bomb_x, bomb_y) := center bomb in
  let distance :=
    sqrt (inject_Z ((fruit_x - bomb_x) ^ 2 + (fruit_y - bomb_y) ^ 2)) in
  py_min 1 (distance / 100).

(** [calculate_safety_score]: the loop over the bombs, with [min_safety]
    so far; an early [return 0.0] ends it. *)
Fixpoint safety_loop (fruit : detection) (bombs : list detection) (min_safety : Q) : Q :=
  match bombs with
  | [] => min_safety
  | bomb :: rest =>
      if in_score_corridor fruit bomb then 0
      else safety_loop fruit rest (py_min min_safety (distance_safety fruit bomb))
  end.

Definition calculate_safety_score (fruit : detection) (bombs : list detection) : Q :=
  match bombs with
  | [] => 1
  | _ => safety_loop fruit bombs 1
  end.

(** [find_best_swipe_target]: the loop over the fruits, with the best
    target and score so far. *)
Fixpoint best_loop (fruits bombs : list detection)
    (best_target : option detection) (best_score : Q) : option detection * Q :=
  match fruits with
  | [] => (best_target, best_score)
  | fruit :: rest =>
      let fruit_y := snd (center fruit) in
      let height_percentage := inject_Z fruit_y / inject_Z frame_height in
      if negb (Qle_bool (4 # 10) height_percentage
               && Qle_bool height_percentage (7 # 10))
      then best_loop rest bombs best_target best_score
      else
        let safety_score := calculate_safety_score fruit bombs in
        if Qltb safety_score (6 # 10) then best_loop rest bombs best_target best_score
        else if negb (is_swipe_safe fruit bombs)
        then best_loop rest bombs best_target best_score
        else
          let conf := default 1 (confidence fruit) in
          let position_score := 1 - Qabs (height_percentage - (55 # 100)) in
          let total_score := safety_score * conf * position_score in
          if Qltb best_score total_score then best_loop rest bombs (Some fruit) total_score
          else best_loop rest bombs best_target best_score
  end.

Definition find_best_swipe_target (b : bot) (fruits bombs : list detection)
    (current_time : Q) : option detection * Q :=
  match fruits with
  | [] => (None, 0)
  | _ =>
      if Qltb (current_time - last_swipe_time b) (cooldown b) then (None, 0)
      else best_loop fruits bombs None (-1)
  end.

(** What one turn of the loop of [run] is given once the frame is
    tracked: the fruits at their predicted positions, the bombs, the
    reading of [time.time()] and what [is_game_over] would answer. *)
Record frame : Type := Frame {
  targeted_fruits : list detection;
  bombs : list detection;
  current_time : Q;
  game_over : bool
}.

(** The body of the loop of [run], from [check_pomegranate_behavior] on. *)
Definition decide_frame (b : bot) (f : frame) : bot * action :=
  let '(b1, is_rapid_mode) :=
    check_pomegranate_behavior b (targeted_fruits f) (current_time f) in
  if (length (targeted_fruits f) =? 0)%nat
     && (frame_counter b1 mod 100 =? 0)%Z && game_over f
  then (b1, NoAction)
  else
    let '(best_target, best_score) :=
      find_best_swipe_target b1 (targeted_fruits f) (bombs f) (current_time f) in
    let '(b2, act) :=
      match best_target with
      | Some fruit =>
          if Qltb (5 # 10) best_score then
            let '(b', act) :=
              execute_swipe b1 fruit (bombs f) (current_time f) is_rapid_mode in
            (set_counters b' (last_swipe_time b') (frame_counter b')
               (total_swipes b') (total_fruits_cut b' + 1), act)
          else (b1, NoAction)
      | None => (b1, NoAction)
      end in
    (set_counters b2 (last_swipe_time b2) (frame_counter b2 + 1)
       (total_swipes b2) (total_fruits_cut b2), act).

(** The loop of [run] over a sequence of frames: the bot afterwards and,
    frame by frame, the time and the action. *)
Fixpoint run (b : bot) (frames : list frame) : bot * list (Q * action) :=
  match frames with
  | [] => (b, [])
  | f :: rest =>
      let '(b1, act) := decide_frame b f in
      let '(b2, trace) := run b1 rest in
      (b2, (current_time f, act) :: trace)
  end.

(** The tests of [find_best_swipe_target] on one fruit, and its score. *)
Definition height_percentage (fruit : detection) : Q :=
  inject_Z (snd (center fruit)) / inject_Z frame_height.

Definition eligible (fruit : detection) (bombs : list detection) : bool :=
  Qle_bool (4 # 10) (height_percentage fruit)
  && Qle_bool (height_percentage fruit) (7 # 10)
  && negb (Qltb (calculate_safety_score fruit bombs) (6 # 10))
  && is_swipe_safe fruit bombs.

Definition total_score (fruit : detection) (bombs : list detection) : Q :=
  calculate_safety_score fruit bombs * default 1 (confidence fruit)
  * (1 - Qabs (height_percentage fruit - (55 # 100))).

End WithMath.

(** The number of swipes in the trace of a run. *)
Definition swipe_count (trace : list (Q * action)) : Z :=
  Z.of_nat (length (List.filter (fun e => is_swipe (snd e)) trace)).

End RealBot.

(** ** [real_bot.py]: the loop of [run] with the tracker in it *)

Module Pipeline.
Import FruitTracker RealBot.

(** What a turn of the loop reads from outside: the fruits and the bombs
    detected in the captured frame, the clock as [run] reads it and as
    [update] reads it afterwards, what [is_game_over] would answer, and
    the duration the turn measures for itself at its end,
    [time.time() - loop_start]. *)
Record capture : Type := Capture {
  seen_fruits : list detection;
  seen_bombs : list detection;
  loop_time : Q;
  tracker_time : Q;
  seen_game_over : bool;
  turn_time : Q
}.

(** [f.copy()] with ["center"] replaced by ["predicted_pos"]. *)
Definition targeted (entry : detection * annotation) : detection :=
  Detection (predicted_pos (snd entry)) (confidence (fst entry)).

(** The game state check of [run]: when it holds the turn pauses and goes
    on to the next one, past the rest of the body. *)
Definition pauses (b : bot) (f : frame) : bool :=
  let b1 := fst (check_pomegranate_behavior b (targeted_fruits f) (current_time f)) in
  (length (targeted_fruits f) =? 0)%nat && (frame_counter b1 mod 100 =? 0)%Z
  && game_over f.

(** The performance monitoring that closes a turn: [frame_times] with the
    new duration, the last 30 of them at most, and [fps].  [None] stands
    for the [ZeroDivisionError] of [1 / (sum(frame_times) /
    len(frame_times))]. *)
Definition monitor (frame_times : list Q) (frame_time : Q) : option (list Q * Q) :=
  let appended := frame_times ++ [frame_time] in
  let frame_times := if (30 <? length appended)%nat then tail appended else appended in
  match frame_times with
  | [] => Some (frame_times, 0)
  | _ =>
      mean ← py_div (fold_left Qplus frame_times 0)
                    (inject_Z (Z.of_nat (length frame_times)));
      fps ← py_div 1 mean;
      Some (frame_times, fps)
  end.

Section WithMath.
Context `{MathModule}.

(** One turn of the loop of [run], from the tracker on: the tracker, the
    bot and the local [frame_times] afterwards, and the action.  [None]
    stands for an exception raised in the turn, which [run] catches to shut
    the bot down. *)
Definition loop_body (s : tracker * bot * list Q) (c : capture)
  : option (tracker * bot * list Q * action) :=
  let '(t, b, frame_times) := s in
  '(t', fruits_with_predictions) ← update t (seen_fruits c) (tracker_time c);
  let f :=
    Frame (map targeted fruits_with_predictions) (seen_bombs c) (loop_time c)
      (seen_game_over c) in
  let '(b', act) := decide_frame b f in
  if pauses b f then Some (t', b', frame_times, act)
  else
    '(frame_times', _) ← monitor frame_times (turn_time c);
    Some (t', b', frame_times', act).

(** The loop over the captured frames; [run] starts it with no frame
    time. *)
Fixpoint loop (s : tracker * bot * list Q) (cs : list capture)
  : option (tracker * bot * list Q * list (Q * action)) :=
  match cs with
  | [] => Some (s, [])
  | c :: rest =>
      '(t', b', frame_times', act) ← loop_body s c;
      '(s', trace) ← loop (t', b', frame_times') rest;
      Some (s', (loop_time c, act) :: trace)
  end.

End WithMath.

End Pipeline.

(** ** [ml_strategy.py]: class [MLStrategy] *)

Module MLStrategy.

(** An entry of [fruit_tracks]. *)
Record track : Type := Track {
  positions : list (Z * Z);
  last_seen : Q;
  current_data : detection;
  first_seen : Q
}.

(** The attributes of an [MLStrategy]. *)
Record strategy : Type := Strategy {
  frame_width : Z;
  frame_height : Z;
  min_swipe_interval : Q;
  last_swipe_time : Q;
  fruit_tracks : list (nat * track);
  track_id_counter : nat;
  max_track_history : nat
}.

(** [__init__(frame_width, frame_height, min_swipe_interval=0.3)]. *)
Definition init (width height : Z) (interval : Q) : strategy :=
  Strategy width height interval 0 [] 0 15.

Definition set_tracks (s : strategy) (tracks : list (nat * track)) (counter : nat)
  : strategy :=
  Strategy (frame_width s) (frame_height s) (min_swipe_interval s) (last_swipe_time s)
    tracks counter (max_track_history s).

(** [update_swipe_time]. *)
Definition update_swipe_time (s : strategy) (current_time : Q) : strategy :=
  Strategy (frame_width s) (frame_height s) (min_swipe_interval s) current_time
    (fruit_tracks s) (track_id_counter s) (max_track_history s).

(** A swipe as [find_best_swipe] returns it: the fruits aimed at, then
    start x, start y, end x, end y. *)
Definition swipe : Type := list detection * Z * Q * Z * Q.

(** [distance < min_distance], with [None] for [float('inf')]. *)
Definition below (distance : Q) (min_distance : option Q) : bool :=
  match min_distance with
  | None => true
  | Some m => Qltb distance m
  end.

(** [positions.append(fruit_pos)] followed by the [popleft] when the deque
    is longer than [max_track_history]. *)
Definition push_position (maxlen : nat) (ps : list (Z * Z)) (fruit_pos : Z * Z)
  : list (Z * Z) :=
  let ps' := deque_append maxlen ps fruit_pos in
  if (maxlen <? length ps')%nat then tail ps' else ps'.

(** [_calculate_velocity], on the positions of the track. *)
Definition _calculate_velocity (ps : list (Z * Z)) : option (Q * Q) :=
  if (length ps <? 2)%nat then Some (0, 0)
  else
    let recent_positions :=
      if (4 <=? length ps)%nat then skipn (length ps - 4) ps else ps in
    newest ← last recent_positions;
    oldest ← head recent_positions;
    let dx := (fst newest - fst oldest)%Z in
    let dy := (snd newest - snd oldest)%Z in
    let dt := inject_Z (Z.of_nat (length recent_positions - 1)) * (1 / 60) in
    if Qltb 0 dt then
      vx ← py_div (inject_Z dx) dt;
      vy ← py_div (inject_Z dy) dt;
      Some (vx, vy)
    else Some (0, 0).

(** [_is_at_peak]. *)
Definition _is_at_peak (s : strategy) (tr : track) (current_time : Q) : option bool :=
  if (length (positions tr) <? 3)%nat then Some false
  else
    '(vx, vy) ← _calculate_velocity (positions tr);
    newest ← last (positions tr);
    let current_y := snd newest in
    let is_slow := Qltb (Qabs vy) 50 in
    let is_mature := Qltb (4 # 10) (current_time - first_seen tr) in
    let is_high_enough := Qltb (inject_Z current_y) (inject_Z (frame_height s) * (6 # 10)) in
    Some (is_slow && is_mature && is_high_enough).

(** [max(fruits, key=lambda f: f["center"][1])]: the first fruit of the
    greatest y. *)
Fixpoint max_by_y (best : detection) (fruits : list detection) : detection :=
  match fruits with
  | [] => best
  | fruit :: rest =>
      if (snd (center best) <? snd (center fruit))%Z then max_by_y fruit rest
      else max_by_y best rest
  end.

(** [height_groups[height_bucket].append(fruit)], creating the bucket
    when it is new. *)
Fixpoint group_add (bucket : Z) (fruit : detection) (groups : list (Z * list detection))
  : list (Z * list detection) :=
  match groups with
  | [] => [(bucket, [fruit])]
  | (k, group) :: rest =>
      if (k =? bucket)%Z then (k, group ++ [fruit]) :: rest
      else (k, group) :: group_add bucket fruit rest
  end.

Definition height_bucket (fruit : detection) : Z := (snd (center fruit) / 40)%Z.

Definition height_groups (fruits : list detection) : list (Z * list detection) :=
  fold_left (fun groups fruit => group_add (height_bucket fruit) fruit groups) fruits [].

(** The loop that keeps the first largest group of at least two fruits. *)
Fixpoint pick_group (groups : list (Z * list detection))
    (best_group : option (list detection)) : option (list detection) :=
  match groups with
  | [] => best_group
  | (_, group) :: rest =>
      if (2 <=? length group)%nat
         && match best_group with
            | None => true
            | Some best => (length best <? length group)%nat
            end
      then pick_group rest (Some group)
      else pick_group rest best_group
  end.

(** [min(x_positions)] and [max(x_positions)] of a non-empty list. *)
Definition list_min (x : Z) (xs : list Z) : Z := fold_left Z.min xs x.
Definition list_max (x : Z) (xs : list Z) : Z := fold_left Z.max xs x.

(** [_find_multi_fruit_swipe]. *)
Definition _find_multi_fruit_swipe (s : strategy) (fruits : list detection)
  : option swipe :=
  if (length fruits <? 2)%nat then None
  else
    match pick_group (height_groups fruits) None with
    | Some (fruit :: others) =>
        let best_group := fruit :: others in
        let x_positions := map (fun f => fst (center f)) best_group in
        let min_x := list_min (fst (center fruit)) (map (fun f => fst (center f)) others) in
        let max_x := list_max (fst (center fruit)) (map (fun f => fst (center f)) others) in
        let avg_y :=
          inject_Z (fold_left Z.add (map (fun f => snd (center f)) best_group) 0%Z)
          / inject_Z (Z.of_nat (length best_group)) in
        let swipe_margin := 50%Z in
        let start_x := Z.max 0 (min_x - swipe_margin) in
        let end_x := Z.min (frame_width s) (max_x + swipe_margin) in
        Some (best_group, start_x, avg_y, end_x, avg_y)
    | _ => None
    end.

(** The swipe of 150 pixels each side of one fruit. *)
Definition single_swipe (target_fruit : detection) : swipe :=
  let '(cx, cy) := center target_fruit in
  let swipe_length := 150%Z in
  ([target_fruit], (cx - swipe_length)%Z, inject_Z cy, (cx + swipe_length)%Z, inject_Z cy).

Section WithMath.
Context `{MathModule}.

Definition norm (p q : Z * Z) : Q :=
  sqrt (inject_Z ((fst p - fst q) ^ 2 + (snd p - snd q) ^ 2)).

(** The inner loop of [_assign_ids_to_fruits] over the tracks, with
    [matched_id] and [min_distance] so far.  [None] as a result stands for
    the [IndexError] of [positions[-1]] on an empty deque. *)
Fixpoint find_track (tracks : list (nat * track)) (fruit_pos : Z * Z) (current_time : Q)
    (matched_id : option nat) (min_distance : option Q)
  : option (option nat * option Q) :=
  match tracks with
  | [] => Some (matched_id, min_distance)
  | (track_id, track_data) :: rest =>
      if Qltb (current_time - last_seen track_data) (8 # 10) then
        last_pos ← last (positions track_data);
        let distance := norm fruit_pos last_pos in
        if Qltb distance 80 && below distance min_distance
        then find_track rest fruit_pos current_time (Some track_id) (Some distance)
        else find_track rest fruit_pos current_time matched_id min_distance
      else find_track rest fruit_pos current_time matched_id min_distance
  end.

(** The outer loop of [_assign_ids_to_fruits] over the fruits: the tracks,
    the counter and [updated_fruits], each fruit with its ["track_id"].
    The fruits of a frame are distinct dictionaries, as the detector makes
    them, so that the id written into one is not overwritten by a later
    one. *)
Fixpoint assign_loop (maxlen : nat) (current_time : Q) (fruits : list detection)
    (tracks : list (nat * track)) (counter : nat) (updated : list (detection * nat))
  : option (list (nat * track) * nat * list (detection * nat)) :=
  match fruits with
  | [] => Some (tracks, counter, updated)
  | fruit :: rest =>
      '(matched_id, _) ← find_track tracks (center fruit) current_time None None;
      match matched_id with
      | Some tid =>
          tr ← dict_get tid tracks;
          let tr' :=
            Track (push_position maxlen (positions tr) (center fruit))
              current_time fruit (first_seen tr) in
          assign_loop maxlen current_time rest (dict_set tid tr' tracks) counter
            (updated ++ [(fruit, tid)])
      | None =>
          let counter' := S counter in
          let tr := Track (deque_append maxlen [] (center fruit))
                      current_time fruit current_time in
          assign_loop maxlen current_time rest (dict_set counter' tr tracks) counter'
            (updated ++ [(fruit, counter')])
      end
  end.

(** The sweep that closes [_assign_ids_to_fruits]. *)
Definition sweep (current_time : Q) (tracks : list (nat * track)) : list (nat * track) :=
  let to_remove :=
    map fst
      (List.filter (fun kv => Qltb (15 # 10) (current_time - last_seen (snd kv))) tracks) in
  fold_left (fun d tid => dict_del tid d) to_remove tracks.

(** [_assign_ids_to_fruits]. *)
Definition _assign_ids_to_fruits (s : strategy) (current_fruits : list detection)
    (current_time : Q) : option (strategy * list (detection * nat)) :=
  '(tracks, counter, updated_fruits) ←
    assign_loop (max_track_history s) current_time current_fruits
      (fruit_tracks s) (track_id_counter s) [];
  Some (set_tracks s (sweep current_time tracks) counter, updated_fruits).

(** The loop of [find_best_swipe] that collects the fruits at their
    peak. *)
Fixpoint peak_loop (s : strategy) (current_time : Q) (tracked : list (detection * nat))
  : option (list detection) :=
  match tracked with
  | [] => Some []
  | (fruit, track_id) :: rest =>
      match dict_get track_id (fruit_tracks s) with
      | Some tr =>
          at_peak ← _is_at_peak s tr current_time;
          peaks ← peak_loop s current_time rest;
          Some (if (at_peak : bool) then fruit :: peaks else peaks)
      | None => peak_loop s current_time rest
      end
  end.

(** [find_best_swipe]: the strategy afterwards and the swipe, if any. *)
Definition find_best_swipe (s : strategy) (fruits : list detection) (current_time : Q)
  : option (strategy * option swipe) :=
  match fruits with
  | [] => Some (s, None)
  | _ =>
      '(s', tracked) ← _assign_ids_to_fruits s fruits current_time;
      peak_fruits ← peak_loop s' current_time tracked;
      let tracked_fruits := map fst tracked in
      match peak_fruits with
      | fruit :: others => Some (s', Some (single_swipe (max_by_y fruit others)))
      | [] =>
          match _find_multi_fruit_swipe s' tracked_fruits with
          | Some multi_swipe => Some (s', Some multi_swipe)
          | None =>
              let urgent_fruits :=
                List.filter
                  (fun f => Qltb (inject_Z (frame_height s') * (7 # 10))
                              (inject_Z (snd (center f))))
                  tracked_fruits in
              match urgent_fruits with
              | fruit :: others => Some (s', Some (single_swipe (max_by_y fruit others)))
              | [] => Some (s', None)
              end
          end
      end
  end.

(** [should_swipe]: [(False, None)] is [None] here, [(True, best_swipe)]
    is the swipe. *)
Definition should_swipe (s : strategy) (fruits : list detection) (current_time : Q)
  : option (strategy * option swipe) :=
  if Qltb (current_time - last_swipe_time s) (min_swipe_interval s) then Some (s, None)
  else find_best_swipe s fruits current_time.

End WithMath.

(** What [_assign_ids_to_fruits] maintains of [fruit_tracks]: one entry per
    id, no id above the counter, no track without a position. *)
Record well_formed (s : strategy) : Prop := WellFormed {
  wf_keys : NoDup (map fst (fruit_tracks s));
  wf_counter : forall tid tr, In (tid, tr) (fruit_tracks s) -> (tid <= track_id_counter s)%nat;
  wf_positions : forall tid tr, In (tid, tr) (fruit_tracks s) -> positions tr <> []
}.

End MLStrategy.

(** ** [screen_capture.py]: class [GameCapture] *)

Module GameCapture.

(** The attributes of a [GameCapture] that [get_frame] reads and writes. *)
Record camera : Type := Camera {
  frame_time : Q;
  last_capture_time : Q
}.

(** [__init__(capture_region, target_fps=60)]; [None] stands for the
    [ZeroDivisionError] of [1.0 / target_fps]. *)
Definition init (target_fps : Q) : option camera :=
  frame_time ← py_div 1 target_fps;
  Some (Camera frame_time 0).

(** [get_frame] at the clock reading [current_time].  [grabbed] is the
    frame that [camera.grab] and the colour conversion give, [None] when
    one of them raises or the grab is empty; inside the frame time the
    grab is not attempted. *)
Definition get_frame {F : Type} (c : camera) (current_time : Q) (grabbed : option F)
  : camera * option F :=
  if Qltb (current_time - last_capture_time c) (frame_time c) then (c, None)
  else
    match grabbed with
    | Some frame => (Camera (frame_time c) current_time, Some frame)
    | None => (c, None)
    end.

(** A sequence of calls of [get_frame]: the camera afterwards and, call by
    call, the clock reading and what the call returned. *)
Fixpoint poll {F : Type} (c : camera) (calls : list (Q * option F))
  : camera * list (Q * option F) :=
  match calls with
  | [] => (c, [])
  | (current_time, grabbed) :: rest =>
      let '(c1, frame) := get_frame c current_time grabbed in
      let '(c2, trace) := poll c1 rest in
      (c2, (current_time, frame) :: trace)
  end.

End GameCapture.

(** ** Worked scenarios *)

Module Scenarios.
Import FruitTracker RealBot.

(** Fruits and a bomb on the line y = 400 of the 972 by 808 frame. *)
Definition apple : detection := Detection (500, 400)%Z (Some 1).
Definition pear : detection := Detection (200, 400)%Z (Some 1).
Definition bomb : detection := Detection (510, 400)%Z None.
Definition far_bomb : detection := Detection (500, 480)%Z None.

(** Two swipes at the apple, then a bomb next to it keeps the bot from
    swiping while the apple stays where it is. *)
Definition apple_frames : list frame :=
  [ Frame [apple] [] 1 false;
    Frame [apple] [] (15 # 10) false;
    Frame [apple] [bomb] (25 # 10) false ].

Definition late_frame : frame := Frame [apple] [bomb] (56 # 10) false.
Definition early_frame : frame := Frame [apple] [bomb] 5 false.
Definition empty_frame : frame := Frame [] [] (56 # 10) false.

(** A swipe at the apple, then two at the pear. *)
Definition pear_frames : list frame :=
  [ Frame [apple] [] 1 false; Frame [pear] [] (25 # 10) false ].

Definition pear_frame : frame := Frame [pear] [] (32 # 10) false.

Definition apple_swipe : action := Swipe 1353 571 1473 571 (20 # 1000).

(** The bot after each of the two stories. *)
Definition after_apple : bot := fst (run (H := integer_sqrt) RealBot.init apple_frames).
Definition after_pear : bot := fst (run (H := integer_sqrt) RealBot.init pear_frames).

(** The same story from the detections on: an apple that does not move,
    swiped three times, then a bomb next to it. *)
Definition still_apple : list Pipeline.capture :=
  [ Pipeline.Capture [apple] [] (5 # 10) (5 # 10) false (2 # 100);
    Pipeline.Capture [apple] [] (7 # 10) (7 # 10) false (2 # 100);
    Pipeline.Capture [apple] [] 1 1 false (2 # 100);
    Pipeline.Capture [apple] [bomb] (16 # 10) (16 # 10) false (2 # 100) ].

Definition late_capture : Pipeline.capture :=
  Pipeline.Capture [apple] [bomb] (47 # 10) (47 # 10) false (2 # 100).

(** A turn too short for the clock to measure. *)
Definition instant_capture : Pipeline.capture :=
  Pipeline.Capture [apple] [] (5 # 10) (5 # 10) false 0.

(** Detections on the line y = 100. *)
Definition at_x (x : Z) : detection := Detection (x, 100%Z) (Some 1).

(** A table of two tracks far apart, last seen at time 0. *)
Definition two_tracks : tracker :=
  Tracker [(0%nat, [(0, 100%Z, 100%Z)]); (1%nat, [(0, 300%Z, 100%Z)])] 2 10.

(** Histories of a fruit seen at x = 100. *)
Definition stalled : list sample := [(0, 100%Z, 100%Z); (0, 100%Z, 110%Z)].
Definition speeding_fall : list sample :=
  [(0, 100%Z, 100%Z); (1, 100%Z, 110%Z); (2, 100%Z, 130%Z)].

(** A bomb 60 pixels under the apple. *)
Definition low_bomb : detection := Detection (500, 460)%Z None.


(** A bomb at the height of the apple, 75 pixels to its right. *)
Definition near_bomb : detection := Detection (575, 410)%Z None.

Definition first_frame : frame := Frame [apple] [] 1 false.
Definition third_frame : frame := Frame [apple] [bomb] (25 # 10) false.

(** The bot after two swipes at the apple. *)
Definition twice_swiped : bot :=
  fst (run (H := integer_sqrt) RealBot.init
         [Frame [apple] [] 1 false; Frame [apple] [] (15 # 10) false]).

(** Three calls of [get_frame] a hundredth of a second apart, each with a
    frame to grab. *)
Definition burst : list (Q * option nat) :=
  [(1, Some 7%nat); (101 # 100, Some 8%nat); (102 # 100, Some 9%nat)].

(** A fruit between the last positions of two tracks of [MLStrategy], 30
    pixels from each. *)
Definition melon : detection := Detection (300, 230)%Z (Some 1).

Definition near_tracks : list (nat * MLStrategy.track) :=
  [ (1%nat, MLStrategy.Track [(300, 200)%Z] 0 melon 0);
    (2%nat, MLStrategy.Track [(300, 260)%Z] 0 melon 0) ].

Definition orchard : MLStrategy.strategy :=
  MLStrategy.Strategy 972 808 (3 # 10) 0 near_tracks 2 15.

(** Five positions on a diagonal. *)
Definition diagonal : list (Z * Z) := [(1, 1); (2, 2); (3, 3); (4, 4)]%Z.

End Scenarios.

(** * Properties *)

(** ** The built-ins *)

Lemma Qltb_lt (x y : Q) : Qltb x y = true <-> x < y.
Proof.
  unfold Qltb. rewrite negb_true_iff. split; intros Hlt.
  - apply Qnot_le_lt. intros Hle. apply Qle_bool_iff in Hle. congruence.
  - destruct (Qle_bool y x) eqn:E; [|reflexivity].
    apply Qle_bool_iff in E. apply Qle_not_lt in E. contradiction.
Qed.

Lemma Qltb_ge (x y : Q) : Qltb x y = false <-> y <= x.
Proof. unfold Qltb. rewrite negb_false_iff. apply Qle_bool_iff. Qed.

Lemma Qle_bool_gt (x y : Q) : Qle_bool x y = false <-> y < x.
Proof.
  rewrite <- Qltb_lt. unfold Qltb. destruct (Qle_bool x y); simpl; intuition congruence.
Qed.

Lemma py_min_l (a b : Q) : py_min a b <= a.
Proof.
  unfold py_min. destruct (Qltb b a) eqn:E.
  - apply Qltb_lt in E. lra.
  - lra.
Qed.

Lemma py_min_r (a b : Q) : py_min a b <= b.
Proof.
  unfold py_min. destruct (Qltb b a) eqn:E.
  - lra.
  - apply Qltb_ge in E. exact E.
Qed.

Lemma py_min_cases (a b : Q) : py_min a b = a \/ py_min a b = b.
Proof. unfold py_min. destruct (Qltb b a); auto. Qed.




Lemma py_div_pos (a b : Q) : 0 < b -> py_div a b = Some (a / b).
Proof.
  intros Hb. unfold py_div. destruct (Qeq_bool b 0) eqn:E; [|reflexivity].
  apply Qeq_bool_iff in E. lra.
Qed.

(** [np.argmin] returns an index of the row, of a least entry, and the
    first such index. *)
Lemma argmin_from_spec (row : list Q) (best_idx i : nat) (best : Q) :
  (best_idx < i)%nat ->
  let r := argmin_from best_idx best i row in
  (r = best_idx /\ Forall (fun c => best <= c) row) \/
  (exists k c, r = (i + k)%nat /\ row !! k = Some c /\ c < best /\
     Forall (fun c' => c <= c') row /\
     forall k' c', (k' < k)%nat -> row !! k' = Some c' -> c < c').
Proof.
  revert best_idx i best. induction row as [|c rest IH]; intros best_idx i best Hlt; simpl.
  - left. split; [reflexivity | constructor].
  - destruct (Qltb c best) eqn:E.
    + apply Qltb_lt in E.
      destruct (IH i (S i) c ltac:(lia)) as [[-> Hall] | (k & c' & -> & Hk & Hc & Hall & Hfirst)].
      * right. exists 0%nat, c. repeat split.
        -- f_equal. lia.
        -- exact E.
        -- constructor; [lra | exact Hall].
        -- intros k' c' Hk'. lia.
      * right. exists (S k), c'. repeat split.
        -- lia.
        -- exact Hk.
        -- lra.
        -- constructor; [lra | exact Hall].
        -- intros [|k'] c'' Hk' Hc''; simpl in Hc''.
           ++ injection Hc'' as <-. exact Hc.
           ++ apply (Hfirst k'); [lia | exact Hc''].
    + apply Qltb_ge in E.
      destruct (IH best_idx (S i) best ltac:(lia)) as [[-> Hall] | (k & c' & -> & Hk & Hc & Hall & Hfirst)].
      * left. split; [reflexivity | constructor; assumption].
      * right. exists (S k), c'. repeat split.
        -- lia.
        -- exact Hk.
        -- exact Hc.
        -- constructor; [lra | exact Hall].
        -- intros [|k'] c'' Hk' Hc''; simpl in Hc''.
           ++ injection Hc'' as <-. lra.
           ++ apply (Hfirst k'); [lia | exact Hc''].
Qed.

Lemma argmin_lt (row : list Q) : row <> [] -> (argmin row < length row)%nat.
Proof.
  destruct row as [|c rest]; [congruence | intros _]. simpl.
  destruct (argmin_from_spec rest 0 1 c ltac:(lia)) as [[-> _] | (k & c' & -> & Hk & _)].
  - lia.
  - apply lookup_lt_Some in Hk. lia.
Qed.

Lemma argmin_least (row : list Q) (c : Q) :
  row !! argmin row = Some c ->
  Forall (fun c' => c <= c') row /\
  forall k c', (k < argmin row)%nat -> row !! k = Some c' -> c < c'.
Proof.
  destruct row as [|c0 rest]; [discriminate|]. simpl argmin.
  destruct (argmin_from_spec rest 0 1 c0 ltac:(lia)) as [[-> Hall] | (k & c' & -> & Hk & Hc & Hall & Hfirst)].
  - simpl. intros [= <-]. split.
    + constructor; [lra | exact Hall].
    + intros k c' Hk. lia.
  - simpl. rewrite Hk. intros [= <-]. split.
    + constructor; [lra | exact Hall].
    + intros [|k'] c'' Hk' Hc''; simpl in Hc''.
      * injection Hc'' as <-. exact Hc.
      * apply (Hfirst k'); [lia | exact Hc''].
Qed.

Lemma argmin_first (row : list Q) (j : nat) (c : Q) :
  row !! j = Some c ->
  (forall k c', row !! k = Some c' -> c <= c') ->
  (forall k c', (k < j)%nat -> row !! k = Some c' -> c < c') ->
  argmin row = j.
Proof.
  intros Hj Hleast Hfirst.
  assert (Hlt : (argmin row < length row)%nat).
  { apply argmin_lt. intros ->. discriminate. }
  destruct (lookup_lt_is_Some_2 row (argmin row) Hlt) as [a Ha].
  destruct (argmin_least row a Ha) as [Hall Hbefore].
  destruct (Nat.lt_trichotomy (argmin row) j) as [Hless | [E | Hmore]]; [|exact E|].
  - pose proof (Hfirst _ _ Hless Ha).
    pose proof (proj1 (Forall_lookup _ _) Hall j c Hj) as Hle. simpl in Hle. lra.
  - pose proof (Hbefore _ _ Hmore Hj). pose proof (Hleast _ _ Ha). lra.
Qed.

(** ** Dictionaries *)

Section Dict.
Context {V : Type}.
Implicit Types (d : list (nat * V)) (k : nat) (v : V).

Lemma dict_get_set_eq d k v : dict_get k (dict_set k v d) = Some v.
Proof.
  induction d as [|[k' v'] rest IH]; simpl.
  - rewrite Nat.eqb_refl. reflexivity.
  - destruct (Nat.eqb k' k) eqn:E; simpl; rewrite E; [reflexivity | exact IH].
Qed.

Lemma dict_get_set_ne d k k' v : k <> k' -> dict_get k' (dict_set k v d) = dict_get k' d.
Proof.
  intros Hne. induction d as [|[k0 v0] rest IH]; simpl.
  - destruct (Nat.eqb_spec k k'); [contradiction | reflexivity].
  - destruct (Nat.eqb_spec k0 k) as [->|Hk0]; simpl.
    + destruct (Nat.eqb_spec k k'); [contradiction | reflexivity].
    + rewrite IH. reflexivity.
Qed.

Lemma dict_set_fresh d k v : ~ In k (map fst d) -> dict_set k v d = d ++ [(k, v)].
Proof.
  induction d as [|[k' v'] rest IH]; simpl; intros Hk; [reflexivity|].
  destruct (Nat.eqb_spec k' k) as [->|Hne]; [tauto|].
  rewrite IH by tauto. reflexivity.
Qed.

Lemma dict_set_keys d k v :
  map fst (dict_set k v d) =
  if in_dec Nat.eq_dec k (map fst d) then map fst d else map fst d ++ [k].
Proof.
  induction d as [|[k' v'] rest IH]; simpl.
  - reflexivity.
  - destruct (Nat.eqb_spec k' k) as [->|Hne]; simpl.
    + destruct (Nat.eq_dec k k); [reflexivity | congruence].
    + rewrite IH. destruct (Nat.eq_dec k' k); [congruence|].
      destruct (in_dec Nat.eq_dec k (map fst rest)); reflexivity.
Qed.

Lemma dict_set_NoDup d k v : NoDup (map fst d) -> NoDup (map fst (dict_set k v d)).
Proof.
  intros Hd. rewrite dict_set_keys. destruct (in_dec _ _ _) as [|Hk]; [exact Hd|].
  apply NoDup_app. repeat split.
  - exact Hd.
  - intros x Hx Hx'. apply list_elem_of_In in Hx. apply list_elem_of_In in Hx'.
    simpl in Hx'. destruct Hx' as [<-|[]]. contradiction.
  - apply NoDup_singleton.
Qed.

Lemma dict_get_In d k v : NoDup (map fst d) -> dict_get k d = Some v <-> In (k, v) d.
Proof.
  induction d as [|[k' v'] rest IH]; simpl; intros Hd.
  - split; [discriminate | tauto].
  - apply NoDup_cons in Hd as [Hk' Hd].
    destruct (Nat.eqb_spec k' k) as [->|Hne].
    + split.
      * intros [= ->]. left. reflexivity.
      * intros [[= ->] | Hin]; [reflexivity|].
        exfalso. apply Hk'. apply list_elem_of_In. apply in_map_iff. exists (k, v). auto.
    + rewrite (IH Hd). split; [tauto|].
      intros [[= -> ->] | Hin]; [congruence | exact Hin].
Qed.

Lemma dict_get_None d k : dict_get k d = None <-> ~ In k (map fst d).
Proof.
  induction d as [|[k' v'] rest IH]; simpl.
  - tauto.
  - destruct (Nat.eqb_spec k' k) as [->|Hne].
    + split; [discriminate | tauto].
    + rewrite IH. tauto.
Qed.

Lemma dict_del_fold_In d (ks : list nat) k v :
  In (k, v) (fold_left (fun d tid => dict_del tid d) ks d) <-> In (k, v) d /\ ~ In k ks.
Proof.
  revert d. induction ks as [|k0 ks IH]; intros d; simpl.
  - tauto.
  - rewrite IH. unfold dict_del. rewrite filter_In. simpl.
    destruct (Nat.eqb_spec k k0) as [->|Hne]; simpl.
    + split; [intros [[_ [=]] _] | tauto].
    + split; [intros [[Hin _] Hks]; split; [exact Hin | intros [E|Hin']; [congruence | tauto]] | tauto].
Qed.

Lemma dict_del_fold_keys d (ks : list nat) :
  NoDup (map fst d) -> NoDup (map fst (fold_left (fun d tid => dict_del tid d) ks d)).
Proof.
  revert d. induction ks as [|k0 ks IH]; intros d Hd; simpl; [exact Hd|].
  apply IH. unfold dict_del. clear IH. induction d as [|[k' v'] rest IHd]; simpl; [constructor|].
  simpl in Hd. apply NoDup_cons in Hd as [Hk' Hd].
  destruct (negb (k' =? k0)%nat); simpl; [|apply IHd; exact Hd].
  apply NoDup_cons. split; [|apply IHd; exact Hd].
  intros Hin. apply Hk'. apply list_elem_of_In in Hin. apply list_elem_of_In.
  apply in_map_iff in Hin as ([k1 v1] & E & Hin). simpl in E. subst k1.
  apply filter_In in Hin as [Hin _]. apply in_map_iff. exists (k', v1). auto.
Qed.

End Dict.

(** ** The track manager and the trajectory predictor *)

Module TrackerFacts.
Import FruitTracker.

(** [_calculate_trajectory_parameters] never raises: every division it
    reaches has a positive divisor. *)
Lemma trajectory_parameters_total (history : list sample) :
  exists r, _calculate_trajectory_parameters history = Some r.
Proof.
  unfold _calculate_trajectory_parameters.
  destruct (rev history) as [|[[t1 x1] y1] [|[[t2 x2] y2] older]]; eauto.
  destruct (Qle_bool (t1 - t2) 0) eqn:Edt; eauto.
  apply Qle_bool_gt in Edt.
  rewrite !py_div_pos by exact Edt. simpl.
  destruct older as [|[[t3 x3] y3] older]; simpl; eauto.
  destruct (Qltb 0 (t2 - t3)) eqn:Eprev; simpl; eauto.
  apply Qltb_lt in Eprev.
  rewrite !py_div_pos by assumption. simpl.
  rewrite py_div_pos by exact Edt. simpl. eauto.
Qed.

Lemma annotate_total (tid : nat) (history : list sample) (fruit : detection) :
  exists note, annotate tid history fruit = Some note /\ track_id note = tid.
Proof.
  unfold annotate. destruct (2 <=? length history)%nat; [|eauto].
  destruct (trajectory_parameters_total history) as [[[[ph vx] vy] ay] ->].
  simpl. eauto.
Qed.

(** C8, as the code has it.  When the two most recent samples of a history
    are no time or a negative time apart, [_calculate_trajectory_parameters]
    returns before any division, with the phase unknown, both velocities
    zero and the acceleration zero. *)
Theorem nonpositive_elapsed_time_defaults (older : list sample) (s2 s1 : sample) :
  sample_time s1 - sample_time s2 <= 0 ->
  _calculate_trajectory_parameters (older ++ [s2; s1]) = Some (Unknown, 0, 0, 0).
Proof.
  intros Hdt. unfold _calculate_trajectory_parameters.
  rewrite rev_app_distr. simpl.
  destruct s1 as [[t1 x1] y1], s2 as [[t2 x2] y2]. unfold sample_time in Hdt. simpl in Hdt.
  apply Qle_bool_iff in Hdt. rewrite Hdt. reflexivity.
Qed.


(** What [_calculate_trajectory_parameters] returns when the last two
    samples are a positive time apart. *)
Lemma trajectory_parameters_values (older : list sample) (t2 t1 : Q)
    (x2 y2 x1 y1 : Z) :
  0 < t1 - t2 ->
  exists accel_y,
    _calculate_trajectory_parameters (older ++ [(t2, x2, y2); (t1, x1, y1)]) =
      Some (classify (inject_Z (y1 - y2) / (t1 - t2)) accel_y,
            inject_Z (x1 - x2) / (t1 - t2), inject_Z (y1 - y2) / (t1 - t2), accel_y) /\
    match last older with
    | Some (t3, _, y3) =>
        (0 < t2 - t3 ->
         accel_y = (inject_Z (y1 - y2) / (t1 - t2) - inject_Z (y2 - y3) / (t2 - t3))
                   / (t1 - t2)) /\
        (t2 - t3 <= 0 -> accel_y = - gravity)
    | None => accel_y = - gravity
    end.
Proof.
  intros Hdt. unfold _calculate_trajectory_parameters.
  rewrite rev_app_distr. cbn [rev app]. cbv zeta.
  assert (Edt : Qle_bool (t1 - t2) 0 = false) by (apply Qle_bool_gt; exact Hdt).
  rewrite Edt, !py_div_pos by exact Hdt. cbn [mbind option_bind].
  destruct older as [|s3 older' _] using rev_ind.
  - cbn [rev mbind option_bind last]. eexists. split; reflexivity.
  - rewrite rev_unit, last_snoc. destruct s3 as [[t3 x3] y3]. cbv zeta.
    destruct (Qltb 0 (t2 - t3)) eqn:Eprev.
    + apply Qltb_lt in Eprev. rewrite (py_div_pos _ _ Eprev). cbn [mbind option_bind].
      rewrite (py_div_pos _ _ Hdt). cbn [mbind option_bind].
      eexists. split; [reflexivity|]. split; [reflexivity | lra].
    + apply Qltb_ge in Eprev. cbn [mbind option_bind].
      eexists. split; [reflexivity|]. split; [lra | reflexivity].
Qed.

(** What it returns when they are not. *)
Lemma trajectory_parameters_early (older : list sample) (t2 t1 : Q) (x2 y2 x1 y1 : Z) :
  t1 - t2 <= 0 ->
  _calculate_trajectory_parameters (older ++ [(t2, x2, y2); (t1, x1, y1)])
  = Some (Unknown, 0, 0, 0).
Proof.
  intros Hdt. unfold _calculate_trajectory_parameters.
  rewrite rev_app_distr. cbn [rev app]. cbv zeta.
  apply Qle_bool_iff in Hdt. rewrite Hdt. reflexivity.
Qed.

Lemma gravity_value : - gravity == - (490).
Proof. reflexivity. Qed.


Section WithMath.
Context `{MathModule}.

Lemma update_no_detections (t : tracker) (now : Q) :
  update t [] now =
  Some (Tracker (_clean_old_tracks now (fruit_history t)) (next_track_id t) (max_history t),
        []).
Proof.
  unfold update, _assign_track_ids. destruct (fruit_history t); reflexivity.
Qed.

Lemma clean_old_tracks_In (now : Q) (hs : list (nat * list sample)) tid h :
  NoDup (map fst hs) ->
  In (tid, h) (_clean_old_tracks now hs) <-> In (tid, h) hs /\ is_stale now h = false.
Proof.
  intros Hnd. unfold _clean_old_tracks. rewrite dict_del_fold_In.
  split; intros [Hin Hst]; (split; [exact Hin|]).
  - destruct (is_stale now h) eqn:E; [|reflexivity]. exfalso. apply Hst.
    apply in_map_iff. exists (tid, h). split; [reflexivity|].
    apply filter_In. auto.
  - intros Hk. apply in_map_iff in Hk as ([tid' h'] & Etid & Hf). simpl in Etid. subst tid'.
    apply filter_In in Hf as [Hin' Hst']. simpl in Hst'.
    apply (dict_get_In _ _ _ Hnd) in Hin. apply (dict_get_In _ _ _ Hnd) in Hin'.
    congruence.
Qed.

Lemma clean_old_tracks_NoDup (now : Q) (hs : list (nat * list sample)) :
  NoDup (map fst hs) -> NoDup (map fst (_clean_old_tracks now hs)).
Proof. apply dict_del_fold_keys. Qed.

Lemma idle_frames (times : list Q) (t : tracker) :
  NoDup (map fst (fruit_history t)) ->
  exists t', updates t (map (fun now => ([], now)) times) = Some t' /\
    NoDup (map fst (fruit_history t')) /\
    next_track_id t' = next_track_id t /\
    forall tid h, In (tid, h) (fruit_history t') <->
      In (tid, h) (fruit_history t) /\ Forall (fun now => is_stale now h = false) times.
Proof.
  revert t. induction times as [|now times IH]; intros t Hnd; simpl.
  - exists t. repeat split; auto. intros [Hin _]. exact Hin.
  - rewrite update_no_detections. simpl.
    destruct (IH (Tracker (_clean_old_tracks now (fruit_history t)) (next_track_id t)
                    (max_history t))) as (t' & E & Hnd' & Hnext & Hiff).
    { simpl. apply clean_old_tracks_NoDup. exact Hnd. }
    exists t'. split; [exact E|]. split; [exact Hnd'|]. split; [exact Hnext|].
    intros tid h. rewrite Hiff. simpl. rewrite (clean_old_tracks_In _ _ _ _ Hnd).
    rewrite Forall_cons. tauto.
Qed.

(** C7.  A frame with no detection still runs the sweep.  Over any run of
    such frames a track stays in the table, its history untouched, as long
    as no frame came more than the expiry window (one second) after its
    last sample; from the first frame that did, it is gone. *)
Theorem idle_track_expiry (t : tracker) (times : list Q) (tid : nat)
    (history : list sample) (s : sample) :
  NoDup (map fst (fruit_history t)) ->
  In (tid, history) (fruit_history t) ->
  last history = Some s ->
  exists t', updates t (map (fun now => ([], now)) times) = Some t' /\
    (Forall (fun now => now - sample_time s <= 1) times ->
     In (tid, history) (fruit_history t')) /\
    (~ Forall (fun now => now - sample_time s <= 1) times ->
     ~ In tid (map fst (fruit_history t'))).
Proof.
  intros Hnd Hin Hlast.
  destruct (idle_frames times t Hnd) as (t' & E & Hnd' & _ & Hiff).
  assert (Hst : forall now, is_stale now history = false <-> now - sample_time s <= 1).
  { intros now. unfold is_stale. rewrite Hlast. apply Qltb_ge. }
  exists t'. split; [exact E|]. split.
  - intros Hall. apply Hiff. split; [exact Hin|].
    eapply Forall_impl; [exact Hall|]. intros now. apply Hst.
  - intros Hnot Hk. apply in_map_iff in Hk as ([tid' h'] & Etid & Hin'). simpl in Etid. subst tid'.
    apply Hiff in Hin' as [Hin' Hall]. apply Hnot.
    assert (h' = history) as ->.
    { apply (dict_get_In _ _ _ Hnd) in Hin. apply (dict_get_In _ _ _ Hnd) in Hin'. congruence. }
    eapply Forall_impl; [exact Hall|]. intros now. apply Hst.
Qed.

(** *** The association pass *)

Lemma dict_set_In_inv {V : Type} (d : list (nat * V)) (k k' : nat) (v v' : V) :
  In (k', v') (dict_set k v d) -> In (k', v') d \/ (k', v') = (k, v).
Proof.
  induction d as [|[k0 v0] rest IH]; simpl.
  - intros [E|[]]. right. congruence.
  - destruct (Nat.eqb_spec k0 k) as [->|Hne]; simpl.
    + intros [E|Hin]; [right; congruence | left; right; exact Hin].
    + intros [E|Hin]; [left; left; exact E|].
      destruct (IH Hin) as [Hin'|E]; [left; right; exact Hin' | right; exact E].
Qed.

Lemma cost_row_length (history : list sample) (fruits : list detection) :
  length (cost_row history fruits) = length fruits.
Proof. unfold cost_row. apply length_map. Qed.

Lemma cost_row_nth (history : list sample) (fruits : list detection) j fruit :
  fruits !! j = Some fruit -> nth j (cost_row history fruits) 0 = cost history fruit.
Proof.
  intros Hj. unfold cost_row. revert j Hj.
  induction fruits as [|f rest IH]; intros [|j] Hj; simpl in *; try discriminate.
  - congruence.
  - apply IH. exact Hj.
Qed.

(** The assignment of the matching loop: a track holds the index it
    claims, and [used_current] collects the claimed indices. *)
Lemma match_tracks_spec (fruits : list detection) (existing : list (nat * list sample))
    (A0 : list (nat * nat)) (U0 : gset nat) :
  NoDup (map fst existing) ->
  (forall k, In k (map fst existing) -> ~ In k (map fst A0)) ->
  forall A U, match_tracks fruits existing A0 U0 = (A, U) ->
  (forall tid j, In (tid, j) A <->
     In (tid, j) A0 \/ exists h, In (tid, h) existing /\ claims fruits h j) /\
  (forall j, j ∈ U <->
     j ∈ U0 \/ exists tid h, In (tid, h) existing /\ claims fruits h j) /\
  (NoDup (map fst A0) -> NoDup (map fst A)) /\
  (forall k, In k (map fst A) -> In k (map fst A0) \/ In k (map fst existing)).
Proof.
  revert A0 U0. induction existing as [|[tid0 h0] rest IH]; intros A0 U0 Hnd Hdisj A U; simpl.
  - intros [= <- <-]. repeat split; try tauto.
    + intros [Hin | (h & [] & _)]. exact Hin.
    + intros [Hin | (t' & h & [] & _)]. exact Hin.
  - simpl in Hnd. apply NoDup_cons in Hnd as [Hfresh Hnd].
    rewrite list_elem_of_In in Hfresh.
    assert (Hone : forall tid j, In (tid, j) rest -> tid <> tid0).
    { intros tid j Hin ->. apply Hfresh. apply in_map_iff. exists (tid0, j). auto. }
    destruct (Qltb (nth (argmin (cost_row h0 fruits)) (cost_row h0 fruits) 0) 50) eqn:E.
    + apply Qltb_lt in E. intros Hm.
      rewrite dict_set_fresh in Hm by (apply Hdisj; simpl; auto).
      apply IH in Hm as (HA & HU & HN & HK); [|exact Hnd|].
      2:{ intros k Hk. rewrite map_app, in_app_iff. simpl.
          intros [Hin | [<- | []]]; [|contradiction].
          apply (Hdisj k); [simpl; auto | exact Hin]. }
      split; [|split; [|split]].
      * intros tid j. rewrite HA, in_app_iff. simpl. split.
        -- intros [[Hin | [[= <- <-] | []]] | (h & Hin & Hc)].
           ++ left. exact Hin.
           ++ right. exists h0. split; [left; reflexivity | split; [reflexivity | exact E]].
           ++ right. exists h. auto.
        -- intros [Hin | (h & [[= <- <-] | Hin] & Hc)].
           ++ left. left. exact Hin.
           ++ left. right. left. destruct Hc as [<- _]. reflexivity.
           ++ right. exists h. auto.
      * intros j. rewrite HU, elem_of_union, elem_of_singleton. split.
        -- intros [[Hin | ->] | (tid & h & Hin & Hc)].
           ++ left. exact Hin.
           ++ right. exists tid0, h0. split; [left; reflexivity | split; [reflexivity | exact E]].
           ++ right. exists tid, h. auto.
        -- intros [Hin | (tid & h & [[= <- <-] | Hin] & Hc)].
           ++ left. left. exact Hin.
           ++ left. right. destruct Hc as [<- _]. reflexivity.
           ++ right. exists tid, h. auto.
      * intros HN0. apply HN. rewrite map_app. simpl. apply NoDup_app. repeat split.
        -- exact HN0.
        -- intros k Hk Hk'. apply list_elem_of_In in Hk. apply list_elem_of_In in Hk'.
           destruct Hk' as [<- | []]. apply (Hdisj tid0); simpl; auto.
        -- apply NoDup_singleton.
      * intros k Hk. apply HK in Hk as [Hk | Hk]; [|right; simpl; auto].
        rewrite map_app, in_app_iff in Hk. simpl in Hk.
        destruct Hk as [Hk | [<- | []]]; [left; exact Hk | right; simpl; auto].
    + apply Qltb_ge in E. intros Hm.
      apply IH in Hm as (HA & HU & HN & HK); [|exact Hnd|].
      2:{ intros k Hk. apply Hdisj. simpl. auto. }
      split; [|split; [|split]].
      * intros tid j. rewrite HA. split.
        -- intros [Hin | (h & Hin & Hc)]; [left; exact Hin | right; exists h; auto].
        -- intros [Hin | (h & [[= <- <-] | Hin] & Hc)].
           ++ left. exact Hin.
           ++ destruct Hc as [<- Hc]. exfalso. lra.
           ++ right. exists h. auto.
      * intros j. rewrite HU. split.
        -- intros [Hin | (tid & h & Hin & Hc)]; [left; exact Hin | right; exists tid, h; auto].
        -- intros [Hin | (tid & h & [[= <- <-] | Hin] & Hc)].
           ++ left. exact Hin.
           ++ destruct Hc as [<- Hc]. exfalso. lra.
           ++ right. exists tid, h. auto.
      * exact HN.
      * intros k Hk. apply HK in Hk as [Hk | Hk]; [left; exact Hk | right; simpl; auto].
Qed.

(** The loop over the unmatched fruits keeps what is assigned and adds
    fresh ids, for indices outside [used_current] only. *)
Lemma spawn_spec (used : gset nat) (js : list nat) (A0 : list (nat * nat)) (next0 : nat) :
  (forall k, In k (map fst A0) -> (k < next0)%nat) ->
  forall A next,
  fold_left
    (fun '(assigned, next_id) j =>
       if bool_decide (j ∈ used) then (assigned, next_id)
       else (dict_set next_id j assigned, S next_id))
    js (A0, next0) = (A, next) ->
  (next0 <= next)%nat /\
  (forall k, In k (map fst A) -> (k < next)%nat) /\
  (forall tid j, In (tid, j) A0 -> In (tid, j) A) /\
  (forall tid j, In (tid, j) A ->
     In (tid, j) A0 \/ ((next0 <= tid)%nat /\ In j js /\ j ∉ used)) /\
  (NoDup (map fst A0) -> NoDup (map fst A)).
Proof.
  revert A0 next0. induction js as [|j0 js IH]; intros A0 next0 Hlt A next; simpl.
  - intros [= <- <-]. repeat split; auto.
  - destruct (bool_decide (j0 ∈ used)) eqn:E.
    + intros Hf. apply IH in Hf as (Hle & Hk & Hkeep & Hnew & HN); [|exact Hlt].
      repeat split; auto.
      intros tid j Hin. apply Hnew in Hin as [Hin | (Hge & Hj & Hu)]; [left; exact Hin|].
      right. auto.
    + apply bool_decide_eq_false in E. intros Hf.
      assert (Hfresh : ~ In next0 (map fst A0)).
      { intros Hin. apply Hlt in Hin. lia. }
      rewrite dict_set_fresh in Hf by exact Hfresh.
      apply IH in Hf as (Hle & Hk & Hkeep & Hnew & HN).
      2:{ intros k. rewrite map_app, in_app_iff. simpl.
          intros [Hin | [<- | []]]; [apply Hlt in Hin; lia | lia]. }
      split; [lia|]. split; [exact Hk|]. split; [|split].
      * intros tid j Hin. apply Hkeep. apply in_app_iff. left. exact Hin.
      * intros tid j Hin. apply Hnew in Hin as [Hin | (Hge & Hj & Hu)].
        -- apply in_app_iff in Hin as [Hin | [[= <- <-] | []]]; [left; exact Hin|].
           right. auto.
        -- right. split; [lia | auto].
      * intros HN0. apply HN. rewrite map_app. simpl. apply NoDup_app. repeat split.
        -- exact HN0.
        -- intros k Hk0 Hk'. apply list_elem_of_In in Hk0. apply list_elem_of_In in Hk'.
           destruct Hk' as [<- | []]. contradiction.
        -- apply NoDup_singleton.
Qed.

(** *** [update] *)

Lemma deque_append_last {A : Type} (maxlen : nat) (d : list A) (x : A) :
  last (deque_append maxlen d x) = match maxlen with O => None | S _ => Some x end.
Proof.
  unfold deque_append. rewrite length_app. simpl length. destruct maxlen as [|m].
  - rewrite Nat.sub_0_r. replace (length d + 1)%nat with (length (d ++ [x])).
    + rewrite drop_all. reflexivity.
    + rewrite length_app. reflexivity.
  - rewrite drop_app_le by lia. apply last_snoc.
Qed.

Lemma fresh_track_not_stale (maxlen : nat) (d : list sample) (now : Q) (x y : Z) :
  is_stale now (deque_append maxlen d (now, x, y)) = false.
Proof.
  unfold is_stale. rewrite deque_append_last. destruct maxlen; [reflexivity|].
  apply Qltb_ge. unfold sample_time. simpl. lra.
Qed.

Lemma match_tracks_indices (fruits : list detection) (existing : list (nat * list sample))
    (A0 : list (nat * nat)) (U0 : gset nat) :
  fruits <> [] ->
  (forall tid j, In (tid, j) A0 -> (j < length fruits)%nat) ->
  forall tid j, In (tid, j) (fst (match_tracks fruits existing A0 U0)) ->
  (j < length fruits)%nat.
Proof.
  intros Hne. revert A0 U0. induction existing as [|[tid0 h0] rest IH]; intros A0 U0 HA0; simpl.
  - exact HA0.
  - destruct (Qltb _ 50); [|apply IH; exact HA0].
    apply IH. intros tid j Hin. apply dict_set_In_inv in Hin as [Hin | [= -> ->]].
    + apply (HA0 _ _ Hin).
    + rewrite <- (cost_row_length h0 fruits). apply argmin_lt.
      intros E. apply (f_equal length) in E. rewrite cost_row_length in E.
      destruct fruits; [congruence | discriminate].
Qed.

Lemma spawn_indices (used : gset nat) (js : list nat) (acc : list (nat * nat) * nat) :
  forall tid j,
  In (tid, j)
    (fst (fold_left
       (fun '(assigned, next_id) j =>
          if bool_decide (j ∈ used) then (assigned, next_id)
          else (dict_set next_id j assigned, S next_id))
       js acc)) ->
  In (tid, j) (fst acc) \/ In j js.
Proof.
  revert acc. induction js as [|j0 js IH]; intros [A0 next0] tid j; simpl.
  - auto.
  - intros Hin. apply IH in Hin as [Hin | Hin]; [|auto].
    destruct (bool_decide (j0 ∈ used)); simpl in Hin; [auto|].
    apply dict_set_In_inv in Hin as [Hin | [= -> ->]]; auto.
Qed.

(** On the first frame every fruit is unmatched. *)
Lemma first_frame_spawn (used : gset nat) (js : list nat) (acc : list (nat * nat) * nat) :
  used = ∅ ->
  fold_left
    (fun '(assigned, next_id) j => (dict_set next_id j assigned, S next_id)) js acc =
  fold_left
    (fun '(assigned, next_id) j =>
       if bool_decide (j ∈ used) then (assigned, next_id)
       else (dict_set next_id j assigned, S next_id)) js acc.
Proof.
  intros ->. revert acc. induction js as [|j0 js IH]; intros [A0 next0]; simpl; [reflexivity|].
  rewrite IH. rewrite bool_decide_eq_false_2 by set_solver. reflexivity.
Qed.

Lemma assign_indices_valid (t : tracker) (fruits : list detection) :
  forall tid j, In (tid, j) (fst (_assign_track_ids t fruits)) ->
  (j < length fruits)%nat.
Proof.
  intros tid j. unfold _assign_track_ids.
  destruct (fruit_history t) as [|e existing] eqn:Efh.
  - rewrite (first_frame_spawn ∅) by reflexivity. intros Hin.
    apply spawn_indices in Hin as [[] | Hin]. apply in_seq in Hin. lia.
  - destruct fruits as [|f fruits].
    + simpl. tauto.
    + destruct (match_tracks (f :: fruits) (e :: existing) [] ∅) as [A U] eqn:Em.
      unfold spawn_unmatched. intros Hin.
      apply spawn_indices in Hin as [Hin | Hin]; [|apply in_seq in Hin; lia].
      simpl fst in Hin.
      apply (match_tracks_indices (f :: fruits) (e :: existing) [] ∅ ltac:(discriminate)
               ltac:(intros ? ? []) tid j).
      rewrite Em. exact Hin.
Qed.

(** The loop of [update]: it never raises, a track outside the assignment
    keeps its history, a track in it gets the sample of its fruit, and
    every assigned fruit ends up annotated. *)
Lemma update_loop_spec (maxlen : nat) (now : Q) (fruits : list detection)
    (items : list (nat * nat)) :
  (forall tid j, In (tid, j) items -> (j < length fruits)%nat) ->
  forall hs notes,
  exists hs' notes',
    update_loop maxlen now fruits items hs notes = Some (hs', notes') /\
    (NoDup (map fst hs) -> NoDup (map fst hs')) /\
    (forall k, In k (map fst hs') -> In k (map fst hs) \/ In k (map fst items)) /\
    (forall tid, ~ In tid (map fst items) -> dict_get tid hs' = dict_get tid hs) /\
    (NoDup (map fst items) ->
     forall tid j fruit, In (tid, j) items -> fruits !! j = Some fruit ->
       dict_get tid hs' =
       Some (deque_append maxlen (default [] (dict_get tid hs))
               (now, fst (center fruit), snd (center fruit)))) /\
    (forall j, In j (map snd items) \/ is_Some (dict_get j notes) ->
       is_Some (dict_get j notes')) /\
    (forall j tid, (forall tid', In (tid', j) items -> tid' = tid) ->
       In (tid, j) items \/
       (exists note, dict_get j notes = Some note /\ track_id note = tid) ->
       exists note, dict_get j notes' = Some note /\ track_id note = tid).
Proof.
  induction items as [|[tid0 j0] rest IH]; intros Hidx hs notes; simpl.
  - exists hs, notes. split; [reflexivity|].
    split; [tauto|]. split; [tauto|]. split; [tauto|]. split; [|split].
    + intros _ tid j fruit [].
    + intros j [[] | Hs]. exact Hs.
    + intros j tid _ [[] | Hn]. exact Hn.
  - destruct (lookup_lt_is_Some_2 fruits j0 (Hidx tid0 j0 ltac:(left; reflexivity)))
      as [fruit0 Ef].
    rewrite Ef. simpl.
    set (h0 := deque_append maxlen (default [] (dict_get tid0 hs))
                 (now, fst (center fruit0), snd (center fruit0))).
    destruct (annotate_total tid0 h0 fruit0) as (note0 & En & Etid).
    rewrite En. simpl.
    destruct (IH ltac:(intros tid j Hin; apply (Hidx tid j); right; exact Hin)
                (dict_set tid0 h0 hs) (dict_set j0 note0 notes))
      as (hs' & notes' & E & HN & HK & Hother & Hmine & Hsome & Hid).
    exists hs', notes'. split; [exact E|].
    split; [|split; [|split; [|split; [|split]]]].
    + intros Hnd. apply HN. apply dict_set_NoDup. exact Hnd.
    + intros k Hk. apply HK in Hk as [Hk | Hk]; [|right; right; exact Hk].
      rewrite dict_set_keys in Hk. destruct (in_dec _ _ _); [left; exact Hk|].
      apply in_app_iff in Hk as [Hk | [<- | []]]; [left; exact Hk | right; left; reflexivity].
    + intros tid Hnot. rewrite Hother by tauto.
      apply dict_get_set_ne. intros ->. apply Hnot. left. reflexivity.
    + intros Hnd tid j fruit Hin Hj. apply NoDup_cons in Hnd as [Hfresh Hnd].
      rewrite list_elem_of_In in Hfresh.
      destruct Hin as [[= -> ->] | Hin].
      * rewrite Hother by exact Hfresh. rewrite dict_get_set_eq.
        rewrite Ef in Hj. injection Hj as <-. reflexivity.
      * rewrite (Hmine Hnd tid j fruit Hin Hj).
        rewrite dict_get_set_ne; [reflexivity|].
        intros ->. apply Hfresh. apply in_map_iff. exists (tid, j). auto.
    + intros j Hj. apply Hsome. destruct (Nat.eq_dec j0 j) as [->|Hne].
      * right. rewrite dict_get_set_eq. eauto.
      * destruct Hj as [[E' | Hin] | Hs]; [congruence | left; exact Hin|].
        right. rewrite dict_get_set_ne by exact Hne. exact Hs.
    + intros j tid Honly Hcase.
      apply Hid; [intros tid' Hin; apply Honly; right; exact Hin|].
      destruct (Nat.eq_dec j0 j) as [->|Hne].
      * right. exists note0. rewrite dict_get_set_eq. split; [reflexivity|].
        rewrite Etid. apply Honly. left. reflexivity.
      * destruct Hcase as [[[= -> ->] | Hin] | Hn]; [congruence | left; exact Hin|].
        right. rewrite dict_get_set_ne by exact Hne. exact Hn.
Qed.

(** [update] never raises. *)
Lemma update_total (t : tracker) (fruits : list detection) (now : Q) :
  exists r, update t fruits now = Some r.
Proof.
  unfold update. pose proof (assign_indices_valid t fruits) as Hidx.
  destruct (_assign_track_ids t fruits) as [assigned next_id]. simpl fst in Hidx.
  destruct (update_loop_spec (max_history t) now fruits assigned Hidx (fruit_history t) [])
    as (hs' & notes' & E & _ & _ & _ & _ & Hsome & _).
  rewrite E. simpl.
  match goal with |- context [mapM ?f assigned] =>
    destruct (mapM_is_Some_2 f assigned) as [out Eout] end.
  - apply Forall_forall. intros [tid j] Hin. apply list_elem_of_In in Hin. simpl.
    destruct (lookup_lt_is_Some_2 fruits j (Hidx tid j Hin)) as [fruit ->]. simpl.
    destruct (Hsome j) as [note ->]; [|simpl; eauto].
    left. apply in_map_iff. exists (tid, j). auto.
  - rewrite Eout. simpl. eauto.
Qed.

(** *** The invariant of the track table *)

Lemma assign_keys_bound (t : tracker) (fruits : list detection) :
  well_formed t ->
  (next_track_id t <= snd (_assign_track_ids t fruits))%nat /\
  forall k, In k (map fst (fst (_assign_track_ids t fruits))) ->
    (k < snd (_assign_track_ids t fruits))%nat.
Proof.
  intros [Hnd Hfresh]. destruct t as [fh next maxlen]. simpl in *.
  unfold _assign_track_ids. simpl fruit_history. simpl next_track_id.
  destruct fh as [|e existing].
  - rewrite (first_frame_spawn ∅) by reflexivity.
    match goal with |- context [fold_left ?f ?l ?a] =>
      destruct (fold_left f l a) as [A' next'] eqn:Es end.
    destruct (spawn_spec ∅ _ [] next ltac:(intros ? []) A' next' Es) as (Hle & Hk & _).
    simpl. auto.
  - set (ex := e :: existing) in *.
    assert (Hex : forall A U, match_tracks fruits ex [] ∅ = (A, U) ->
              forall k, In k (map fst A) -> (k < next)%nat).
    { intros A U Em k Hk.
      destruct (match_tracks_spec fruits ex [] ∅ Hnd ltac:(intros ? ? []) A U Em)
        as (_ & _ & _ & HK).
      apply HK in Hk as [[] | Hk].
      apply in_map_iff in Hk as ([k' h'] & <- & Hk). apply (Hfresh _ _ Hk). }
    assert (Hsp : forall A U, (forall k, In k (map fst A) -> (k < next)%nat) ->
              (next <= snd (spawn_unmatched U (length fruits) (A, next)))%nat /\
              forall k, In k (map fst (fst (spawn_unmatched U (length fruits) (A, next)))) ->
                (k < snd (spawn_unmatched U (length fruits) (A, next)))%nat).
    { intros A U Hlt. unfold spawn_unmatched.
      match goal with |- context [fold_left ?f ?l ?a] =>
        destruct (fold_left f l a) as [A' next'] eqn:Es end.
      destruct (spawn_spec U _ A next Hlt A' next' Es) as (Hle & Hk & _).
      simpl. auto. }
    destruct fruits as [|f fruits'].
    + apply Hsp. intros k [].
    + destruct (match_tracks (f :: fruits') ex [] ∅) as [A U] eqn:Em.
      apply Hsp. apply (Hex A U). reflexivity.
Qed.

Lemma init_well_formed (maxlen : nat) : well_formed (init maxlen).
Proof. split; simpl; [constructor | intros ? ? []]. Qed.

(** [update] keeps the table well formed: ids stay distinct and below
    [next_track_id], which never decreases. *)
Lemma update_well_formed (t t' : tracker) (fruits : list detection) (now : Q)
    (out : list (detection * annotation)) :
  well_formed t ->
  update t fruits now = Some (t', out) ->
  well_formed t' /\ (next_track_id t <= next_track_id t')%nat.
Proof.
  intros Hwf. pose proof (assign_keys_bound t fruits Hwf) as [Hle Hkeys].
  pose proof (assign_indices_valid t fruits) as Hidx.
  destruct Hwf as [Hnd Hfresh].
  unfold update.
  destruct (_assign_track_ids t fruits) as [assigned next_id]. simpl fst in *. simpl snd in *.
  destruct (update_loop_spec (max_history t) now fruits assigned Hidx (fruit_history t) [])
    as (hs' & notes' & E & HN & HK & _).
  rewrite E. simpl.
  destruct (mapM _ assigned) as [out'|]; simpl; [|discriminate].
  intros [= <- <-]. split; [|exact Hle]. split; simpl.
  - apply clean_old_tracks_NoDup. apply HN. exact Hnd.
  - intros tid h Hin. apply clean_old_tracks_In in Hin as [Hin _]; [|apply HN; exact Hnd].
    assert (Hk : In tid (map fst hs')) by (apply in_map_iff; exists (tid, h); auto).
    apply HK in Hk as [Hk | Hk].
    + apply in_map_iff in Hk as ([k' h'] & <- & Hk). simpl.
      pose proof (Hfresh _ _ Hk). lia.
    + apply Hkeys. exact Hk.
Qed.

(** What the association pass assigns when a track claims a fruit that no
    other track is within the threshold of. *)
Lemma assign_claimed (t : tracker) (fruits : list detection)
    (tid : nat) (history : list sample) (j : nat) (fruit : detection) :
  well_formed t ->
  In (tid, history) (fruit_history t) ->
  fruits !! j = Some fruit ->
  claims fruits history j ->
  (forall tid' h', In (tid', h') (fruit_history t) -> tid' <> tid ->
     50 <= cost h' fruit) ->
  In (tid, j) (fst (_assign_track_ids t fruits)) /\
  (forall tid', In (tid', j) (fst (_assign_track_ids t fruits)) -> tid' = tid) /\
  NoDup (map fst (fst (_assign_track_ids t fruits))).
Proof.
  intros [Hnd Hfresh] Hin Hj Hclaims Hothers.
  destruct t as [fh next maxlen]. simpl in *. unfold _assign_track_ids. simpl fruit_history.
  destruct fh as [|e existing]; [destruct Hin|].
  set (ex := e :: existing) in *.
  destruct fruits as [|f fruits']; [discriminate|].
  set (fs := f :: fruits') in *.
  destruct (match_tracks fs ex [] ∅) as [A U] eqn:Em.
  destruct (match_tracks_spec fs ex [] ∅ Hnd ltac:(intros ? ? []) A U Em)
    as (HA & HU & HN & HK).
  unfold spawn_unmatched. simpl next_track_id.
  match goal with |- context [fold_left ?f ?l ?a] =>
    destruct (fold_left f l a) as [A' next'] eqn:Es end.
  assert (Hlt : forall k, In k (map fst A) -> (k < next)%nat).
  { intros k Hk. apply HK in Hk as [[] | Hk].
    apply in_map_iff in Hk as ([k' h'] & <- & Hk). apply (Hfresh _ _ Hk). }
  destruct (spawn_spec U _ A next Hlt A' next' Es) as (Hle & Hk & Hkeep & Hnew & HN').
  simpl fst. split; [|split].
  - apply Hkeep. apply HA. right. exists history. auto.
  - intros tid' Hin'. apply Hnew in Hin' as [Hin' | (_ & _ & Hu)].
    + apply HA in Hin' as [[] | (h' & Hin' & Hc)].
      destruct (Nat.eq_dec tid' tid) as [E | Hne]; [exact E|]. exfalso.
      specialize (Hothers tid' h' Hin' Hne). destruct Hc as [_ Hc].
      rewrite (cost_row_nth _ _ _ _ Hj) in Hc. lra.
    + exfalso. apply Hu. apply HU. right. exists tid, history. auto.
  - apply HN'. apply HN. constructor.
Qed.

Lemma cost_row_lookup (history : list sample) (fruits : list detection) (k : nat) (c : Q) :
  cost_row history fruits !! k = Some c ->
  exists fruit, fruits !! k = Some fruit /\ c = cost history fruit.
Proof.
  unfold cost_row. revert k. induction fruits as [|f rest IH]; intros [|k]; simpl;
    try discriminate.
  - intros [= <-]. eauto.
  - apply IH.
Qed.

(** C9, as the code has it.  When a detection is within the association
    distance of the last position of exactly one track, and is the nearest
    detection of that track (the first one among equally near ones), the
    pass gives it to that track alone: the history of the track ends with
    the detection, under the same id, the detection gets no new id and is
    reported under the id of the track. *)
Theorem nearest_detection_extends_track (t : tracker) (fruits : list detection)
    (now : Q) (tid : nat) (history : list sample) (j : nat) (fruit : detection) :
  well_formed t ->
  In (tid, history) (fruit_history t) ->
  fruits !! j = Some fruit ->
  cost history fruit < 50 ->
  (forall k fruit', fruits !! k = Some fruit' ->
     cost history fruit <= cost history fruit') ->
  (forall k fruit', (k < j)%nat -> fruits !! k = Some fruit' ->
     cost history fruit < cost history fruit') ->
  (forall tid' h', In (tid', h') (fruit_history t) -> tid' <> tid ->
     50 <= cost h' fruit) ->
  exists t' out,
    update t fruits now = Some (t', out) /\
    In (tid, deque_append (max_history t) history
               (now, fst (center fruit), snd (center fruit)))
       (fruit_history t') /\
    (forall tid', In (tid', j) (fst (_assign_track_ids t fruits)) <-> tid' = tid) /\
    (exists note, In (fruit, note) out /\ track_id note = tid).
Proof.
  intros Hwf Hin Hj Hcost Hnearest Hfirst Hothers.
  assert (Hrow : cost_row history fruits !! j = Some (cost history fruit)).
  { unfold cost_row. rewrite list_lookup_fmap_Some. eauto. }
  assert (Harg : argmin (cost_row history fruits) = j).
  { apply (argmin_first _ _ _ Hrow).
    - intros k c' Hk. apply cost_row_lookup in Hk as (fruit' & Hk & ->). eauto.
    - intros k c' Hlt Hk. apply cost_row_lookup in Hk as (fruit' & Hk & ->). eauto. }
  assert (Hclaims : claims fruits history j).
  { split; [exact Harg|]. rewrite (cost_row_nth _ _ _ _ Hj). exact Hcost. }
  destruct (assign_claimed t fruits tid history j fruit Hwf Hin Hj Hclaims Hothers)
    as (Hmine & Honly & HNA).
  pose proof (assign_indices_valid t fruits) as Hidx.
  destruct Hwf as [Hnd Hfresh].
  unfold update.
  destruct (_assign_track_ids t fruits) as [assigned next_id]. simpl fst in *.
  destruct (update_loop_spec (max_history t) now fruits assigned Hidx (fruit_history t) [])
    as (hs' & notes' & E & HN & _ & _ & Hsample & Hsome & Hid).
  rewrite E. simpl.
  match goal with |- context [mapM ?f assigned] =>
    destruct (mapM_is_Some_2 f assigned) as [out Eout] end.
  { apply Forall_forall. intros [tid' j'] Hin'. apply list_elem_of_In in Hin'. simpl.
    destruct (lookup_lt_is_Some_2 fruits j' (Hidx tid' j' Hin')) as [fruit' ->]. simpl.
    destruct (Hsome j') as [note ->]; [|simpl; eauto].
    left. apply in_map_iff. exists (tid', j'). auto. }
  rewrite Eout. simpl. eexists _, out. split; [reflexivity|]. simpl.
  split; [|split].
  - apply clean_old_tracks_In; [apply HN; exact Hnd|]. split.
    + apply dict_get_In; [apply HN; exact Hnd|].
      rewrite (Hsample HNA tid j fruit Hmine Hj).
      apply (dict_get_In _ _ _ Hnd) in Hin. rewrite Hin. reflexivity.
    + apply fresh_track_not_stale.
  - intros tid'. split; [apply Honly | intros ->; exact Hmine].
  - destruct (Hid j tid Honly (or_introl Hmine)) as (note & En & Etid).
    exists note. split; [|exact Etid].
    apply list_elem_of_In in Hmine. apply list_elem_of_lookup in Hmine as [i Hi].
    apply mapM_Some_1 in Eout.
    destruct (Forall2_lookup_l _ _ _ _ _ Eout Hi) as (y & Hy & Ey).
    simpl in Ey. rewrite Hj, En in Ey. simpl in Ey. injection Ey as <-.
    apply list_elem_of_In. apply list_elem_of_lookup. eauto.
Qed.

End WithMath.

End TrackerFacts.

(** ** The targeting engine *)

Module BotFacts.
Import RealBot.

(** *** The rapid mode and the fingerprint table *)

Lemma pomegranate_loop_fields (b : bot) (now : Q) (fruits : list detection) :
  let b' := fst (pomegranate_loop b now fruits) in
  cooldown b' = cooldown b /\ last_swipe_time b' = last_swipe_time b /\
  potential_pomegranates b' = potential_pomegranates b /\
  frame_counter b' = frame_counter b.
Proof.
  induction fruits as [|fruit rest IH]; simpl; [auto|].
  destruct (potential_pomegranates b !! center fruit) as [entry|]; [|exact IH].
  destruct (persists now entry); [|exact IH].
  simpl. destruct (rapid_mode b); simpl; auto.
Qed.

Lemma check_fields (b : bot) (fruits : list detection) (now : Q) :
  let b' := fst (check_pomegranate_behavior b fruits now) in
  cooldown b' = cooldown b /\ last_swipe_time b' = last_swipe_time b /\
  potential_pomegranates b' = potential_pomegranates b /\
  frame_counter b' = frame_counter b.
Proof.
  unfold check_pomegranate_behavior.
  destruct (rapid_mode b && Qltb (rapid_mode_end_time b) now).
  - exact (pomegranate_loop_fields (set_rapid b false (rapid_mode_end_time b)) now fruits).
  - apply pomegranate_loop_fields.
Qed.

Lemma pomegranate_loop_spec (b : bot) (now : Q) (fruits : list detection) :
  pomegranate_loop b now fruits =
  if existsb (persisting_fruit b now) fruits
  then ((if rapid_mode b then b else set_rapid b true (now + 3)), true)
  else (b, rapid_mode b).
Proof.
  induction fruits as [|fruit rest IH]; simpl; [reflexivity|].
  unfold persisting_fruit at 1.
  destruct (potential_pomegranates b !! center fruit) as [entry|]; simpl; [|exact IH].
  destruct (persists now entry); simpl; [reflexivity | exact IH].
Qed.

Lemma check_spec (b : bot) (fruits : list detection) (now : Q) :
  rapid_mode b = true ->
  let b' := fst (check_pomegranate_behavior b fruits now) in
  snd (check_pomegranate_behavior b fruits now) = rapid_mode b' /\
  (now <= rapid_mode_end_time b ->
   rapid_mode b' = true /\ rapid_mode_end_time b' = rapid_mode_end_time b) /\
  (rapid_mode_end_time b < now ->
   existsb (persisting_fruit b now) fruits = false -> rapid_mode b' = false) /\
  (rapid_mode_end_time b < now ->
   existsb (persisting_fruit b now) fruits = true ->
   rapid_mode b' = true /\ rapid_mode_end_time b' = now + 3).
Proof.
  intros Hr. unfold check_pomegranate_behavior. rewrite Hr. simpl andb.
  destruct (Qltb (rapid_mode_end_time b) now) eqn:E.
  - apply Qltb_lt in E. rewrite pomegranate_loop_spec.
    change (persisting_fruit (set_rapid b false (rapid_mode_end_time b)) now)
      with (persisting_fruit b now).
    destruct (existsb (persisting_fruit b now) fruits); simpl.
    + repeat split; try reflexivity; intros; try discriminate; lra.
    + repeat split; try reflexivity; intros; try discriminate; lra.
  - apply Qltb_ge in E. rewrite pomegranate_loop_spec. rewrite Hr.
    destruct (existsb (persisting_fruit b now) fruits); simpl.
    + repeat split; auto; intros; lra.
    + repeat split; auto; intros; lra.
Qed.

Lemma fold_delete_lookup (ks : list (Z * Z)) (m : gmap (Z * Z) (Q * Z)) (k : Z * Z) :
  fold_left (fun m fid => delete fid m) ks m !! k =
  if decide (k ∈ ks) then None else m !! k.
Proof.
  revert m. induction ks as [|k0 ks IH]; intros m; cbn [fold_left].
  - destruct (decide (k ∈ [])) as [Hin | _]; [|reflexivity].
    apply elem_of_nil in Hin. destruct Hin.
  - rewrite IH. destruct (decide (k ∈ ks)) as [Hin | Hnin].
    + destruct (decide (k ∈ k0 :: ks)) as [_ | Hn]; [reflexivity|].
      exfalso. apply Hn. apply elem_of_cons. right. exact Hin.
    + destruct (decide (k = k0)) as [-> | Hne].
      * rewrite lookup_delete_eq.
        destruct (decide (k0 ∈ k0 :: ks)) as [_ | Hn]; [reflexivity|].
        exfalso. apply Hn. apply elem_of_cons. left. reflexivity.
      * rewrite lookup_delete_ne by congruence.
        destruct (decide (k ∈ k0 :: ks)) as [Hin | _]; [|reflexivity].
        apply elem_of_cons in Hin as [E | Hin]; [contradiction | contradiction].
Qed.

(** [track_pomegranate_candidate] leaves no entry older than 2 seconds. *)
Lemma track_candidate_purges (b : bot) (fruit : detection) (now : Q)
    (k : Z * Z) (entry : Q * Z) :
  potential_pomegranates (track_pomegranate_candidate b fruit now) !! k = Some entry ->
  is_old now entry = false.
Proof.
  unfold track_pomegranate_candidate. simpl.
  set (table := match potential_pomegranates b !! center fruit with
                | Some (first_seen, slice_count) => _
                | None => _ end).
  rewrite fold_delete_lookup. destruct (decide _) as [Hin | Hnin]; [discriminate|].
  intros Hk. destruct (is_old now entry) eqn:E; [|reflexivity].
  exfalso. apply Hnin. apply list_elem_of_In. apply in_map_iff.
  exists (k, entry). split; [reflexivity|]. apply filter_In. split; [|exact E].
  apply list_elem_of_In. apply elem_of_map_to_list. exact Hk.
Qed.

Lemma track_candidate_fields (b : bot) (fruit : detection) (now : Q) :
  let b' := track_pomegranate_candidate b fruit now in
  cooldown b' = cooldown b /\ last_swipe_time b' = last_swipe_time b /\
  rapid_mode b' = rapid_mode b /\ rapid_mode_end_time b' = rapid_mode_end_time b.
Proof. simpl. auto. Qed.

Section WithMath.
Context `{MathModule}.

(** *** One frame *)

(** What [decide_frame] does to the bot, by the action it emits. *)
Lemma decide_frame_cases (b : bot) (f : frame) :
  let b1 := fst (check_pomegranate_behavior b (targeted_fruits f) (current_time f)) in
  let b' := fst (decide_frame b f) in
  cooldown b' = cooldown b /\
  rapid_mode b' = rapid_mode b1 /\
  rapid_mode_end_time b' = rapid_mode_end_time b1 /\
  ((snd (decide_frame b f) = NoAction /\
    last_swipe_time b' = last_swipe_time b /\
    potential_pomegranates b' = potential_pomegranates b) \/
   (is_swipe (snd (decide_frame b f)) = true /\
    last_swipe_time b' = current_time f /\
    cooldown b <= current_time f - last_swipe_time b /\
    exists fruit,
      potential_pomegranates b' =
      potential_pomegranates (track_pomegranate_candidate b1 fruit (current_time f)))).
Proof.
  pose proof (check_fields b (targeted_fruits f) (current_time f)) as (Hcd & Hlast & Htab & _).
  unfold decide_frame.
  destruct (check_pomegranate_behavior b (targeted_fruits f) (current_time f))
    as [b1 is_rapid]. simpl fst in *.
  destruct ((length (targeted_fruits f) =? 0)%nat && (frame_counter b1 mod 100 =? 0)%Z
            && game_over f).
  { simpl. repeat split; auto. }
  unfold find_best_swipe_target.
  destruct (targeted_fruits f) as [|fruit0 fruits] eqn:Ef.
  { simpl. repeat split; auto. }
  destruct (Qltb (current_time f - last_swipe_time b1) (cooldown b1)) eqn:Eclosed.
  { simpl. repeat split; auto. }
  apply Qltb_ge in Eclosed. rewrite Hcd, Hlast in Eclosed.
  destruct (best_loop (fruit0 :: fruits) (bombs f) None (-1)) as [[fruit|] best_score].
  2:{ simpl. repeat split; auto. }
  destruct (Qltb (5 # 10) best_score).
  2:{ simpl. repeat split; auto. }
  unfold execute_swipe. destruct (center fruit) as [fruit_x fruit_y] eqn:Ec.
  destruct (adjust_swipe_for_bombs b1 fruit_x fruit_y (bombs f)) as [start_x end_x].
  simpl. repeat split; auto. right. repeat split; auto.
  exists fruit. reflexivity.
Qed.

(** C5, as the code has it.  While the mode is active a frame ends it only
    if the time is past the expiry, never earlier.  Past the expiry the
    frame leaves the mode off when no fruit of the frame has a fingerprint
    that persists; when one has, the mode is switched on again in the same
    frame, with an expiry three seconds later. *)
Theorem rapid_mode_expiry (b : bot) (f : frame) :
  rapid_mode b = true ->
  let b' := fst (decide_frame b f) in
  (current_time f <= rapid_mode_end_time b ->
   rapid_mode b' = true /\ rapid_mode_end_time b' = rapid_mode_end_time b) /\
  (rapid_mode_end_time b < current_time f ->
   existsb (persisting_fruit b (current_time f)) (targeted_fruits f) = false ->
   rapid_mode b' = false) /\
  (rapid_mode_end_time b < current_time f ->
   existsb (persisting_fruit b (current_time f)) (targeted_fruits f) = true ->
   rapid_mode b' = true /\ rapid_mode_end_time b' = current_time f + 3).
Proof.
  intros Hr. cbv zeta.
  destruct (decide_frame_cases b f) as (_ & -> & -> & _).
  destruct (check_spec b (targeted_fruits f) (current_time f) Hr) as (_ & H1 & H2 & H3).
  auto.
Qed.

(** C6, as the code has it.  The purge runs in the frames that emit a
    swipe, whatever the mode: such a frame leaves no entry first seen more
    than 2 seconds before, a window longer than the 1 second of the
    activation test.  A frame without a swipe leaves the table as it
    was. *)
Theorem fingerprints_purged_on_swipe (b : bot) (f : frame) :
  let b' := fst (decide_frame b f) in
  (is_swipe (snd (decide_frame b f)) = true ->
   forall k entry, potential_pomegranates b' !! k = Some entry ->
     current_time f - fst entry <= 2) /\
  (is_swipe (snd (decide_frame b f)) = false ->
   potential_pomegranates b' = potential_pomegranates b) /\
  (forall now entry, is_old now entry = true -> 1 < now - fst entry).
Proof.
  cbv zeta.
  destruct (decide_frame_cases b f)
    as (_ & _ & _ & [(Hact & _ & Htab) | (Hact & _ & _ & fruit & Htab)]);
    split; [| split | | split].
  - rewrite Hact. discriminate.
  - intros _. exact Htab.
  - intros now entry Hold. apply Qltb_lt in Hold. lra.
  - intros _ k entry Hk. rewrite Htab in Hk.
    apply track_candidate_purges in Hk. apply Qltb_ge in Hk. exact Hk.
  - rewrite Hact. discriminate.
  - intros now entry Hold. apply Qltb_lt in Hold. lra.
Qed.

(** *** The cooldown *)

Lemma inside_cooldown (b : bot) (f : frame) :
  current_time f - last_swipe_time b < cooldown b ->
  find_best_swipe_target b (targeted_fruits f) (bombs f) (current_time f) = (None, 0) /\
  snd (decide_frame b f) = NoAction.
Proof.
  intros Hclosed. split.
  - unfold find_best_swipe_target. destruct (targeted_fruits f); [reflexivity|].
    apply Qltb_lt in Hclosed. rewrite Hclosed. reflexivity.
  - destruct (decide_frame_cases b f) as (_ & _ & _ & [(Hact & _) | (_ & _ & Hopen & _)]).
    + exact Hact.
    + lra.
Qed.

Lemma run_cooldown (frames : list frame) (b : bot) :
  cooldown (fst (run b frames)) = cooldown b.
Proof.
  revert b. induction frames as [|f rest IH]; intros b; simpl; [reflexivity|].
  destruct (decide_frame_cases b f) as (Hcd & _).
  destruct (decide_frame b f) as [b1 act]. simpl in Hcd.
  specialize (IH b1). destruct (run b1 rest) as [b2 trace]. simpl in *. congruence.
Qed.

(** Every swipe of a run comes at least the cooldown after the last swipe
    before the run. *)
Lemma run_after_last_swipe (frames : list frame) (b : bot) (t : Q) (a : action) :
  0 <= cooldown b ->
  In (t, a) (snd (run b frames)) -> is_swipe a = true ->
  cooldown b <= t - last_swipe_time b.
Proof.
  revert b. induction frames as [|f rest IH]; intros b Hcd; simpl; [tauto|].
  destruct (decide_frame_cases b f) as (Ecd & _ & _ & Hcase).
  destruct (decide_frame b f) as [b1 act]. simpl in Ecd, Hcase.
  specialize (IH b1). destruct (run b1 rest) as [b2 trace]. simpl.
  rewrite Ecd in IH.
  intros [[= <- <-] | Hin] Hsw.
  - destruct Hcase as [(-> & _) | (_ & _ & Hopen & _)]; [discriminate | exact Hopen].
  - specialize (IH Hcd Hin Hsw).
    destruct Hcase as [(_ & Elast & _) | (_ & Elast & Hopen & _)]; rewrite Elast in IH; lra.
Qed.

Lemma run_pairs (frames : list frame) (b : bot) (i j : nat) (ti tj : Q) (ai aj : action) :
  0 <= cooldown b -> (i < j)%nat ->
  snd (run b frames) !! i = Some (ti, ai) -> is_swipe ai = true ->
  snd (run b frames) !! j = Some (tj, aj) -> is_swipe aj = true ->
  cooldown b <= tj - ti.
Proof.
  revert b i j. induction frames as [|f rest IH]; intros b i j Hcd Hij; simpl.
  - discriminate.
  - destruct (decide_frame_cases b f) as (Ecd & _ & _ & Hcase).
    destruct (decide_frame b f) as [b1 act]. simpl in Ecd, Hcase.
    pose proof (run_after_last_swipe rest b1 tj aj) as Hafter.
    specialize (IH b1). destruct (run b1 rest) as [b2 trace]. simpl in *.
    rewrite Ecd in IH, Hafter.
    destruct j as [|j]; [lia|]. destruct i as [|i]; simpl.
    + intros [= <- <-] Hsi Hj Hsj.
      destruct Hcase as [(-> & _) | (_ & Elast & _)]; [discriminate|].
      rewrite Elast in Hafter. apply Hafter; auto.
      apply list_elem_of_In. apply list_elem_of_lookup. eauto.
    + intros Hi Hsi Hj Hsj. apply (IH i j); auto. lia.
Qed.

(** C1.  A frame whose time is less than the cooldown after the last swipe
    returns from [find_best_swipe_target] at once, with no target, and
    emits no action; the last swipe time becomes the time of the frame
    exactly when the frame emits a swipe; and so, for a cooldown that is
    not negative, any two swipes of a run are at least the cooldown
    apart. *)
Theorem swipes_respect_cooldown (b : bot) (frames : list frame) :
  (forall f, current_time f - last_swipe_time b < cooldown b ->
     find_best_swipe_target b (targeted_fruits f) (bombs f) (current_time f) = (None, 0) /\
     snd (decide_frame b f) = NoAction) /\
  (forall f, last_swipe_time (fst (decide_frame b f)) =
     if is_swipe (snd (decide_frame b f)) then current_time f else last_swipe_time b) /\
  (0 <= cooldown b ->
   forall i j ti tj ai aj, (i < j)%nat ->
     snd (run b frames) !! i = Some (ti, ai) -> is_swipe ai = true ->
     snd (run b frames) !! j = Some (tj, aj) -> is_swipe aj = true ->
     cooldown b <= tj - ti).
Proof.
  split; [|split].
  - intros f. apply inside_cooldown.
  - intros f.
    destruct (decide_frame_cases b f) as (_ & _ & _ & [(-> & -> & _) | (-> & -> & _)]);
      reflexivity.
  - intros Hcd i j ti tj ai aj. apply run_pairs. exact Hcd.
Qed.

(** *** The safety score and the path check *)

Lemma safety_loop_corridor (fruit : detection) (bombs : list detection) (min_safety : Q) :
  (exists bomb, In bomb bombs /\ in_score_corridor fruit bomb = true) ->
  safety_loop fruit bombs min_safety = 0.
Proof.
  revert min_safety. induction bombs as [|bomb0 rest IH]; intros m (bomb & Hin & Hc).
  - destruct Hin.
  - simpl. destruct (in_score_corridor fruit bomb0) eqn:E; [reflexivity|].
    apply IH. destruct Hin as [<- | Hin]; [congruence | eauto].
Qed.

Lemma safety_loop_min (fruit : detection) (bombs : list detection) (min_safety : Q) :
  (forall bomb, In bomb bombs -> in_score_corridor fruit bomb = false) ->
  let score := safety_loop fruit bombs min_safety in
  score <= min_safety /\
  (forall bomb, In bomb bombs -> score <= distance_safety fruit bomb) /\
  (score = min_safety \/
   exists bomb, In bomb bombs /\ score = distance_safety fruit bomb).
Proof.
  revert min_safety. induction bombs as [|bomb0 rest IH]; intros m Hfree; simpl.
  - split; [lra|]. split; [intros ? []|]. left. reflexivity.
  - rewrite (Hfree bomb0) by (left; reflexivity).
    destruct (IH (py_min m (distance_safety fruit bomb0))) as (Hle & Hall & Hwhich).
    { intros bomb Hin. apply Hfree. right. exact Hin. }
    pose proof (py_min_l m (distance_safety fruit bomb0)).
    pose proof (py_min_r m (distance_safety fruit bomb0)).
    split; [lra|]. split.
    + intros bomb [<- | Hin]; [lra | apply Hall; exact Hin].
    + destruct Hwhich as [E | (bomb & Hin & E)].
      * destruct (py_min_cases m (distance_safety fruit bomb0)) as [E' | E'].
        -- left. congruence.
        -- right. exists bomb0. split; [left; reflexivity | congruence].
      * right. exists bomb. split; [right; exact Hin | exact E].
Qed.

Lemma safety_score_corridor (fruit : detection) (bombs : list detection) :
  (exists bomb, In bomb bombs /\ in_score_corridor fruit bomb = true) ->
  calculate_safety_score fruit bombs = 0.
Proof.
  intros Hc. destruct bombs as [|bomb0 rest]; [destruct Hc as (? & [] & _)|].
  apply safety_loop_corridor. exact Hc.
Qed.

Lemma in_score_corridor_spec (fruit bomb : detection) :
  in_score_corridor fruit bomb = true <->
  (Z.abs (fst (center fruit) - fst (center bomb)) < 60)%Z /\
  (Z.abs (snd (center fruit) - snd (center bomb)) < 25)%Z.
Proof.
  unfold in_score_corridor. cbv zeta. rewrite andb_true_iff, !Z.ltb_lt. reflexivity.
Qed.

Lemma distance_safety_value (fruit bomb : detection) :
  distance_safety fruit bomb =
  py_min 1 (sqrt (inject_Z ((fst (center fruit) - fst (center bomb)) ^ 2
                            + (snd (center fruit) - snd (center bomb)) ^ 2)) / 100).
Proof.
  unfold distance_safety. destruct (center fruit), (center bomb). reflexivity.
Qed.

(** C2.  With no bomb the safety score is 1.  With a bomb in the score
    corridor (less than 60 pixels away horizontally and less than 25
    vertically) it is 0, whatever the distances.  Otherwise it is the
    least of 1 and, over the bombs, the distance to the bomb over 100: the
    square root of the sum of the squares of the two offsets, over 100. *)
Theorem safety_score_spec (fruit : detection) (bombs : list detection) :
  (bombs = [] -> calculate_safety_score fruit bombs = 1) /\
  ((exists bomb, In bomb bombs /\
      (Z.abs (fst (center fruit) - fst (center bomb)) < 60)%Z /\
      (Z.abs (snd (center fruit) - snd (center bomb)) < 25)%Z) ->
   calculate_safety_score fruit bombs = 0) /\
  (bombs <> [] ->
   (forall bomb, In bomb bombs ->
      (60 <= Z.abs (fst (center fruit) - fst (center bomb)))%Z \/
      (25 <= Z.abs (snd (center fruit) - snd (center bomb)))%Z) ->
   calculate_safety_score fruit bombs <= 1 /\
   (forall bomb, In bomb bombs ->
      calculate_safety_score fruit bombs <=
      sqrt (inject_Z ((fst (center fruit) - fst (center bomb)) ^ 2
                      + (snd (center fruit) - snd (center bomb)) ^ 2)) / 100) /\
   (calculate_safety_score fruit bombs = 1 \/
    exists bomb, In bomb bombs /\
      calculate_safety_score fruit bombs =
      sqrt (inject_Z ((fst (center fruit) - fst (center bomb)) ^ 2
                      + (snd (center fruit) - snd (center bomb)) ^ 2)) / 100)).
Proof.
  split; [|split].
  - intros ->. reflexivity.
  - intros (bomb & Hin & Hc). apply safety_score_corridor.
    exists bomb. split; [exact Hin|]. apply in_score_corridor_spec. exact Hc.
  - intros Hne Hout. destruct bombs as [|bomb0 rest]; [congruence|].
    assert (Hfree : forall bomb, In bomb (bomb0 :: rest) ->
              in_score_corridor fruit bomb = false).
    { intros bomb Hin. destruct (in_score_corridor fruit bomb) eqn:E; [|reflexivity].
      apply in_score_corridor_spec in E. destruct (Hout bomb Hin); lia. }
    unfold calculate_safety_score.
    destruct (safety_loop_min fruit (bomb0 :: rest) 1 Hfree) as (Hle & Hall & Hwhich).
    split; [exact Hle|]. split.
    + intros bomb Hin. specialize (Hall bomb Hin).
      rewrite distance_safety_value in Hall.
      match type of Hall with _ <= py_min 1 ?d => pose proof (py_min_r 1 d) end. lra.
    + destruct Hwhich as [E | (bomb & Hin & E)]; [left; exact E|].
      rewrite distance_safety_value in E.
      match type of E with _ = py_min 1 ?d =>
        destruct (py_min_cases 1 d) as [E' | E'] end.
      * left. congruence.
      * right. exists bomb. split; [exact Hin | congruence].
Qed.

End WithMath.

Lemma score_corridor_in_path_corridor (fruit bomb : detection) :
  in_score_corridor fruit bomb = true -> in_path_corridor fruit bomb = true.
Proof.
  unfold in_score_corridor, in_path_corridor.
  rewrite !andb_true_iff, !Z.ltb_lt. lia.
Qed.

Lemma path_check_rejects (fruit : detection) (bombs : list detection) :
  (exists bomb, In bomb bombs /\ in_path_corridor fruit bomb = true) ->
  is_swipe_safe fruit bombs = false.
Proof.
  induction bombs as [|bomb0 rest IH]; intros (bomb & Hin & Hc).
  - destruct Hin.
  - simpl. destruct (in_path_corridor fruit bomb0) eqn:E; [reflexivity|].
    apply IH. destruct Hin as [<- | Hin]; [congruence | eauto].
Qed.

(** C10.  A bomb that makes the safety score 0 by the corridor override
    also makes [is_swipe_safe] reject the fruit: the score corridor
    (60 by 25) lies within the path corridor (70 by 30). *)
Theorem score_override_implies_path_rejection `{MathModule}
    (fruit : detection) (bombs : list detection) :
  (exists bomb, In bomb bombs /\ in_score_corridor fruit bomb = true) ->
  calculate_safety_score fruit bombs = 0 /\ is_swipe_safe fruit bombs = false.
Proof.
  intros Hc. split.
  - apply safety_score_corridor. exact Hc.
  - apply path_check_rejects. destruct Hc as (bomb & Hin & Hc).
    exists bomb. split; [exact Hin|]. apply score_corridor_in_path_corridor. exact Hc.
Qed.

End BotFacts.

(** ** The properties on the worked scenarios *)

Module Examples.
Import FruitTracker RealBot Scenarios TrackerFacts BotFacts.

(** *** Tracker *)

(** C3.  Two tracks near each other and one detection between them: both
    tracks are assigned the detection of index 0, both histories are
    extended with it, and the fruit comes out twice, its dictionary
    holding the id written last. *)
Theorem detection_shared_by_two_tracks :
  exists t1 out1 t2,
    update (H := integer_sqrt) (FruitTracker.init 10) [at_x 100; at_x 110] 0 = Some (t1, out1) /\
    _assign_track_ids (H := integer_sqrt) t1 [at_x 105] =
      ([(0%nat, 0%nat); (1%nat, 0%nat)], 2%nat) /\
    update (H := integer_sqrt) t1 [at_x 105] (1 # 10) =
      Some (t2, [(at_x 105, Annotation 1 Hover (97, 94)%Z (-50, 0));
                 (at_x 105, Annotation 1 Hover (97, 94)%Z (-50, 0))]) /\
    map (fun kv => (fst kv, last (snd kv))) (fruit_history t2) =
      [(0%nat, Some (1 # 10, 105%Z, 100%Z)); (1%nat, Some (1 # 10, 105%Z, 100%Z))].
Proof.
  eexists _, _, _. split; [vm_compute; reflexivity|].
  split; [vm_compute; reflexivity|].
  split; vm_compute; reflexivity.
Qed.

(** C9, refuted as stated.  One track at x = 100, detections at x = 105 and
    x = 130: the second is within 50 pixels of that track only, yet the
    track takes the first and the second gets the new id 1. *)
Lemma second_nearest_detection_spawns :
  exists t1 out1,
    update (H := integer_sqrt) (FruitTracker.init 10) [at_x 100] 0 = Some (t1, out1) /\
    fruit_history t1 = [(0%nat, [(0, 100%Z, 100%Z)])] /\
    cost (H := integer_sqrt) [(0, 100%Z, 100%Z)] (at_x 130) < 50 /\
    _assign_track_ids (H := integer_sqrt) t1 [at_x 105; at_x 130] =
      ([(0%nat, 0%nat); (1%nat, 1%nat)], 2%nat).
Proof.
  eexists _, _. split; [vm_compute; reflexivity|].
  split; [reflexivity|]. split; vm_compute; reflexivity.
Qed.

Lemma two_tracks_well_formed : well_formed two_tracks.
Proof.
  split.
  - simpl. apply NoDup_cons. split; [|apply NoDup_singleton].
    intros Hin. apply elem_of_cons in Hin as [E | Hin]; [discriminate E|].
    apply elem_of_nil in Hin. exact Hin.
  - simpl. intros tid history [E | [E | []]]; injection E as <- _; lia.
Qed.

Lemma nearest_detection_extends_track_witness :
  exists t' out,
    update (H := integer_sqrt) two_tracks [at_x 105; at_x 130] (1 # 10) = Some (t', out) /\
    In (0%nat, [(0, 100%Z, 100%Z); (1 # 10, 105%Z, 100%Z)]) (fruit_history t') /\
    (forall tid',
       In (tid', 0%nat)
         (fst (_assign_track_ids (H := integer_sqrt) two_tracks [at_x 105; at_x 130]))
       <-> tid' = 0%nat) /\
    (exists note, In (at_x 105, note) out /\ track_id note = 0%nat).
Proof.
  apply (nearest_detection_extends_track (H := integer_sqrt) two_tracks
           [at_x 105; at_x 130] (1 # 10) 0 [(0, 100%Z, 100%Z)] 0 (at_x 105)).
  - exact two_tracks_well_formed.
  - left. reflexivity.
  - reflexivity.
  - vm_compute. reflexivity.
  - intros [|[|k]] fruit' Hk; simpl in Hk; try discriminate;
      injection Hk as <-; vm_compute; discriminate.
  - intros k fruit' Hlt. lia.
  - intros tid' h' [E | [E | []]] Hne; injection E as <- <-.
    + congruence.
    + vm_compute. discriminate.
Defined.

(** C7 on a table of two tracks last seen at time 0: frames at 0.5 and 1
    keep track 0, a further frame at 1.2 removes it. *)
Lemma idle_track_expiry_witness :
  (exists t', updates (H := integer_sqrt) two_tracks [([], 5 # 10); ([], 1)] = Some t' /\
     In (0%nat, [(0, 100%Z, 100%Z)]) (fruit_history t')) /\
  (exists t', updates (H := integer_sqrt) two_tracks
                [([], 5 # 10); ([], 1); ([], 12 # 10)] = Some t' /\
     ~ In 0%nat (map fst (fruit_history t'))).
Proof.
  assert (Hnd : NoDup (map fst (fruit_history two_tracks)))
    by apply two_tracks_well_formed.
  split.
  - destruct (idle_track_expiry (H := integer_sqrt) two_tracks [5 # 10; 1] 0
                [(0, 100%Z, 100%Z)] (0, 100%Z, 100%Z) Hnd
                ltac:(left; reflexivity) ltac:(reflexivity)) as (t' & E & Hkeep & _).
    exists t'. split; [exact E|]. apply Hkeep.
    repeat constructor; vm_compute; discriminate.
  - destruct (idle_track_expiry (H := integer_sqrt) two_tracks [5 # 10; 1; 12 # 10] 0
                [(0, 100%Z, 100%Z)] (0, 100%Z, 100%Z) Hnd
                ltac:(left; reflexivity) ltac:(reflexivity)) as (t' & E & _ & Hdrop).
    exists t'. split; [exact E|]. apply Hdrop.
    intros Hall. apply Forall_cons in Hall as [_ Hall].
    apply Forall_cons in Hall as [_ Hall]. apply Forall_cons in Hall as [Hlate _].
    vm_compute in Hlate. apply Hlate. reflexivity.
Defined.

(** C8, refuted as stated.  Two samples at the same time: the acceleration
    returned is 0, which is neither [- gravity], the constant the code
    assumes elsewhere, nor [gravity]. *)
Lemma zero_elapsed_time_acceleration :
  sample_time (0, 100%Z, 110%Z) - sample_time (0, 100%Z, 100%Z) <= 0 /\
  _calculate_trajectory_parameters stalled = Some (Unknown, 0, 0, 0) /\
  ~ 0 == - gravity /\ ~ 0 == gravity.
Proof.
  split; [vm_compute; discriminate|]. split; [reflexivity|].
  split; vm_compute; discriminate.
Qed.

Lemma nonpositive_elapsed_time_defaults_witness :
  _calculate_trajectory_parameters stalled = Some (Unknown, 0, 0, 0).
Proof.
  apply (nonpositive_elapsed_time_defaults [] (0, 100%Z, 100%Z) (0, 100%Z, 110%Z)).
  vm_compute. discriminate.
Defined.



(** *** Targeting engine *)

Lemma swipes_respect_cooldown_witness :
  (snd (decide_frame (H := integer_sqrt) RealBot.init (Frame [apple] [] (5 # 100) false))
     = NoAction) /\
  cooldown RealBot.init <= (15 # 10) - 1.
Proof.
  pose proof (swipes_respect_cooldown (H := integer_sqrt) RealBot.init apple_frames)
    as (Hclosed & _ & Hpairs).
  split.
  - apply (Hclosed (Frame [apple] [] (5 # 100) false)). vm_compute. reflexivity.
  - apply (Hpairs ltac:(vm_compute; discriminate) 0%nat 1%nat 1 (15 # 10)
             apple_swipe apple_swipe).
    + lia.
    + vm_compute. reflexivity.
    + reflexivity.
    + vm_compute. reflexivity.
    + reflexivity.
Defined.

Lemma safety_score_spec_witness :
  calculate_safety_score (H := integer_sqrt) apple [] = 1 /\
  calculate_safety_score (H := integer_sqrt) apple [far_bomb; bomb] = 0 /\
  calculate_safety_score (H := integer_sqrt) apple [far_bomb; low_bomb] == 6 # 10.
Proof.
  split; [|split].
  - apply (safety_score_spec (H := integer_sqrt) apple []). reflexivity.
  - apply (safety_score_spec (H := integer_sqrt) apple [far_bomb; bomb]).
    exists bomb. split; [right; left; reflexivity | vm_compute; auto].
  - destruct (safety_score_spec (H := integer_sqrt) apple [far_bomb; low_bomb])
      as (_ & _ & Hmin).
    destruct Hmin as (_ & Hall & Hwhich).
    + discriminate.
    + intros b [<- | [<- | []]]; right; vm_compute; discriminate.
    + pose proof (Hall far_bomb ltac:(left; reflexivity)) as Hfar.
      pose proof (Hall low_bomb ltac:(right; left; reflexivity)) as Hlow.
      destruct Hwhich as [E | (b & [<- | [<- | []]] & E)].
      * rewrite E in Hlow. vm_compute in Hlow. exfalso. apply Hlow. reflexivity.
      * rewrite E in Hlow. vm_compute in Hlow. exfalso. apply Hlow. reflexivity.
      * rewrite E. vm_compute. reflexivity.
Defined.

Lemma score_override_implies_path_rejection_witness :
  calculate_safety_score (H := integer_sqrt) apple [far_bomb; bomb] = 0 /\
  is_swipe_safe apple [far_bomb; bomb] = false.
Proof.
  apply (score_override_implies_path_rejection (H := integer_sqrt) apple [far_bomb; bomb]).
  exists bomb. split; [right; left; reflexivity | reflexivity].
Defined.

(** C5, refuted as stated.  From the start of the bot, an apple that does
    not move is swiped three times and the mode goes on at 1.6, with
    expiry 4.6; a bomb next to the apple then keeps the bot from swiping.
    The turn at 4.7, the first one past the expiry, still sees the apple,
    whose fingerprint persists: the turn leaves the mode on, with a new
    expiry of 7.7. *)
Lemma rapid_mode_outlives_expiry :
  exists t b times trace t' b' times' act,
    Pipeline.loop (H := integer_sqrt) (FruitTracker.init 10, RealBot.init, []) still_apple
      = Some (t, b, times, trace) /\
    rapid_mode b = true /\
    rapid_mode_end_time b == 46 # 10 /\
    rapid_mode_end_time b < Pipeline.loop_time late_capture /\
    Pipeline.loop_body (H := integer_sqrt) (t, b, times) late_capture
      = Some (t', b', times', act) /\
    rapid_mode b' = true /\
    rapid_mode_end_time b' == 77 # 10.
Proof.
  eexists _, _, _, _, _, _, _, _. split; [vm_compute; reflexivity|].
  split; [reflexivity|]. split; [reflexivity|]. split; [reflexivity|].
  split; [vm_compute; reflexivity|]. split; reflexivity.
Qed.

Lemma rapid_mode_expiry_witness :
  rapid_mode (fst (decide_frame (H := integer_sqrt) after_apple early_frame)) = true /\
  rapid_mode (fst (decide_frame (H := integer_sqrt) after_apple empty_frame)) = false /\
  rapid_mode (fst (decide_frame (H := integer_sqrt) after_apple late_frame)) = true.
Proof.
  assert (Hr : rapid_mode after_apple = true) by (vm_compute; reflexivity).
  pose proof (rapid_mode_expiry (H := integer_sqrt) after_apple early_frame Hr)
    as (Hearly & _ & _).
  pose proof (rapid_mode_expiry (H := integer_sqrt) after_apple empty_frame Hr)
    as (_ & Hoff & _).
  pose proof (rapid_mode_expiry (H := integer_sqrt) after_apple late_frame Hr)
    as (_ & _ & Hon).
  split; [|split].
  - apply Hearly. vm_compute. discriminate.
  - apply Hoff; vm_compute; reflexivity.
  - apply Hon; vm_compute; reflexivity.
Defined.

(** C6, refuted as stated.  In the same run the apple was first swiped at
    0.5.  The turn at 4.7 emits no swipe, and afterwards the entry of the
    apple, 4.2 seconds old, is still in the table. *)
Lemma stale_fingerprint_survives_idle_frame :
  exists t b times trace t' b' times',
    Pipeline.loop (H := integer_sqrt) (FruitTracker.init 10, RealBot.init, []) still_apple
      = Some (t, b, times, trace) /\
    Pipeline.loop_body (H := integer_sqrt) (t, b, times) late_capture
      = Some (t', b', times', NoAction) /\
    potential_pomegranates b' !! center apple = Some (5 # 10, 2%Z) /\
    2 < Pipeline.loop_time late_capture - (5 # 10).
Proof.
  eexists _, _, _, _, _, _, _. split; [vm_compute; reflexivity|].
  split; [vm_compute; reflexivity|]. split; vm_compute; reflexivity.
Qed.

Lemma fingerprints_purged_on_swipe_witness :
  potential_pomegranates after_pear !! center apple = Some (1, 1%Z) /\
  current_time pear_frame - (25 # 10) <= 2 /\
  potential_pomegranates (fst (decide_frame (H := integer_sqrt) after_pear late_frame))
    = potential_pomegranates after_pear /\
  1 < current_time pear_frame - 1.
Proof.
  pose proof (fingerprints_purged_on_swipe (H := integer_sqrt) after_pear pear_frame)
    as (Hswipe & _ & Hwin).
  pose proof (fingerprints_purged_on_swipe (H := integer_sqrt) after_pear late_frame)
    as (_ & Hidle & _).
  split; [vm_compute; reflexivity|]. split; [|split].
  - apply (Hswipe ltac:(vm_compute; reflexivity) (center pear) (25 # 10, 2%Z)).
    vm_compute. reflexivity.
  - apply Hidle. vm_compute. reflexivity.
  - apply (Hwin (current_time pear_frame) (1, 2%Z)). vm_compute. reflexivity.
Defined.

End Examples.

(** ** More on the track manager *)

Module TrackerExtras.
Import FruitTracker TrackerFacts.

Lemma deque_append_length {A : Type} (maxlen : nat) (d : list A) (x : A) :
  length (deque_append maxlen d x) = Nat.min (S (length d)) maxlen.
Proof.
  unfold deque_append. rewrite length_drop, length_app. simpl length. lia.
Qed.

Lemma filter_seq_member (p : nat -> bool) (a n i j : nat) :
  List.filter p (seq a n) !! i = Some j -> (a <= j < a + n)%nat /\ p j = true.
Proof.
  intros Hi. apply list_elem_of_lookup_2, list_elem_of_In, filter_In in Hi as [Hin Hp].
  apply in_seq in Hin. auto.
Qed.

Lemma filter_seq_increasing (p : nat -> bool) (n a i1 i2 j1 j2 : nat) :
  List.filter p (seq a n) !! i1 = Some j1 ->
  List.filter p (seq a n) !! i2 = Some j2 ->
  (i1 < i2)%nat -> (j1 < j2)%nat.
Proof.
  revert a i1 i2. induction n as [|n IH]; intros a i1 i2; simpl; [discriminate|].
  destruct (p a); [|apply IH].
  destruct i1 as [|i1], i2 as [|i2]; simpl; try lia.
  - intros [= <-] H2 _. apply filter_seq_member in H2. lia.
  - intros H1 H2 Hlt. apply (IH (S a) i1 i2); auto. lia.
Qed.

Lemma combine_seq_In (a : nat) (u : list nat) (tid j : nat) :
  In (tid, j) (combine (seq a (length u)) u) <->
  exists i, u !! i = Some j /\ tid = (a + i)%nat.
Proof.
  revert a. induction u as [|j0 u IH]; intros a; simpl.
  - split; [intros [] | intros (i & Hi & _); discriminate].
  - rewrite IH. split.
    + intros [[= <- <-] | (i & Hi & ->)].
      * exists 0%nat. split; [reflexivity | lia].
      * exists (S i). split; [exact Hi | lia].
    + intros ([|i] & Hi & ->); simpl in Hi.
      * left. injection Hi as <-. f_equal. lia.
      * right. exists i. split; [exact Hi | lia].
Qed.

Section WithMath.
Context `{MathModule}.

(** The loop over the unmatched fruits, in closed form: the fruits outside
    [used_current], in the order of the frame, get the ids from [next_id]
    on. *)
Lemma spawn_closed_form (used : gset nat) (js : list nat) (A0 : list (nat * nat))
    (next0 : nat) :
  (forall k, In k (map fst A0) -> (k < next0)%nat) ->
  let u := List.filter (fun j => negb (bool_decide (j ∈ used))) js in
  fold_left
    (fun '(assigned, next_id) j =>
       if bool_decide (j ∈ used) then (assigned, next_id)
       else (dict_set next_id j assigned, S next_id))
    js (A0, next0) =
  (A0 ++ combine (seq next0 (length u)) u, (next0 + length u)%nat).
Proof.
  revert A0 next0. induction js as [|j0 js IH]; intros A0 next0 Hlt; simpl.
  - rewrite app_nil_r, Nat.add_0_r. reflexivity.
  - destruct (bool_decide (j0 ∈ used)); simpl.
    + apply IH. exact Hlt.
    + rewrite dict_set_fresh by (intros Hin; apply Hlt in Hin; lia).
      rewrite IH.
      * rewrite <- app_assoc. simpl. f_equal. lia.
      * intros k. rewrite map_app, in_app_iff. simpl.
        intros [Hin | [<- | []]]; [apply Hlt in Hin; lia | lia].
Qed.

(** X1.  In a well-formed table every detection of the frame is assigned
    to some id; the ids from the old [next_track_id] on go to detections
    that no track claims, they lie below the new [next_track_id], and they
    increase with the position of the detection in the frame, so that two
    such detections never share an id. *)
Theorem unmatched_detections_get_fresh_ids (t : tracker) (fruits : list detection) :
  well_formed t ->
  (forall j, (j < length fruits)%nat ->
     exists tid, In (tid, j) (fst (_assign_track_ids t fruits))) /\
  (forall tid j, In (tid, j) (fst (_assign_track_ids t fruits)) ->
     (next_track_id t <= tid)%nat ->
     (tid < snd (_assign_track_ids t fruits))%nat /\
     forall tid' h, In (tid', h) (fruit_history t) -> ~ claims fruits h j) /\
  (forall tid1 j1 tid2 j2,
     In (tid1, j1) (fst (_assign_track_ids t fruits)) ->
     In (tid2, j2) (fst (_assign_track_ids t fruits)) ->
     (next_track_id t <= tid1)%nat -> (next_track_id t <= tid2)%nat ->
     (j1 < j2)%nat -> (tid1 < tid2)%nat).
Proof.
  intros [Hnd Hfresh]. destruct t as [fh next maxlen]. simpl in *.
  unfold _assign_track_ids. simpl fruit_history. simpl next_track_id.
  assert (Hgen : forall (A0 : list (nat * nat)) (U : gset nat),
            (forall k, In k (map fst A0) -> (k < next)%nat) ->
            (forall j, (j < length fruits)%nat -> j ∈ U -> exists tid, In (tid, j) A0) ->
            let r := spawn_unmatched U (length fruits) (A0, next) in
            (forall j, (j < length fruits)%nat -> exists tid, In (tid, j) (fst r)) /\
            (forall tid j, In (tid, j) (fst r) -> (next <= tid)%nat ->
               (tid < snd r)%nat /\ j ∉ U) /\
            (forall tid1 j1 tid2 j2, In (tid1, j1) (fst r) -> In (tid2, j2) (fst r) ->
               (next <= tid1)%nat -> (next <= tid2)%nat ->
               (j1 < j2)%nat -> (tid1 < tid2)%nat)).
  { intros A0 U Hlt Hused r. subst r. unfold spawn_unmatched.
    rewrite (spawn_closed_form U _ A0 next Hlt). simpl fst. simpl snd.
    set (u := List.filter (fun j => negb (bool_decide (j ∈ U))) (seq 0 (length fruits))).
    assert (Hnew : forall tid j, In (tid, j) (A0 ++ combine (seq next (length u)) u) ->
              (next <= tid)%nat -> exists i, u !! i = Some j /\ tid = (next + i)%nat).
    { intros tid j Hin Hge. apply in_app_iff in Hin as [Hin | Hin].
      - exfalso. assert (tid < next)%nat; [|lia].
        apply Hlt. apply in_map_iff. exists (tid, j). auto.
      - apply combine_seq_In. exact Hin. }
    split; [|split].
    - intros j Hj. destruct (decide (j ∈ U)) as [Hin | Hnin].
      + destruct (Hused j Hj Hin) as [tid Htid]. exists tid.
        apply in_app_iff. left. exact Htid.
      + assert (Hu : In j u).
        { apply filter_In. split; [apply in_seq; lia|].
          rewrite bool_decide_eq_false_2 by exact Hnin. reflexivity. }
        apply list_elem_of_In, list_elem_of_lookup in Hu as [i Hi].
        exists (next + i)%nat. apply in_app_iff. right.
        apply combine_seq_In. eauto.
    - intros tid j Hin Hge. destruct (Hnew tid j Hin Hge) as (i & Hi & ->). split.
      + apply lookup_lt_Some in Hi. lia.
      + apply filter_seq_member in Hi as [_ Hp].
        apply negb_true_iff, bool_decide_eq_false in Hp. exact Hp.
    - intros tid1 j1 tid2 j2 Hin1 Hin2 Hge1 Hge2 Hlt12.
      destruct (Hnew tid1 j1 Hin1 Hge1) as (i1 & Hi1 & ->).
      destruct (Hnew tid2 j2 Hin2 Hge2) as (i2 & Hi2 & ->).
      destruct (Nat.lt_trichotomy i1 i2) as [Hless | [-> | Hmore]]; [lia | |].
      + rewrite Hi1 in Hi2. injection Hi2 as ->. lia.
      + pose proof (filter_seq_increasing _ _ _ _ _ _ _ Hi2 Hi1 Hmore). lia. }
  destruct fh as [|e existing].
  - rewrite (first_frame_spawn ∅) by reflexivity.
    destruct (Hgen [] ∅ ltac:(intros ? []) ltac:(intros ? ? Hin; set_solver))
      as (H1 & H2 & H3).
    split; [exact H1|]. split; [|exact H3].
    intros tid j Hin Hge. destruct (H2 tid j Hin Hge) as [Hlt _].
    split; [exact Hlt | intros ? ? []].
  - set (ex := e :: existing) in *.
    destruct fruits as [|f fruits'].
    + simpl. split; [intros j Hj; lia|]. split; [intros ? ? [] | intros ? ? ? ? []].
    + set (fs := f :: fruits') in *.
      destruct (match_tracks fs ex [] ∅) as [A U] eqn:Em.
      destruct (match_tracks_spec fs ex [] ∅ Hnd ltac:(intros ? ? []) A U Em)
        as (HA & HU & _ & HK).
      destruct (Hgen A U) as (H1 & H2 & H3).
      { intros k Hk. apply HK in Hk as [[] | Hk].
        apply in_map_iff in Hk as ([k' h'] & <- & Hk). apply (Hfresh _ _ Hk). }
      { intros j _ Hin. apply HU in Hin as [Hin | (tid & h & Hin & Hc)]; [set_solver|].
        exists tid. apply HA. right. eauto. }
      split; [exact H1|]. split; [|exact H3].
      intros tid j Hin Hge. destruct (H2 tid j Hin Hge) as [Hlt Hnu].
      split; [exact Hlt|]. intros tid' h Hin' Hc. apply Hnu.
      apply HU. right. eauto.
Qed.

(** The loop of [update] keeps a bound on the lengths of the histories. *)
Lemma update_loop_bounded (maxlen : nat) (now : Q) (fruits : list detection)
    (items : list (nat * nat)) :
  forall hs notes hs' notes',
  update_loop maxlen now fruits items hs notes = Some (hs', notes') ->
  (forall tid h, In (tid, h) hs -> (length h <= maxlen)%nat) ->
  forall tid h, In (tid, h) hs' -> (length h <= maxlen)%nat.
Proof.
  induction items as [|[tid0 j0] rest IH]; intros hs notes hs' notes'; simpl.
  - intros [= <- <-] Hb. exact Hb.
  - destruct (fruits !! j0) as [fruit0|]; cbn [mbind option_bind]; [|discriminate].
    cbv zeta.
    match goal with |- context [annotate tid0 ?h fruit0] =>
      destruct (annotate_total tid0 h fruit0) as (note0 & En & _) end.
    rewrite En. cbn [mbind option_bind].
    intros E Hb. apply (IH _ _ _ _ E).
    intros tid h Hin. apply dict_set_In_inv in Hin as [Hin | [= -> ->]].
    + apply (Hb _ _ Hin).
    + rewrite deque_append_length. lia.
Qed.

(** X2.  [update] keeps every history within [max_history] entries. *)
Theorem histories_stay_bounded (t t' : tracker) (fruits : list detection) (now : Q)
    (out : list (detection * annotation)) :
  (forall tid h, In (tid, h) (fruit_history t) -> (length h <= max_history t)%nat) ->
  update t fruits now = Some (t', out) ->
  max_history t' = max_history t /\
  forall tid h, In (tid, h) (fruit_history t') -> (length h <= max_history t')%nat.
Proof.
  intros Hb. unfold update.
  destruct (_assign_track_ids t fruits) as [assigned next_id].
  destruct (update_loop _ _ _ _ _ _) as [[hs' notes']|] eqn:E; simpl; [|discriminate].
  destruct (mapM _ assigned) as [out'|]; simpl; [|discriminate].
  intros [= <- <-]. simpl. split; [reflexivity|].
  intros tid h Hin. unfold _clean_old_tracks in Hin.
  apply dict_del_fold_In in Hin as [Hin _].
  apply (update_loop_bounded _ _ _ _ _ _ _ _ E Hb _ _ Hin).
Qed.

(** X3.  After [update] no track of the table is stale: the last sample of
    every history is at most one second older than the time of the
    call. *)
Theorem no_stale_track_after_update (t t' : tracker) (fruits : list detection)
    (now : Q) (out : list (detection * annotation)) :
  NoDup (map fst (fruit_history t)) ->
  update t fruits now = Some (t', out) ->
  forall tid h s, In (tid, h) (fruit_history t') -> last h = Some s ->
    now - sample_time s <= 1.
Proof.
  intros Hnd. pose proof (assign_indices_valid t fruits) as Hidx. unfold update.
  destruct (_assign_track_ids t fruits) as [assigned next_id]. simpl fst in Hidx.
  destruct (update_loop_spec (max_history t) now fruits assigned Hidx (fruit_history t) [])
    as (hs' & notes' & E & HN & _).
  rewrite E. simpl.
  destruct (mapM _ assigned) as [out'|]; simpl; [|discriminate].
  intros [= <- <-]. simpl. intros tid h s Hin Hlast.
  apply clean_old_tracks_In in Hin as [_ Hst]; [|apply HN; exact Hnd].
  unfold is_stale in Hst. rewrite Hlast in Hst. apply Qltb_ge in Hst. exact Hst.
Qed.

(** X4.  [update] never raises, whatever the table and the detections:
    every division of the trajectory estimate has a positive divisor and
    every index it uses is in range.  Each fruit it returns is a detection
    of the frame, under an id of the assignment. *)
Theorem update_never_raises (t : tracker) (fruits : list detection) (now : Q) :
  exists t' out,
    update t fruits now = Some (t', out) /\
    length out = length (fst (_assign_track_ids t fruits)) /\
    forall fruit note, In (fruit, note) out -> In fruit fruits.
Proof.
  destruct (update_total t fruits now) as [[t' out] E]. exists t', out.
  split; [exact E|]. revert E. unfold update.
  destruct (_assign_track_ids t fruits) as [assigned next_id]. simpl fst.
  destruct (update_loop _ _ _ _ _ _) as [[hs' notes']|]; simpl; [|discriminate].
  destruct (mapM _ assigned) as [out'|] eqn:Eout; simpl; [|discriminate].
  intros [= <- <-]. split.
  - symmetry. apply (length_mapM _ _ _ Eout).
  - intros fruit note Hin. apply mapM_Some_1 in Eout.
    apply list_elem_of_In, list_elem_of_lookup in Hin as [i Hi].
    destruct (Forall2_lookup_r _ _ _ _ _ Eout Hi) as ([tid j] & _ & Ey).
    simpl in Ey. destruct (fruits !! j) as [fruit'|] eqn:Ej; simpl in Ey; [|discriminate].
    destruct (dict_get j notes'); simpl in Ey; [|discriminate].
    injection Ey as <- <-. apply list_elem_of_In, list_elem_of_lookup. eauto.
Qed.

(** An assigned id below [next_track_id] is the id of a track. *)
Lemma assigned_old_id (t : tracker) (fruits : list detection) (tid j : nat) :
  well_formed t ->
  In (tid, j) (fst (_assign_track_ids t fruits)) ->
  (tid < next_track_id t)%nat ->
  In tid (map fst (fruit_history t)).
Proof.
  intros [Hnd Hfresh]. destruct t as [fh next maxlen]. simpl in *.
  unfold _assign_track_ids. simpl fruit_history. simpl next_track_id.
  destruct fh as [|e existing].
  - rewrite (first_frame_spawn ∅) by reflexivity.
    rewrite (spawn_closed_form ∅ _ [] next ltac:(intros ? [])). simpl.
    intros Hk Hlt. apply combine_seq_In in Hk as (i & _ & ->). lia.
  - set (ex := e :: existing) in *.
    destruct (match fruits with [] => _ | _ => _ end) as [A U] eqn:Em.
    assert (HK : forall k, In k (map fst A) -> In k (map fst ex)).
    { destruct fruits as [|f fruits'].
      - injection Em as <- <-. intros k [].
      - destruct (match_tracks_spec _ ex [] ∅ Hnd ltac:(intros ? ? []) A U Em)
          as (_ & _ & _ & HK).
        intros k Hin. apply HK in Hin as [[] | Hin]. exact Hin. }
    unfold spawn_unmatched. rewrite (spawn_closed_form U _ A next).
    + simpl. intros Hk Hlt. apply in_app_iff in Hk as [Hk | Hk].
      * apply HK. apply in_map_iff. exists (tid, j). auto.
      * apply combine_seq_In in Hk as (i & _ & ->). lia.
    + intros k Hin. apply HK in Hin.
      apply in_map_iff in Hin as ([k' h'] & <- & Hin). apply (Hfresh _ _ Hin).
Qed.

(** X5.  [update] keeps the table well formed, and ids are never reused:
    [next_track_id] does not decrease, and an id of the new table that was
    not in the old one is at least the old [next_track_id]. *)
Theorem ids_are_never_reused (t t' : tracker) (fruits : list detection) (now : Q)
    (out : list (detection * annotation)) :
  well_formed t ->
  update t fruits now = Some (t', out) ->
  well_formed t' /\
  (next_track_id t <= next_track_id t')%nat /\
  forall tid, In tid (map fst (fruit_history t')) ->
    In tid (map fst (fruit_history t)) \/ (next_track_id t <= tid)%nat.
Proof.
  intros Hwf E. destruct (update_well_formed t t' fruits now out Hwf E) as [Hwf' Hle].
  split; [exact Hwf'|]. split; [exact Hle|].
  intros tid Hin.
  destruct (Nat.le_gt_cases (next_track_id t) tid) as [Hge | Hlt]; [right; exact Hge|].
  left. revert E Hin. pose proof (assign_indices_valid t fruits) as Hidx.
  pose proof (assigned_old_id t fruits tid) as Hold.
  unfold update.
  destruct (_assign_track_ids t fruits) as [assigned next_id]. simpl fst in *.
  destruct (update_loop_spec (max_history t) now fruits assigned Hidx (fruit_history t) [])
    as (hs' & notes' & El & HN & HK & _).
  rewrite El. simpl.
  destruct (mapM _ assigned) as [out'|]; simpl; [|discriminate].
  intros [= <- <-]. simpl. intros Hin.
  apply in_map_iff in Hin as ([tid' h] & Etid & Hin). simpl in Etid. subst tid'.
  apply clean_old_tracks_In in Hin as [Hin _]; [|apply HN; apply Hwf].
  assert (Hk : In tid (map fst hs')) by (apply in_map_iff; exists (tid, h); auto).
  apply HK in Hk as [Hk | Hk]; [exact Hk|].
  apply in_map_iff in Hk as ([tid' j] & Etid & Hk). simpl in Etid. subst tid'.
  apply (Hold j Hwf Hk Hlt).
Qed.

End WithMath.

(** The phase tests, by the vertical velocity [vy] and the acceleration
    [ay] they are given. *)
Lemma classify_cases (vy ay : Q) :
  (classify vy ay = Ascending <-> vy < -5 /\ ay < 0) /\
  (classify vy ay = Hover <-> ~ (vy < -5 /\ ay < 0) /\ -15 < vy /\ vy < 15) /\
  (classify vy ay = Descending <-> 15 <= vy) /\
  (classify vy ay = Unknown <-> vy <= -15 /\ 0 <= ay).
Proof.
  unfold classify.
  destruct (Qltb vy (-5)) eqn:E1; [apply Qltb_lt in E1 | apply Qltb_ge in E1];
  destruct (Qltb ay 0) eqn:E2; [apply Qltb_lt in E2 | apply Qltb_ge in E2 | apply Qltb_lt in E2 | apply Qltb_ge in E2];
  simpl andb; cbv iota;
  (destruct (Qltb (Qabs vy) 15) eqn:E3;
   [apply Qltb_lt, Qabs_Qlt_condition in E3
   | apply Qltb_ge in E3;
     assert (E3' : vy <= -15 \/ 15 <= vy)
       by (destruct (Qlt_le_dec vy 0) as [Hn | Hp];
           [left; rewrite Qabs_neg in E3 by lra; lra
           | right; rewrite Qabs_pos in E3 by exact Hp; exact E3])]);
  try (destruct (Qltb 5 vy) eqn:E4; [apply Qltb_lt in E4 | apply Qltb_ge in E4]);
  repeat split; intros; try discriminate; try reflexivity; try lra;
  try (exfalso; lra); try (destruct E3'; lra);
  try (match goal with Hc : _ /\ _ |- _ => destruct Hc end; destruct E3'; lra).
Qed.

(** X6.  The phase [_calculate_trajectory_parameters] returns.  For a
    history of fewer than two samples, or whose last two samples are no
    time or a negative time apart, it is unknown, with zero velocity and
    acceleration.  Otherwise, with [vy = (y1 - y2) / dt] the vertical
    velocity and [ay] the acceleration returned (the difference of the last
    two vertical velocities over [dt] when a third sample lies a positive
    time before, -490 otherwise), it is ascending exactly when [vy < -5]
    and [ay < 0]; hover exactly when it is not ascending and
    [-15 < vy < 15]; descending exactly when [vy >= 15] (the test [vy > 5]
    comes after the hover test); unknown exactly when [vy <= -15] and
    [ay >= 0]. *)
Theorem phase_by_velocity (older : list sample) (t2 t1 : Q) (x2 y2 x1 y1 : Z) :
  let history := older ++ [(t2, x2, y2); (t1, x1, y1)] in
  let vy := inject_Z (y1 - y2) / (t1 - t2) in
  (forall short, (length short < 2)%nat ->
     _calculate_trajectory_parameters short = Some (Unknown, 0, 0, 0)) /\
  (t1 - t2 <= 0 -> _calculate_trajectory_parameters history = Some (Unknown, 0, 0, 0)) /\
  (0 < t1 - t2 ->
   exists ph vx ay,
     _calculate_trajectory_parameters history = Some (ph, vx, vy, ay) /\
     match last older with
     | Some (t3, _, y3) =>
         (0 < t2 - t3 -> ay == (vy - inject_Z (y2 - y3) / (t2 - t3)) / (t1 - t2)) /\
         (t2 - t3 <= 0 -> ay == - (490))
     | None => ay == - (490)
     end /\
     (ph = Ascending <-> vy < -5 /\ ay < 0) /\
     (ph = Hover <-> ~ (vy < -5 /\ ay < 0) /\ -15 < vy /\ vy < 15) /\
     (ph = Descending <-> 15 <= vy) /\
     (ph = Unknown <-> vy <= -15 /\ 0 <= ay)).
Proof.
  cbv zeta. split; [|split].
  - intros [|s1 [|s2 rest]] Hshort; [reflexivity| |simpl in Hshort; lia].
    unfold _calculate_trajectory_parameters. simpl. destruct s1 as [[t x] y]. reflexivity.
  - apply trajectory_parameters_early.
  - intros Hdt.
    destruct (trajectory_parameters_values older t2 t1 x2 y2 x1 y1 Hdt) as (ay & E & Hay).
    eexists _, _, ay. split; [exact E|]. split; [|apply classify_cases].
    destruct (last older) as [[[t3 x3] y3]|].
    + destruct Hay as [Hest Hassumed]. split.
      * intros Hprev. rewrite (Hest Hprev). reflexivity.
      * intros Hprev. rewrite (Hassumed Hprev). exact gravity_value.
    + rewrite Hay. exact gravity_value.
Qed.

End TrackerExtras.

(** ** More on the targeting engine *)

Module BotExtras.
Import RealBot BotFacts.

(** *** [adjust_swipe_for_bombs] *)

Lemma adjust_loop_monotone (fruit_x fruit_y : Z) (bombs : list detection) :
  forall s0 e0 s e, adjust_loop fruit_x fruit_y bombs s0 e0 = (s, e) ->
  (s0 <= s /\ e <= e0)%Z.
Proof.
  induction bombs as [|bomb rest IH]; intros s0 e0 s e; simpl.
  - intros [= <- <-]. lia.
  - destruct (center bomb) as [bomb_x bomb_y].
    destruct (Z.abs (fruit_y - bomb_y) <? 30)%Z; [|apply IH].
    destruct ((bomb_x <? fruit_x)%Z && (Z.abs (bomb_x - fruit_x) <? 80)%Z).
    { intros E. apply IH in E. lia. }
    destruct ((fruit_x <? bomb_x)%Z && (Z.abs (bomb_x - fruit_x) <? 80)%Z).
    { intros E. apply IH in E. lia. }
    apply IH.
Qed.

Lemma adjust_swipe_at_least_40 (b : bot) (fruit_x fruit_y : Z) (bombs : list detection) :
  (40 <= snd (adjust_swipe_for_bombs b fruit_x fruit_y bombs)
         - fst (adjust_swipe_for_bombs b fruit_x fruit_y bombs))%Z.
Proof.
  unfold adjust_swipe_for_bombs.
  destruct (adjust_loop _ _ _ _ _) as [s e].
  destruct (e - s <? 40)%Z eqn:Elen; simpl; [lia | apply Z.ltb_ge in Elen; lia].
Qed.

(** X7.  The swipe [adjust_swipe_for_bombs] returns is never shorter than
    40 pixels and never reaches further from the fruit than the larger of
    [swipe_length] and 40, whatever the bombs. *)
Theorem adjusted_swipe_length (b : bot) (fruit_x fruit_y : Z) (bombs : list detection) :
  let span := adjust_swipe_for_bombs b fruit_x fruit_y bombs in
  (40 <= snd span - fst span)%Z /\
  (fruit_x - Z.max (swipe_length b) 40 <= fst span)%Z /\
  (snd span <= fruit_x + Z.max (swipe_length b) 40)%Z.
Proof.
  unfold adjust_swipe_for_bombs.
  destruct (adjust_loop _ _ _ _ _) as [s e] eqn:E.
  apply adjust_loop_monotone in E.
  destruct (e - s <? 40)%Z eqn:Elen; simpl.
  - lia.
  - apply Z.ltb_ge in Elen. lia.
Qed.

Lemma swipe_safe_all (fruit : detection) (bombs : list detection) :
  is_swipe_safe fruit bombs = true ->
  forall bomb, In bomb bombs -> in_path_corridor fruit bomb = false.
Proof.
  induction bombs as [|bomb0 rest IH]; simpl; [intros _ ? []|].
  destruct (in_path_corridor fruit bomb0) eqn:E; [discriminate|].
  intros Hs bomb [<- | Hin]; [exact E | apply IH; assumption].
Qed.

Lemma adjust_loop_berth (fruit_x fruit_y : Z) (bombs : list detection) :
  (forall bomb, In bomb bombs ->
     in_path_corridor (Detection (fruit_x, fruit_y) None) bomb = false) ->
  forall s0 e0 s e, adjust_loop fruit_x fruit_y bombs s0 e0 = (s, e) ->
  (fruit_x - 60 <= s0 <= fruit_x - 45)%Z -> (fruit_x + 45 <= e0 <= fruit_x + 60)%Z ->
  (fruit_x - 60 <= s <= fruit_x - 45)%Z /\ (fruit_x + 45 <= e <= fruit_x + 60)%Z /\
  forall bomb, In bomb bombs ->
    (Z.abs (fruit_y - snd (center bomb)) < 30)%Z ->
    (fst (center bomb) + 20 <= s)%Z \/ (e + 20 <= fst (center bomb))%Z.
Proof.
  induction bombs as [|bomb rest IH]; intros Hsafe s0 e0 s e; simpl.
  - intros [= <- <-] Hs He. split; [exact Hs|]. split; [exact He|]. intros ? [].
  - pose proof (Hsafe bomb ltac:(left; reflexivity)) as Hb.
    unfold in_path_corridor in Hb. simpl in Hb.
    destruct (center bomb) as [bomb_x bomb_y] eqn:Ec. simpl in Hb.
    assert (Hrest : forall bomb', In bomb' rest ->
              in_path_corridor (Detection (fruit_x, fruit_y) None) bomb' = false)
      by (intros bomb' Hin; apply Hsafe; right; exact Hin).
    intros E Hs He.
    assert (Hfar : (Z.abs (fruit_y - bomb_y) < 30)%Z -> (70 <= Z.abs (fruit_x - bomb_x))%Z).
    { intros Hy. apply andb_false_iff in Hb as [Hb | Hb];
        [apply Z.ltb_ge in Hb; exact Hb | apply Z.ltb_ge in Hb; lia]. }
    destruct (Z.abs (fruit_y - bomb_y) <? 30)%Z eqn:Ey.
    + apply Z.ltb_lt in Ey. specialize (Hfar Ey).
      destruct ((bomb_x <? fruit_x)%Z && (Z.abs (bomb_x - fruit_x) <? 80)%Z) eqn:El.
      { apply andb_true_iff in El as [El1 El2].
        apply Z.ltb_lt in El1. apply Z.ltb_lt in El2.
        pose proof (adjust_loop_monotone _ _ _ _ _ _ _ E) as Hm.
        destruct (IH Hrest _ _ _ _ E ltac:(lia) He) as (Hs' & He' & Hall).
        split; [exact Hs'|]. split; [exact He'|].
        intros bomb' [<- | Hin] Hy; [rewrite Ec; simpl; lia | apply Hall; assumption]. }
      destruct ((fruit_x <? bomb_x)%Z && (Z.abs (bomb_x - fruit_x) <? 80)%Z) eqn:Er.
      { apply andb_true_iff in Er as [Er1 Er2].
        apply Z.ltb_lt in Er1. apply Z.ltb_lt in Er2.
        pose proof (adjust_loop_monotone _ _ _ _ _ _ _ E) as Hm.
        destruct (IH Hrest _ _ _ _ E Hs ltac:(lia)) as (Hs' & He' & Hall).
        split; [exact Hs'|]. split; [exact He'|].
        intros bomb' [<- | Hin] Hy; [rewrite Ec; simpl; lia | apply Hall; assumption]. }
      destruct (IH Hrest _ _ _ _ E Hs He) as (Hs' & He' & Hall).
      split; [exact Hs'|]. split; [exact He'|].
      intros bomb' [<- | Hin] Hy; [|apply Hall; assumption].
      rewrite Ec. simpl.
      apply andb_false_iff in El. apply andb_false_iff in Er.
      rewrite !Z.ltb_ge in El, Er. lia.
    + apply Z.ltb_ge in Ey.
      destruct (IH Hrest _ _ _ _ E Hs He) as (Hs' & He' & Hall).
      split; [exact Hs'|]. split; [exact He'|].
      intros bomb' [<- | Hin] Hy; [rewrite Ec in Hy; simpl in Hy; lia | apply Hall; assumption].
Qed.

(** X8.  For a fruit that passes [is_swipe_safe], with the swipe length of
    60 of the bot, [adjust_swipe_for_bombs] never falls back to the short
    swipe: the swipe starts 45 to 60 pixels left of the fruit, ends 45 to
    60 pixels right of it, and every bomb within 30 pixels of its height
    is at least 20 pixels outside it. *)
Theorem safe_target_swipe_berth (b : bot) (fruit : detection) (bombs : list detection) :
  swipe_length b = 60%Z ->
  is_swipe_safe fruit bombs = true ->
  let fruit_x := fst (center fruit) in
  let fruit_y := snd (center fruit) in
  let span := adjust_swipe_for_bombs b fruit_x fruit_y bombs in
  (fruit_x - 60 <= fst span <= fruit_x - 45)%Z /\
  (fruit_x + 45 <= snd span <= fruit_x + 60)%Z /\
  forall bomb, In bomb bombs ->
    (Z.abs (fruit_y - snd (center bomb)) < 30)%Z ->
    (fst (center bomb) + 20 <= fst span)%Z \/ (snd span + 20 <= fst (center bomb))%Z.
Proof.
  intros Hlen Hsafe. cbv zeta. unfold adjust_swipe_for_bombs. rewrite Hlen.
  destruct (adjust_loop _ _ _ _ _) as [s e] eqn:E.
  assert (Hall : forall bomb, In bomb bombs ->
            in_path_corridor (Detection (fst (center fruit), snd (center fruit)) None) bomb
            = false).
  { intros bomb Hin. apply (swipe_safe_all fruit bombs Hsafe bomb Hin). }
  destruct (adjust_loop_berth _ _ _ Hall _ _ _ _ E ltac:(lia) ltac:(lia))
    as (Hs & He & Hb).
  destruct (e - s <? 40)%Z eqn:Elen; [apply Z.ltb_lt in Elen; lia|].
  simpl. auto.
Qed.

(** *** The fingerprint table *)

(** X9.  What [track_pomegranate_candidate] leaves in the table.  The
    fingerprint of the swiped fruit is entered at the current time with a
    count of 1 if it was absent; if it was present its count goes up by
    one and its first time stays, unless that time is more than 2 seconds
    back, in which case the entry is removed.  Any other entry is kept as
    it is unless it is more than 2 seconds old. *)
Theorem candidate_table_after_swipe (b : bot) (fruit : detection) (now : Q) :
  let table := potential_pomegranates b in
  let table' := potential_pomegranates (track_pomegranate_candidate b fruit now) in
  (table !! center fruit = None -> table' !! center fruit = Some (now, 1%Z)) /\
  (forall first_seen count, table !! center fruit = Some (first_seen, count) ->
     table' !! center fruit =
     if Qltb 2 (now - first_seen) then None else Some (first_seen, (count + 1)%Z)) /\
  (forall k, k <> center fruit ->
     table' !! k =
     match table !! k with
     | Some entry => if is_old now entry then None else Some entry
     | None => None
     end).
Proof.
  cbv zeta. unfold track_pomegranate_candidate. simpl potential_pomegranates.
  set (updated := match potential_pomegranates b !! center fruit with
                  | Some (first_seen, slice_count) => _
                  | None => _ end).
  assert (Hlook : forall k,
            fold_left (fun m fid => delete fid m)
              (map fst (List.filter (fun kv => is_old now (snd kv)) (map_to_list updated)))
              updated !! k =
            match updated !! k with
            | Some entry => if is_old now entry then None else Some entry
            | None => None
            end).
  { intros k. rewrite fold_delete_lookup. destruct (updated !! k) as [entry|] eqn:Ek.
    - destruct (is_old now entry) eqn:Eold.
      + rewrite decide_True; [reflexivity|].
        apply list_elem_of_In, in_map_iff. exists (k, entry). split; [reflexivity|].
        apply filter_In. split; [|exact Eold].
        apply list_elem_of_In, elem_of_map_to_list. exact Ek.
      + rewrite decide_False; [reflexivity|].
        intros Hin. apply list_elem_of_In, in_map_iff in Hin as ([k' entry'] & Ek' & Hin).
        simpl in Ek'. subst k'. apply filter_In in Hin as [Hin Hold]. simpl in Hold.
        apply list_elem_of_In, elem_of_map_to_list in Hin. congruence.
    - destruct (decide _); reflexivity. }
  split; [|split].
  - intros Hnone. rewrite Hlook. subst updated. rewrite Hnone, lookup_insert_eq.
    unfold is_old. simpl.
    destruct (Qltb 2 (now - now)) eqn:E; [|reflexivity].
    apply Qltb_lt in E. lra.
  - intros first_seen count Hsome. rewrite Hlook. subst updated.
    rewrite Hsome, lookup_insert_eq. reflexivity.
  - intros k Hne. rewrite Hlook. subst updated.
    destruct (potential_pomegranates b !! center fruit) as [[first_seen count]|];
      rewrite lookup_insert_ne by congruence; reflexivity.
Qed.

Lemma pomegranate_loop_flag (b : bot) (now : Q) (fruits : list detection) :
  snd (pomegranate_loop b now fruits) = rapid_mode (fst (pomegranate_loop b now fruits)).
Proof.
  rewrite pomegranate_loop_spec.
  destruct (existsb (persisting_fruit b now) fruits); simpl; [|reflexivity].
  destruct (rapid_mode b) eqn:E; simpl; congruence.
Qed.

Lemma check_flag (b : bot) (fruits : list detection) (now : Q) :
  snd (check_pomegranate_behavior b fruits now)
  = rapid_mode (fst (check_pomegranate_behavior b fruits now)).
Proof. unfold check_pomegranate_behavior. apply pomegranate_loop_flag. Qed.

Lemma pomegranate_loop_counters (b : bot) (now : Q) (fruits : list detection) :
  let b' := fst (pomegranate_loop b now fruits) in
  total_swipes b' = total_swipes b /\ total_fruits_cut b' = total_fruits_cut b /\
  swipe_duration b' = swipe_duration b /\ swipe_length b' = swipe_length b.
Proof.
  cbv zeta. rewrite pomegranate_loop_spec.
  destruct (existsb (persisting_fruit b now) fruits); simpl; [|auto].
  destruct (rapid_mode b); simpl; auto.
Qed.

Lemma check_counters (b : bot) (fruits : list detection) (now : Q) :
  let b' := fst (check_pomegranate_behavior b fruits now) in
  total_swipes b' = total_swipes b /\ total_fruits_cut b' = total_fruits_cut b /\
  swipe_duration b' = swipe_duration b /\ swipe_length b' = swipe_length b.
Proof.
  unfold check_pomegranate_behavior.
  destruct (rapid_mode b && Qltb (rapid_mode_end_time b) now).
  - exact (pomegranate_loop_counters (set_rapid b false (rapid_mode_end_time b)) now fruits).
  - apply pomegranate_loop_counters.
Qed.

Section WithMath.
Context `{MathModule}.

(** X10.  With the mode off, a frame switches it on exactly when one of
    its fruits has a fingerprint that persists (first seen more than a
    second ago, count at least 2); the expiry is then three seconds after
    the frame, and otherwise stays as it was. *)
Theorem rapid_mode_activation (b : bot) (f : frame) :
  rapid_mode b = false ->
  let b' := fst (decide_frame b f) in
  rapid_mode b' = existsb (persisting_fruit b (current_time f)) (targeted_fruits f) /\
  rapid_mode_end_time b' =
  if existsb (persisting_fruit b (current_time f)) (targeted_fruits f)
  then current_time f + 3 else rapid_mode_end_time b.
Proof.
  intros Hr. cbv zeta.
  destruct (decide_frame_cases b f) as (_ & -> & -> & _).
  unfold check_pomegranate_behavior. rewrite Hr. simpl andb. cbv iota.
  rewrite pomegranate_loop_spec, Hr.
  destruct (existsb (persisting_fruit b (current_time f)) (targeted_fruits f)); simpl;
    rewrite ?Hr; auto.
Qed.

(** *** [find_best_swipe_target] *)

Lemma best_loop_step (fruit : detection) (rest bombs : list detection)
    (best_target : option detection) (best_score : Q) :
  best_loop (fruit :: rest) bombs best_target best_score =
  if eligible fruit bombs && Qltb best_score (total_score fruit bombs)
  then best_loop rest bombs (Some fruit) (total_score fruit bombs)
  else best_loop rest bombs best_target best_score.
Proof.
  simpl. unfold eligible, total_score, height_percentage.
  destruct (Qle_bool (4 # 10) _ && Qle_bool _ (7 # 10)); simpl; [|reflexivity].
  destruct (Qltb (calculate_safety_score fruit bombs) (6 # 10)); simpl; [reflexivity|].
  destruct (is_swipe_safe fruit bombs); simpl; reflexivity.
Qed.

Lemma best_loop_spec (fruits bombs : list detection) :
  forall best_target best_score,
  (best_loop fruits bombs best_target best_score = (best_target, best_score) /\
   forall other, In other fruits -> eligible other bombs = true ->
     total_score other bombs <= best_score) \/
  (exists fruit before after,
     fruits = before ++ fruit :: after /\
     eligible fruit bombs = true /\
     best_score < total_score fruit bombs /\
     best_loop fruits bombs best_target best_score
       = (Some fruit, total_score fruit bombs) /\
     (forall other, In other before -> eligible other bombs = true ->
        total_score other bombs < total_score fruit bombs) /\
     (forall other, In other after -> eligible other bombs = true ->
        total_score other bombs <= total_score fruit bombs)).
Proof.
  induction fruits as [|fruit rest IH]; intros bt bs.
  - left. split; [reflexivity | intros ? []].
  - rewrite best_loop_step.
    destruct (eligible fruit bombs) eqn:El; simpl andb.
    + destruct (Qltb bs (total_score fruit bombs)) eqn:Es.
      * apply Qltb_lt in Es. right.
        destruct (IH (Some fruit) (total_score fruit bombs))
          as [[E Hall] | (f' & l1 & l2 & -> & El' & Hlt & E & Hb & Ha)].
        -- exists fruit, [], rest. repeat split; auto. intros ? [].
        -- exists f', (fruit :: l1), l2. repeat split; auto; [lra|].
           intros other [<- | Hin] Ho; [exact Hlt | apply Hb; assumption].
      * apply Qltb_ge in Es.
        destruct (IH bt bs) as [[E Hall] | (f' & l1 & l2 & -> & El' & Hlt & E & Hb & Ha)].
        -- left. split; [exact E|].
           intros other [<- | Hin] Ho; [exact Es | apply Hall; assumption].
        -- right. exists f', (fruit :: l1), l2. repeat split; auto.
           intros other [<- | Hin] Ho; [lra | apply Hb; assumption].
    + destruct (IH bt bs) as [[E Hall] | (f' & l1 & l2 & -> & El' & Hlt & E & Hb & Ha)].
      * left. split; [exact E|].
        intros other [<- | Hin] Ho; [congruence | apply Hall; assumption].
      * right. exists f', (fruit :: l1), l2. repeat split; auto.
        intros other [<- | Hin] Ho; [congruence | apply Hb; assumption].
Qed.

Lemma find_best_some (b : bot) (fruits bombs : list detection) (now : Q)
    (fruit : detection) (score : Q) :
  find_best_swipe_target b fruits bombs now = (Some fruit, score) ->
  cooldown b <= now - last_swipe_time b /\
  eligible fruit bombs = true /\
  score = total_score fruit bombs /\
  exists before after, fruits = before ++ fruit :: after /\
    (forall other, In other before -> eligible other bombs = true ->
       total_score other bombs < score) /\
    (forall other, In other after -> eligible other bombs = true ->
       total_score other bombs <= score).
Proof.
  unfold find_best_swipe_target. destruct fruits as [|fruit0 rest]; [discriminate|].
  destruct (Qltb (now - last_swipe_time b) (cooldown b)) eqn:Ec; [discriminate|].
  apply Qltb_ge in Ec.
  destruct (best_loop_spec (fruit0 :: rest) bombs None (-1))
    as [[E Hall] | (f' & l1 & l2 & Efr & El & Hlt & E & Hb & Ha)]; rewrite E;
    [discriminate|].
  intros [= <- <-].
  split; [exact Ec|]. split; [exact El|]. split; [reflexivity|].
  exists l1, l2. auto.
Qed.

(** X11.  When [find_best_swipe_target] returns a fruit, the cooldown has
    passed, the fruit is a fruit of the frame that passes the three tests
    (height between 40% and 70%, safety score at least 0.6, clear path),
    the score returned is its score, every tested fruit before it in the
    frame scores less and every one after it scores no more.  When it
    returns no fruit, either the score is 0 and the list is empty or the
    cooldown has not passed, or the score is -1 and no fruit passing the
    tests scores more than -1. *)
Theorem best_target_is_best (b : bot) (fruits bombs : list detection) (now : Q) :
  (forall fruit score,
     find_best_swipe_target b fruits bombs now = (Some fruit, score) ->
     cooldown b <= now - last_swipe_time b /\
     eligible fruit bombs = true /\
     score = total_score fruit bombs /\
     exists before after, fruits = before ++ fruit :: after /\
       (forall other, In other before -> eligible other bombs = true ->
          total_score other bombs < score) /\
       (forall other, In other after -> eligible other bombs = true ->
          total_score other bombs <= score)) /\
  (forall score,
     find_best_swipe_target b fruits bombs now = (None, score) ->
     (score = 0 /\ (fruits = [] \/ now - last_swipe_time b < cooldown b)) \/
     (score = -1 /\
      forall other, In other fruits -> eligible other bombs = true ->
        total_score other bombs <= -1)).
Proof.
  split; [intros fruit score; apply find_best_some|].
  unfold find_best_swipe_target. destruct fruits as [|fruit0 rest].
  { intros score [= <-]. left. auto. }
  destruct (Qltb (now - last_swipe_time b) (cooldown b)) eqn:Ec.
  { apply Qltb_lt in Ec. intros score [= <-]. left. auto. }
  destruct (best_loop_spec (fruit0 :: rest) bombs None (-1))
    as [[E Hall] | (f' & l1 & l2 & Efr & El & Hlt & E & Hb & Ha)]; rewrite E.
  - intros score [= <-]. right. auto.
  - discriminate.
Qed.

(** *** The frame *)

Lemma execute_swipe_shape (b : bot) (fruit : detection) (bombs : list detection)
    (now : Q) (is_rapid_mode : bool) :
  let y := (region_top + Z.max 0 (Z.min (snd (center fruit)) frame_height))%Z in
  exists start_x end_x,
    snd (execute_swipe b fruit bombs now is_rapid_mode) =
      Swipe start_x y end_x y (swipe_duration b * (if is_rapid_mode then 8 # 10 else 1)) /\
    (region_left <= start_x <= end_x)%Z /\ (end_x <= region_right)%Z /\
    (region_top <= y <= region_bottom)%Z /\
    total_swipes (fst (execute_swipe b fruit bombs now is_rapid_mode))
      = (total_swipes b + 1)%Z /\
    total_fruits_cut (fst (execute_swipe b fruit bombs now is_rapid_mode))
      = total_fruits_cut b /\
    frame_counter (fst (execute_swipe b fruit bombs now is_rapid_mode))
      = frame_counter b.
Proof.
  cbv zeta. unfold execute_swipe. destruct (center fruit) as [fruit_x fruit_y] eqn:Ec.
  pose proof (adjust_swipe_at_least_40 b fruit_x fruit_y bombs) as Hlen.
  destruct (adjust_swipe_for_bombs b fruit_x fruit_y bombs) as [s e]. simpl in Hlen.
  simpl. eexists _, _. split; [reflexivity|].
  unfold frame_width, frame_height, region_left, region_right, region_top, region_bottom.
  simpl. repeat split; lia.
Qed.

Lemma decide_frame_shape (b : bot) (f : frame) :
  let chk := check_pomegranate_behavior b (targeted_fruits f) (current_time f) in
  let b' := fst (decide_frame b f) in
  (snd (decide_frame b f) = NoAction /\
   total_swipes b' = total_swipes b /\ total_fruits_cut b' = total_fruits_cut b) \/
  (exists fruit score,
     find_best_swipe_target (fst chk) (targeted_fruits f) (bombs f) (current_time f)
       = (Some fruit, score) /\
     5 # 10 < score /\
     snd (decide_frame b f)
       = snd (execute_swipe (fst chk) fruit (bombs f) (current_time f) (snd chk)) /\
     total_swipes b' = (total_swipes b + 1)%Z /\
     total_fruits_cut b' = (total_fruits_cut b + 1)%Z).
Proof.
  cbv zeta.
  pose proof (check_counters b (targeted_fruits f) (current_time f)) as (Hsw & Hcut & _).
  unfold decide_frame.
  destruct (check_pomegranate_behavior b (targeted_fruits f) (current_time f))
    as [b1 is_rapid]. simpl fst in *. simpl snd.
  destruct ((length (targeted_fruits f) =? 0)%nat && (frame_counter b1 mod 100 =? 0)%Z
            && game_over f).
  { left. simpl. auto. }
  destruct (find_best_swipe_target b1 (targeted_fruits f) (bombs f) (current_time f))
    as [[fruit|] score] eqn:Ef.
  2:{ left. simpl. auto. }
  destruct (Qltb (5 # 10) score) eqn:Es.
  2:{ left. simpl. auto. }
  apply Qltb_lt in Es. right. exists fruit, score. split; [reflexivity|]. split; [exact Es|].
  destruct (execute_swipe_shape b1 fruit (bombs f) (current_time f) is_rapid)
    as (sx & ex & Eact & _ & _ & _ & Esw & Ecut & _).
  destruct (execute_swipe b1 fruit (bombs f) (current_time f) is_rapid) as [b2 act].
  simpl in *. repeat split; congruence.
Qed.

(** X12.  A swipe emitted by a frame is horizontal, runs from left to
    right inside the capture region, and lasts [swipe_duration], or 0.8
    times that when the frame leaves the rapid mode on. *)
Theorem emitted_swipe_geometry (b : bot) (f : frame) :
  is_swipe (snd (decide_frame b f)) = true ->
  exists start_x end_x y,
    snd (decide_frame b f) =
      Swipe start_x y end_x y
        (swipe_duration b *
         (if rapid_mode (fst (decide_frame b f)) then 8 # 10 else 1)) /\
    (region_left <= start_x <= end_x)%Z /\ (end_x <= region_right)%Z /\
    (region_top <= y <= region_bottom)%Z.
Proof.
  intros Hsw.
  destruct (decide_frame_cases b f) as (_ & Hrapid & _).
  pose proof (check_counters b (targeted_fruits f) (current_time f)) as (_ & _ & Hdur & _).
  pose proof (check_flag b (targeted_fruits f) (current_time f)) as Hflag.
  destruct (decide_frame_shape b f) as [(Hno & _) | (fruit & score & _ & _ & Eact & _)].
  { rewrite Hno in Hsw. discriminate. }
  destruct (execute_swipe_shape
              (fst (check_pomegranate_behavior b (targeted_fruits f) (current_time f)))
              fruit (bombs f) (current_time f)
              (snd (check_pomegranate_behavior b (targeted_fruits f) (current_time f))))
    as (sx & ex & Eshape & Hx & Hx' & Hy & _).
  exists sx, ex, (region_top + Z.max 0 (Z.min (snd (center fruit)) frame_height))%Z.
  split; [|auto]. rewrite Eact, Eshape, Hdur, Hflag, Hrapid. reflexivity.
Qed.

(** X13.  A frame emits a swipe only at a fruit of the frame that passes
    the three tests of [find_best_swipe_target] and scores more than 0.5,
    no tested fruit of the frame scoring more; the swipe is at the height
    of that fruit, clamped to the frame.  In particular no swipe is
    emitted at a fruit with a bomb in its path corridor. *)
Theorem swipe_only_at_best_target (b : bot) (f : frame) :
  is_swipe (snd (decide_frame b f)) = true ->
  exists fruit start_x end_x duration,
    In fruit (targeted_fruits f) /\
    eligible fruit (bombs f) = true /\
    is_swipe_safe fruit (bombs f) = true /\
    5 # 10 < total_score fruit (bombs f) /\
    (forall other, In other (targeted_fruits f) -> eligible other (bombs f) = true ->
       total_score other (bombs f) <= total_score fruit (bombs f)) /\
    let y := (region_top + Z.max 0 (Z.min (snd (center fruit)) frame_height))%Z in
    snd (decide_frame b f) = Swipe start_x y end_x y duration.
Proof.
  intros Hsw.
  destruct (decide_frame_shape b f) as [(Hno & _) | (fruit & score & Ef & Hs & Eact & _)].
  { rewrite Hno in Hsw. discriminate. }
  apply find_best_some in Ef as (_ & El & -> & l1 & l2 & Efr & Hb & Ha).
  destruct (execute_swipe_shape
              (fst (check_pomegranate_behavior b (targeted_fruits f) (current_time f)))
              fruit (bombs f) (current_time f)
              (snd (check_pomegranate_behavior b (targeted_fruits f) (current_time f))))
    as (sx & ex & Eshape & _).
  eexists fruit, sx, ex, _.
  split; [rewrite Efr; apply in_app_iff; right; left; reflexivity|].
  split; [exact El|]. split.
  { unfold eligible in El. apply andb_true_iff in El as [_ El]. exact El. }
  split; [exact Hs|]. split.
  - intros other Hin Ho. rewrite Efr in Hin.
    apply in_app_iff in Hin as [Hin | [<- | Hin]].
    + apply Qlt_le_weak. apply Hb; assumption.
    + lra.
    + apply Ha; assumption.
  - cbv zeta. rewrite Eact. exact Eshape.
Qed.

(** X14.  Over a run, [total_swipes] and [total_fruits_cut] both grow by
    the number of swipes emitted. *)
Theorem counters_count_swipes (frames : list frame) (b : bot) :
  total_swipes (fst (run b frames))
    = (total_swipes b + swipe_count (snd (run b frames)))%Z /\
  total_fruits_cut (fst (run b frames))
    = (total_fruits_cut b + swipe_count (snd (run b frames)))%Z.
Proof.
  revert b. induction frames as [|f rest IH]; intros b; simpl.
  - unfold swipe_count. simpl. lia.
  - pose proof (decide_frame_shape b f) as Hshape. cbv zeta in Hshape.
    destruct (decide_frame b f) as [b1 act]. simpl in Hshape.
    specialize (IH b1). destruct (run b1 rest) as [b2 trace]. simpl in *.
    unfold swipe_count in *. simpl.
    destruct Hshape as [(-> & Hsw & Hcut) | (fruit & score & _ & _ & Eact & Hsw & Hcut)].
    + simpl. lia.
    + destruct (execute_swipe_shape
                  (fst (check_pomegranate_behavior b (targeted_fruits f) (current_time f)))
                  fruit (bombs f) (current_time f)
                  (snd (check_pomegranate_behavior b (targeted_fruits f) (current_time f))))
        as (sx & ex & Eshape & _).
      rewrite Eact, Eshape. simpl. lia.
Qed.

(** *** The safety score *)

Lemma safety_loop_range (fruit : detection) (bombs : list detection) :
  forall min_safety, min_safety <= 1 ->
  safety_loop fruit bombs min_safety <= 1 /\
  ((forall q, 0 <= sqrt q) -> 0 <= min_safety ->
   0 <= safety_loop fruit bombs min_safety).
Proof.
  induction bombs as [|bomb rest IH]; intros m Hm; simpl.
  - auto.
  - destruct (in_score_corridor fruit bomb);
      [split; [discriminate | intros _ _; apply Qle_refl]|].
    pose proof (py_min_l m (distance_safety fruit bomb)).
    assert (Hm' : py_min m (distance_safety fruit bomb) <= 1) by lra.
    destruct (IH (py_min m (distance_safety fruit bomb)) Hm') as [Hup Hlow].
    split; [exact Hup|]. intros Hsqrt Hm0. apply Hlow; [exact Hsqrt|].
    destruct (py_min_cases m (distance_safety fruit bomb)) as [-> | ->]; [exact Hm0|].
    unfold distance_safety. destruct (center fruit), (center bomb).
    match goal with |- 0 <= py_min 1 ?x =>
      destruct (py_min_cases 1 x) as [-> | ->]; [lra|] end.
    apply Qle_shift_div_l; [reflexivity|]. rewrite Qmult_0_l. apply Hsqrt.
Qed.

(** X15.  The safety score never exceeds 1, and is never negative when
    the square root is not. *)
Theorem safety_score_range (fruit : detection) (bombs : list detection) :
  calculate_safety_score fruit bombs <= 1 /\
  ((forall q, 0 <= sqrt q) -> 0 <= calculate_safety_score fruit bombs).
Proof.
  unfold calculate_safety_score. destruct bombs as [|bomb rest].
  - split; [apply Qle_refl | intros _; discriminate].
  - destruct (safety_loop_range fruit (bomb :: rest) 1 (Qle_refl 1)) as [Hup Hlow].
    split; [exact Hup|]. intros Hsqrt. apply Hlow; [exact Hsqrt | lra].
Qed.

End WithMath.

End BotExtras.

(** ** The loop of [run] with the tracker in it *)

Module PipelineFacts.
Import FruitTracker RealBot Pipeline TrackerFacts BotFacts.

(** [sum] of positive durations is positive. *)
Lemma sum_positive (xs : list Q) :
  (forall x, In x xs -> 0 < x) ->
  forall a, 0 < a -> 0 < fold_left Qplus xs a.
Proof.
  induction xs as [|x xs IH]; intros Hpos a Ha; simpl; [exact Ha|].
  apply IH; [intros y Hy; apply Hpos; right; exact Hy|].
  specialize (Hpos x ltac:(left; reflexivity)). lra.
Qed.

(** With positive durations only, the monitoring never divides by zero. *)
Lemma monitor_positive (frame_times : list Q) (frame_time : Q) :
  (forall x, In x frame_times -> 0 < x) -> 0 < frame_time ->
  exists frame_times' fps,
    monitor frame_times frame_time = Some (frame_times', fps) /\
    forall x, In x frame_times' -> 0 < x.
Proof.
  intros Hpos Hft. unfold monitor. cbv zeta.
  set (kept := if (30 <? length (frame_times ++ [frame_time]))%nat
               then tail (frame_times ++ [frame_time]) else frame_times ++ [frame_time]).
  assert (Hall : forall x, In x (frame_times ++ [frame_time]) -> 0 < x).
  { intros x Hx. apply in_app_iff in Hx as [Hx | [<- | []]]; auto. }
  assert (Hkept : forall x, In x kept -> 0 < x).
  { intros x Hx. apply Hall. subst kept.
    destruct (30 <? length (frame_times ++ [frame_time]))%nat; [|exact Hx].
    destruct (frame_times ++ [frame_time]); [destruct Hx | right; exact Hx]. }
  clearbody kept. destruct kept as [|x0 rest]; [eauto|].
  assert (Hsum : 0 < fold_left Qplus (x0 :: rest) 0).
  { simpl. apply sum_positive.
    - intros y Hy. apply Hkept. right. exact Hy.
    - specialize (Hkept x0 ltac:(left; reflexivity)). lra. }
  assert (Hlen : 0 < inject_Z (Z.of_nat (length (x0 :: rest)))).
  { change 0 with (inject_Z 0). rewrite <- Zlt_Qlt. simpl length. lia. }
  rewrite (py_div_pos _ _ Hlen). cbn [mbind option_bind].
  rewrite py_div_pos; [cbn [mbind option_bind]; eauto|].
  apply Qlt_shift_div_l; [exact Hlen|]. lra.
Qed.

Section WithMath.
Context `{MathModule}.

Lemma run_times (frames : list frame) :
  forall b, map fst (snd (run b frames)) = map current_time frames.
Proof.
  induction frames as [|f rest IH]; intros b; simpl; [reflexivity|].
  destruct (decide_frame b f) as [b1 act]. specialize (IH b1).
  destruct (run b1 rest) as [b2 trace]. simpl in *. rewrite IH. reflexivity.
Qed.

Lemma run_swipes_inside (frames : list frame) :
  forall b time start_x start_y end_x end_y duration,
  In (time, Swipe start_x start_y end_x end_y duration) (snd (run b frames)) ->
  start_y = end_y /\
  (region_left <= start_x <= end_x)%Z /\ (end_x <= region_right)%Z /\
  (region_top <= start_y <= region_bottom)%Z.
Proof.
  induction frames as [|f rest IH]; intros b time sx sy ex ey d; simpl; [intros []|].
  pose proof (BotExtras.decide_frame_shape b f) as Hshape. cbv zeta in Hshape.
  destruct (decide_frame b f) as [b1 act]. specialize (IH b1).
  destruct (run b1 rest) as [b2 trace]. simpl in *.
  intros [[= _ ->] | Hin]; [|eapply IH; exact Hin].
  destruct Hshape as [([=] & _) | (fruit & score & _ & _ & Eact & _)].
  destruct (BotExtras.execute_swipe_shape
              (fst (check_pomegranate_behavior b (targeted_fruits f) (current_time f)))
              fruit (bombs f) (current_time f)
              (snd (check_pomegranate_behavior b (targeted_fruits f) (current_time f))))
    as (sx' & ex' & Eshape & Hx & Hx' & Hy & _).
  rewrite Eshape in Eact. injection Eact as -> -> -> -> _. auto.
Qed.

(** While every turn measures a positive duration, the loop is [run] on
    the frames that the tracker makes of the captures. *)
Lemma loop_is_run (cs : list capture) :
  forall t b frame_times,
  (forall x, In x frame_times -> 0 < x) ->
  (forall c, In c cs -> 0 < turn_time c) ->
  exists t' frame_times' frames,
    loop (t, b, frame_times) cs
      = Some ((t', fst (run b frames), frame_times'), snd (run b frames)) /\
    map current_time frames = map loop_time cs.
Proof.
  induction cs as [|c rest IH]; intros t b frame_times Hpos Hturns.
  - exists t, frame_times, []. split; reflexivity.
  - simpl. unfold loop_body.
    destruct (update_total t (seen_fruits c) (tracker_time c)) as [[t1 out] ->].
    cbn [mbind option_bind]. cbv zeta.
    set (f := Frame (map targeted out) (seen_bombs c) (loop_time c) (seen_game_over c)).
    destruct (decide_frame b f) as [b1 act] eqn:Ed.
    assert (Hnext : exists frame_times1,
              (if pauses b f then Some (t1, b1, frame_times, act)
               else '(frame_times', _) ← monitor frame_times (turn_time c);
                    Some (t1, b1, frame_times', act))
              = Some (t1, b1, frame_times1, act) /\
              forall x, In x frame_times1 -> 0 < x).
    { destruct (pauses b f); [eauto|].
      destruct (monitor_positive frame_times (turn_time c) Hpos
                  (Hturns c ltac:(left; reflexivity)))
        as (frame_times1 & fps & -> & Hpos1).
      cbn [mbind option_bind]. eauto. }
    destruct Hnext as (frame_times1 & -> & Hpos1). cbn [mbind option_bind].
    destruct (IH t1 b1 frame_times1 Hpos1
                ltac:(intros c' Hc'; apply Hturns; right; exact Hc'))
      as (t' & frame_times' & frames & -> & Etimes).
    cbn [mbind option_bind].
    exists t', frame_times', (f :: frames). simpl. rewrite Ed.
    destruct (run b1 frames) as [b2 trace]. simpl.
    split; [reflexivity|]. rewrite Etimes. reflexivity.
Qed.

(** X16.  The loop of [run], from the tracker to the performance
    monitoring, raises only at the division that computes [fps].  While
    every turn measures a positive duration it runs through all the
    captured frames: its trace has one entry per frame, at the time of the
    frame; every swipe in it is horizontal and runs from left to right
    inside the capture region; and, for a cooldown that is not negative,
    any two swipes of the trace are at least the cooldown apart.  A first
    turn that is not at game over and measures no duration raises
    [ZeroDivisionError]. *)
Theorem loop_stops_only_at_zero_frame_time (t : tracker) (b : bot) (frame_times : list Q)
    (cs : list capture) :
  ((forall x, In x frame_times -> 0 < x) ->
   (forall c, In c cs -> 0 < turn_time c) ->
   exists s' trace,
     loop (t, b, frame_times) cs = Some (s', trace) /\
     map fst trace = map loop_time cs /\
     (forall time start_x start_y end_x end_y duration,
        In (time, Swipe start_x start_y end_x end_y duration) trace ->
        start_y = end_y /\
        (region_left <= start_x <= end_x)%Z /\ (end_x <= region_right)%Z /\
        (region_top <= start_y <= region_bottom)%Z) /\
     (0 <= cooldown b ->
      forall i j ti tj ai aj, (i < j)%nat ->
        trace !! i = Some (ti, ai) -> is_swipe ai = true ->
        trace !! j = Some (tj, aj) -> is_swipe aj = true ->
        cooldown b <= tj - ti)) /\
  (forall c, seen_game_over c = false -> turn_time c == 0 ->
     loop_body (t, b, []) c = None /\ loop (t, b, []) (c :: cs) = None).
Proof.
  split.
  - intros Hpos Hturns.
    destruct (loop_is_run cs t b frame_times Hpos Hturns)
      as (t' & frame_times' & frames & E & Etimes).
    eexists _, _. split; [exact E|]. split; [|split].
    + rewrite run_times. exact Etimes.
    + apply run_swipes_inside.
    + intros Hcd i j ti tj ai aj. apply run_pairs. exact Hcd.
  - intros c Hover Hzero.
    assert (Ebody : loop_body (t, b, []) c = None).
    { unfold loop_body.
      destruct (update_total t (seen_fruits c) (tracker_time c)) as [[t1 out] ->].
      cbn [mbind option_bind]. cbv zeta.
      destruct (decide_frame b _) as [b1 act].
      unfold pauses. simpl game_over. rewrite Hover, andb_false_r.
      unfold monitor. simpl. unfold py_div.
      assert (Emean : (0 + turn_time c) / inject_Z (Z.of_nat 1) == 0).
      { rewrite Hzero. reflexivity. }
      apply Qeq_bool_iff in Emean. rewrite Emean. reflexivity. }
    split; [exact Ebody|]. cbn [loop]. rewrite Ebody. reflexivity.
Qed.

End WithMath.

End PipelineFacts.

(** ** The frame rate limit of [screen_capture.py] *)

Module CaptureFacts.
Import GameCapture.

Lemma get_frame_cases {F : Type} (c : camera) (now : Q) (grabbed : option F) :
  frame_time (fst (get_frame c now grabbed)) = frame_time c /\
  ((snd (get_frame c now grabbed) = None /\ fst (get_frame c now grabbed) = c) \/
   (snd (get_frame c now grabbed) = grabbed /\
    last_capture_time (fst (get_frame c now grabbed)) = now /\
    frame_time c <= now - last_capture_time c)).
Proof.
  unfold get_frame.
  destruct (Qltb (now - last_capture_time c) (frame_time c)) eqn:E; [simpl; auto|].
  apply Qltb_ge in E. destruct grabbed as [frame|]; simpl; auto.
Qed.

Lemma poll_after_last {F : Type} (calls : list (Q * option F)) :
  forall (c : camera) (t : Q) (frame : F),
  0 <= frame_time c ->
  In (t, Some frame) (snd (poll c calls)) ->
  frame_time c <= t - last_capture_time c.
Proof.
  induction calls as [|[now grabbed] rest IH]; intros c t frame Hft; simpl; [intros []|].
  destruct (get_frame_cases c now grabbed) as [Eft Hcase].
  specialize (IH (fst (get_frame c now grabbed)) t frame).
  destruct (get_frame c now grabbed) as [c1 out]. simpl in *.
  destruct (poll c1 rest) as [c2 trace]. simpl in *. rewrite Eft in IH.
  destruct Hcase as [(-> & ->) | (-> & Elast & Hgap)].
  - intros [[=] | Hin]. apply IH; assumption.
  - intros [[= <- _] | Hin]; [exact Hgap|].
    specialize (IH Hft Hin). rewrite Elast in IH. lra.
Qed.

Lemma poll_pairs {F : Type} (calls : list (Q * option F)) :
  forall (c : camera) (i j : nat) (ti tj : Q) (fi fj : F),
  0 <= frame_time c -> (i < j)%nat ->
  snd (poll c calls) !! i = Some (ti, Some fi) ->
  snd (poll c calls) !! j = Some (tj, Some fj) ->
  frame_time c <= tj - ti.
Proof.
  induction calls as [|[now grabbed] rest IH]; intros c i j ti tj fi fj Hft Hij; simpl;
    [discriminate|].
  destruct (get_frame_cases c now grabbed) as [Eft Hcase].
  pose proof (poll_after_last rest (fst (get_frame c now grabbed)) tj fj) as Hafter.
  specialize (IH (fst (get_frame c now grabbed))).
  destruct (get_frame c now grabbed) as [c1 out]. simpl in *.
  destruct (poll c1 rest) as [c2 trace]. simpl in *. rewrite Eft in IH, Hafter.
  destruct j as [|j]; [lia|]. destruct i as [|i]; simpl.
  - intros [= <- ->] Hj.
    destruct Hcase as [([=] & _) | (_ & Elast & _)].
    rewrite Elast in Hafter. apply Hafter; [exact Hft|].
    apply list_elem_of_In. apply list_elem_of_lookup. eauto.
  - intros Hi Hj. apply (IH i j ti tj fi fj); auto. lia.
Qed.

Lemma poll_delivers_grabbed {F : Type} (calls : list (Q * option F)) :
  forall (c : camera) (t : Q) (frame : F),
  In (t, Some frame) (snd (poll c calls)) -> In (t, Some frame) calls.
Proof.
  induction calls as [|[now grabbed] rest IH]; intros c t frame; simpl; [intros []|].
  destruct (get_frame_cases c now grabbed) as [_ Hcase].
  specialize (IH (fst (get_frame c now grabbed)) t frame).
  destruct (get_frame c now grabbed) as [c1 out]. simpl in *.
  destruct (poll c1 rest) as [c2 trace]. simpl in *.
  destruct Hcase as [(-> & _) | (-> & _)].
  - intros [[=] | Hin]. auto.
  - intros [[= <- <-] | Hin]; auto.
Qed.

(** X17.  A [GameCapture] made for a positive [target_fps] never delivers
    two frames less than [1 / target_fps] apart, whatever the clock
    readings and the grabs; a frame it delivers is the one grabbed at that
    call. *)
Theorem frames_respect_frame_rate {F : Type} (target_fps : Q)
    (calls : list (Q * option F)) :
  0 < target_fps ->
  exists c,
    init target_fps = Some c /\
    (forall t frame, In (t, Some frame) (snd (poll c calls)) -> In (t, Some frame) calls) /\
    forall i j ti tj fi fj, (i < j)%nat ->
      snd (poll c calls) !! i = Some (ti, Some fi) ->
      snd (poll c calls) !! j = Some (tj, Some fj) ->
      1 / target_fps <= tj - ti.
Proof.
  intros Hfps. unfold init. rewrite py_div_pos by exact Hfps. cbn [mbind option_bind].
  eexists. split; [reflexivity|]. split; [apply poll_delivers_grabbed|].
  intros i j ti tj fi fj Hij Hi Hj.
  apply (poll_pairs calls (Camera (1 / target_fps) 0) i j ti tj fi fj); auto. simpl.
  apply Qle_shift_div_l; [exact Hfps | lra].
Qed.

End CaptureFacts.

(** ** The strategy of [ml_strategy.py] *)

Module StrategyFacts.
Import MLStrategy.

(** The [popleft] after [append] never fires: the deque is bounded. *)
Lemma push_position_append (maxlen : nat) (ps : list (Z * Z)) (p : Z * Z) :
  push_position maxlen ps p = deque_append maxlen ps p.
Proof.
  unfold push_position. cbv zeta.
  destruct (maxlen <? length (deque_append maxlen ps p))%nat eqn:E; [|reflexivity].
  apply Nat.ltb_lt in E. rewrite TrackerExtras.deque_append_length in E. lia.
Qed.

Lemma deque_append_nonempty {A : Type} (maxlen : nat) (d : list A) (x : A) :
  (0 < maxlen)%nat -> deque_append maxlen d x <> [].
Proof.
  intros Hm E. apply (f_equal length) in E.
  rewrite TrackerExtras.deque_append_length in E.
  destruct maxlen; [lia|]. simpl in E. discriminate.
Qed.

Lemma calculate_velocity_total (ps : list (Z * Z)) :
  exists v, _calculate_velocity ps = Some v.
Proof.
  unfold _calculate_velocity.
  destruct (length ps <? 2)%nat eqn:E2; [eauto|]. apply Nat.ltb_ge in E2.
  set (rp := if (4 <=? length ps)%nat then drop (length ps - 4) ps else ps).
  assert (Hlen : (2 <= length rp)%nat).
  { subst rp. destruct (4 <=? length ps)%nat eqn:E4; [|exact E2].
    apply Nat.leb_le in E4. rewrite length_drop. lia. }
  destruct rp as [|p0 [|p1 rest]] eqn:Erp; simpl in Hlen; try lia.
  assert (Hlast : exists p, last (p0 :: p1 :: rest) = Some p).
  { destruct (last (p0 :: p1 :: rest)) eqn:El; [eauto|].
    apply last_None in El. discriminate. }
  destruct Hlast as [p ->]. cbn [mbind option_bind head].
  assert (Hdt : 0 < inject_Z (Z.of_nat (length (p0 :: p1 :: rest) - 1)) * (1 / 60)).
  { apply Qmult_lt_0_compat; [|reflexivity].
    change 0 with (inject_Z 0). rewrite <- Zlt_Qlt. simpl length. lia. }
  apply Qltb_lt in Hdt as Hb. rewrite Hb.
  rewrite !py_div_pos by exact Hdt. simpl. eauto.
Qed.

(** X18.  [_calculate_velocity] never raises and never divides by zero;
    it looks at the last four positions only. *)
Theorem velocity_window (older recent : list (Z * Z)) :
  (exists v, _calculate_velocity (older ++ recent) = Some v) /\
  (length recent = 4%nat ->
   _calculate_velocity (older ++ recent) = _calculate_velocity recent).
Proof.
  split; [apply calculate_velocity_total|].
  intros H4. unfold _calculate_velocity. rewrite length_app, H4.
  replace (length older + 4 <? 2)%nat with false by (symmetry; apply Nat.ltb_ge; lia).
  replace (4 <=? length older + 4)%nat with true by (symmetry; apply Nat.leb_le; lia).
  replace (length older + 4 - 4)%nat with (length older) by lia.
  rewrite drop_app_length. simpl. rewrite drop_0. reflexivity.
Qed.

(** *** [_find_multi_fruit_swipe] *)

Lemma filter_none {A : Type} (p : A -> bool) (l : list A) :
  (forall x, In x l -> p x = false) -> List.filter p l = [].
Proof.
  induction l as [|x l IH]; simpl; intros Hall; [reflexivity|].
  rewrite (Hall x) by auto. apply IH. intros y Hy. apply Hall. auto.
Qed.

Lemma group_add_keys (b : Z) (f : detection) (gs : list (Z * list detection)) (k : Z) :
  In k (map fst (group_add b f gs)) <-> In k (map fst gs) \/ k = b.
Proof.
  induction gs as [|[k0 g0] rest IH]; simpl.
  - intuition.
  - destruct (Z.eqb_spec k0 b) as [->|Hne]; simpl; [|rewrite IH]; intuition.
Qed.

Lemma group_add_NoDup (b : Z) (f : detection) (gs : list (Z * list detection)) :
  NoDup (map fst gs) -> NoDup (map fst (group_add b f gs)).
Proof.
  induction gs as [|[k0 g0] rest IH]; simpl; intros Hnd.
  - apply NoDup_singleton.
  - apply NoDup_cons in Hnd as [Hk0 Hnd].
    destruct (Z.eqb_spec k0 b) as [->|Hne]; simpl.
    + apply NoDup_cons. auto.
    + apply NoDup_cons. split; [|apply IH; exact Hnd].
      intros Hin. apply list_elem_of_In, group_add_keys in Hin as [Hin | E];
        [apply Hk0, list_elem_of_In; exact Hin | congruence].
Qed.

Lemma group_add_In (b : Z) (f : detection) (gs : list (Z * list detection))
    (k : Z) (g : list detection) :
  NoDup (map fst gs) ->
  In (k, g) (group_add b f gs) ->
  (k <> b /\ In (k, g) gs) \/
  (k = b /\ exists g0, g = g0 ++ [f] /\
     (In (b, g0) gs \/ (g0 = [] /\ ~ In b (map fst gs)))).
Proof.
  induction gs as [|[k0 g0] rest IH]; simpl; intros Hnd.
  - intros [[= <- <-] | []]. right. split; [reflexivity|]. exists []. intuition.
  - apply NoDup_cons in Hnd as [Hk0 Hnd].
    destruct (Z.eqb_spec k0 b) as [->|Hne]; simpl.
    + intros [[= <- <-] | Hin].
      * right. split; [reflexivity|]. exists g0. auto.
      * left. split; [|auto]. intros ->. apply Hk0, list_elem_of_In, in_map_iff.
        exists (b, g). auto.
    + intros [[= <- <-] | Hin]; [left; auto|].
      destruct (IH Hnd Hin) as [[Hk Hin'] | (-> & g1 & -> & [Hin' | [-> Hfresh]])].
      * left. auto.
      * right. split; [reflexivity|]. exists g1. auto.
      * right. split; [reflexivity|]. exists []. split; [reflexivity|]. right.
        split; [reflexivity|]. intros [E | Hin']; [congruence | auto].
Qed.

Lemma group_add_grouped (seen : list detection) (f : detection)
    (gs : list (Z * list detection)) :
  (NoDup (map fst gs) /\
   (forall k g, In (k, g) gs ->
      g = List.filter (fun x => (height_bucket x =? k)%Z) seen /\ g <> []) /\
   (forall x, In x seen -> In (height_bucket x) (map fst gs))) ->
  (NoDup (map fst (group_add (height_bucket f) f gs)) /\
   (forall k g, In (k, g) (group_add (height_bucket f) f gs) ->
      g = List.filter (fun x => (height_bucket x =? k)%Z) (seen ++ [f]) /\ g <> []) /\
   (forall x, In x (seen ++ [f]) ->
      In (height_bucket x) (map fst (group_add (height_bucket f) f gs)))).
Proof.
  intros (Hnd & Hgs & Hkeys). split; [apply group_add_NoDup; exact Hnd|]. split.
  - intros k g Hin. rewrite List.filter_app. simpl.
    destruct (group_add_In _ _ _ _ _ Hnd Hin)
      as [[Hk Hin'] | (-> & g0 & -> & [Hin' | [-> Hfresh]])].
    + destruct (Z.eqb_spec (height_bucket f) k) as [E|_]; [congruence|].
      rewrite app_nil_r. apply Hgs. exact Hin'.
    + rewrite Z.eqb_refl. destruct (Hgs _ _ Hin') as [<- _].
      split; [reflexivity|]. intros E. apply app_eq_nil in E as [_ [=]].
    + rewrite Z.eqb_refl. split; [|discriminate].
      rewrite filter_none; [reflexivity|]. intros f0 Hf0.
      destruct (Z.eqb_spec (height_bucket f0) (height_bucket f)) as [E|]; [|reflexivity].
      exfalso. apply Hfresh. rewrite <- E. apply Hkeys. exact Hf0.
  - intros f0 Hf0. apply group_add_keys. apply in_app_iff in Hf0 as [Hf0 | [<- | []]]; auto.
Qed.

Lemma height_groups_grouped (fruits : list detection) :
  (NoDup (map fst (height_groups fruits)) /\
   (forall k g, In (k, g) (height_groups fruits) ->
      g = List.filter (fun x => (height_bucket x =? k)%Z) fruits /\ g <> []) /\
   (forall x, In x fruits -> In (height_bucket x) (map fst (height_groups fruits)))).
Proof.
  unfold height_groups.
  assert (Hgen : forall rest seen gs, (NoDup (map fst gs) /\
   (forall k g, In (k, g) gs ->
      g = List.filter (fun x => (height_bucket x =? k)%Z) seen /\ g <> []) /\
   (forall x, In x seen -> In (height_bucket x) (map fst gs))) ->
            let gs' := fold_left (fun groups fruit =>
                                    group_add (height_bucket fruit) fruit groups) rest gs in
            (NoDup (map fst gs') /\
   (forall k g, In (k, g) gs' ->
      g = List.filter (fun x => (height_bucket x =? k)%Z) (seen ++ rest) /\ g <> []) /\
   (forall x, In x (seen ++ rest) -> In (height_bucket x) (map fst gs')))).
  { induction rest as [|f rest IH]; intros seen gs Hgs; simpl.
    - rewrite app_nil_r. exact Hgs.
    - replace (seen ++ f :: rest) with ((seen ++ [f]) ++ rest)
        by (rewrite <- app_assoc; reflexivity).
      apply (IH (seen ++ [f])). apply group_add_grouped. exact Hgs. }
  apply (Hgen fruits [] []). split; [apply NoDup_nil_2|].
  split; [intros ? ? [] | intros ? []].
Qed.

Lemma bucket_length (fruits : list detection) (k : Z) :
  (exists g, In (k, g) (height_groups fruits) /\
             g = List.filter (fun x => (height_bucket x =? k)%Z) fruits) \/
  List.filter (fun x => (height_bucket x =? k)%Z) fruits = [].
Proof.
  destruct (height_groups_grouped fruits) as (Hnd & Hgs & Hkeys).
  destruct (List.filter (fun x => (height_bucket x =? k)%Z) fruits) as [|f0 rest] eqn:E; [right; reflexivity|].
  left. assert (Hf0 : In f0 (List.filter (fun x => (height_bucket x =? k)%Z) fruits)) by (rewrite E; left; reflexivity).
  apply filter_In in Hf0 as [Hin Hb]. apply Z.eqb_eq in Hb.
  apply Hkeys in Hin. rewrite Hb in Hin. apply in_map_iff in Hin as ([k' g] & Ek & Hin).
  simpl in Ek. subst k'. exists g. split; [exact Hin|].
  rewrite <- E. apply Hgs. exact Hin.
Qed.

Lemma pick_group_spec (gs : list (Z * list detection)) :
  forall best_group,
  (forall b, best_group = Some b -> (2 <= length b)%nat) ->
  match pick_group gs best_group with
  | None => best_group = None /\ forall k g, In (k, g) gs -> (length g < 2)%nat
  | Some g =>
      (2 <= length g)%nat /\
      (best_group = Some g \/ exists k, In (k, g) gs) /\
      (forall k' g', In (k', g') gs -> (length g' <= length g)%nat) /\
      (forall b, best_group = Some b -> (length b <= length g)%nat)
  end.
Proof.
  induction gs as [|[k g] rest IH]; intros best Hbest; cbn [pick_group].
  - destruct best as [b|]; [|split; [reflexivity | intros ? ? []]].
    split; [auto|]. split; [auto|]. split; [intros ? ? [] | intros ? [= ->]; lia].
  - destruct ((2 <=? length g)%nat
              && match best with
                 | None => true
                 | Some b => (length b <? length g)%nat
                 end) eqn:Ec.
    + apply andb_true_iff in Ec as [E2 Eb]. apply Nat.leb_le in E2.
      specialize (IH (Some g) ltac:(intros b [= <-]; exact E2)).
      revert IH. destruct (pick_group rest (Some g)) as [r|]; intros IH;
        [|destruct IH as [[=] _]].
      destruct IH as (R1 & R2 & R3 & R4). specialize (R4 g eq_refl).
      split; [exact R1|]. split; [|split].
      * right. destruct R2 as [[= <-] | [k' Hin]]; [exists k; left | exists k'; right]; auto.
      * intros k' g' [[= <- <-] | Hin]; [exact R4 | eapply R3; eauto].
      * intros b ->. apply Nat.ltb_lt in Eb. lia.
    + specialize (IH best Hbest).
      assert (Hg : (length g < 2)%nat \/ exists b, best = Some b /\ (length g <= length b)%nat).
      { apply andb_false_iff in Ec as [E2 | Eb]; [left; apply Nat.leb_gt; exact E2|].
        destruct best as [b|]; [|discriminate]. right. exists b.
        apply Nat.ltb_ge in Eb. auto. }
      revert IH. destruct (pick_group rest best) as [r|]; intros IH.
      * destruct IH as (R1 & R2 & R3 & R4). split; [exact R1|]. split; [|split; [|exact R4]].
        -- destruct R2 as [E | [k' Hin]]; [left; exact E | right; exists k'; right; exact Hin].
        -- intros k' g' [[= <- <-] | Hin]; [|eapply R3; eauto].
           destruct Hg as [Hg | (b & -> & Hg)]; [lia|]. specialize (R4 b eq_refl). lia.
      * destruct IH as [-> R]. split; [reflexivity|].
        intros k' g' [[= <- <-] | Hin]; [|eapply R; eauto].
        destruct Hg as [Hg | (b & [=] & _)]. exact Hg.
Qed.

Lemma list_min_le (xs : list Z) :
  forall x, (list_min x xs <= x)%Z /\ forall y, In y xs -> (list_min x xs <= y)%Z.
Proof.
  unfold list_min. induction xs as [|y0 xs IH]; intros x; simpl.
  - split; [lia | intros ? []].
  - destruct (IH (Z.min x y0)) as [H1 H2]. split; [lia|].
    intros y [<- | Hin]; [lia | auto].
Qed.

Lemma list_max_ge (xs : list Z) :
  forall x, (x <= list_max x xs)%Z /\ forall y, In y xs -> (y <= list_max x xs)%Z.
Proof.
  unfold list_max. induction xs as [|y0 xs IH]; intros x; simpl.
  - split; [lia | intros ? []].
  - destruct (IH (Z.max x y0)) as [H1 H2]. split; [lia|].
    intros y [<- | Hin]; [lia | auto].
Qed.

Lemma sum_bounds (lo hi : Z) (ys : list Z) :
  (forall y, In y ys -> lo <= y <= hi)%Z ->
  forall a, (a + lo * Z.of_nat (length ys) <= fold_left Z.add ys a
             <= a + hi * Z.of_nat (length ys))%Z.
Proof.
  induction ys as [|y ys IH]; intros Hall a; simpl fold_left.
  - simpl. lia.
  - specialize (IH ltac:(intros z Hz; apply Hall; right; exact Hz) (a + y)%Z).
    assert (lo <= y <= hi)%Z by (apply Hall; left; reflexivity).
    simpl length. rewrite Nat2Z.inj_succ. nia.
Qed.

(** X19.  A multi-fruit swipe aims at all the fruits of one 40-pixel
    height band, in the order of the frame: a band that holds at least two
    fruits and no fewer than any other band.  The swipe is horizontal, at a
    height inside that band, starts at or right of 0, ends at or left of the
    frame width, and reaches 50 pixels beyond every fruit of the group
    unless the frame border cuts it.  There is no multi-fruit swipe exactly
    when no band holds two fruits. *)
Theorem multi_swipe_takes_fullest_band (s : strategy) (fruits : list detection) :
  match _find_multi_fruit_swipe s fruits with
  | Some (group, start_x, start_y, end_x, end_y) =>
      exists k,
        group = List.filter (fun f => (height_bucket f =? k)%Z) fruits /\
        (2 <= length group)%nat /\
        (forall k', (length (List.filter (fun f => (height_bucket f =? k')%Z) fruits) <= length group)%nat) /\
        start_y = end_y /\
        inject_Z (40 * k) <= start_y /\ start_y < inject_Z (40 * (k + 1)) /\
        (0 <= start_x)%Z /\ (end_x <= frame_width s)%Z /\
        forall f, In f group ->
          (start_x <= Z.max 0 (fst (center f) - 50))%Z /\
          (Z.min (frame_width s) (fst (center f) + 50) <= end_x)%Z
  | None => forall k, (length (List.filter (fun f => (height_bucket f =? k)%Z) fruits) <= 1)%nat
  end.
Proof.
  unfold _find_multi_fruit_swipe.
  destruct (length fruits <? 2)%nat eqn:Elen.
  { apply Nat.ltb_lt in Elen. intros k.
    pose proof (List.filter_length_le (fun f => (height_bucket f =? k)%Z) fruits). lia. }
  pose proof (pick_group_spec (height_groups fruits) None ltac:(discriminate)) as Hpick.
  destruct (height_groups_grouped fruits) as (Hnd & Hgs & Hkeys).
  revert Hpick. destruct (pick_group (height_groups fruits) None) as [group|]; intros Hpick.
  - destruct Hpick as (H2 & [[=] | [k Hin]] & Hmax & _).
    destruct group as [|fruit others]; [simpl in H2; lia|]. cbv zeta.
    destruct (Hgs _ _ Hin) as [Egroup _].
    exists k. split; [exact Egroup|]. split; [exact H2|]. split; [|split; [reflexivity|]].
    { intros k'. destruct (bucket_length fruits k') as [(g & Hg & <-) | ->];
        [eapply Hmax; eauto | simpl; lia]. }
    assert (Hband : forall y, In y (map (fun f => snd (center f)) (fruit :: others)) ->
              (40 * k <= y <= 40 * k + 39)%Z).
    { intros y Hy. apply in_map_iff in Hy as (f & <- & Hf).
      rewrite Egroup in Hf. apply filter_In in Hf as [_ Hb]. apply Z.eqb_eq in Hb.
      unfold height_bucket in Hb. subst k.
      pose proof (Z.div_mod (snd (center f)) 40 ltac:(lia)).
      pose proof (Z.mod_pos_bound (snd (center f)) 40 ltac:(lia)). lia. }
    pose proof (sum_bounds _ _ _ Hband 0%Z) as Hsum. rewrite length_map in Hsum.
    set (total := fold_left Z.add (map (fun f => snd (center f)) (fruit :: others)) 0%Z) in *.
    set (n := Z.of_nat (length (fruit :: others))) in *.
    assert (Hn : (0 < n)%Z) by (subst n; simpl length; lia).
    assert (HnQ : 0 < inject_Z n) by (change 0 with (inject_Z 0); rewrite <- Zlt_Qlt; exact Hn).
    split; [|split].
    + apply Qle_shift_div_l; [exact HnQ|]. rewrite <- inject_Z_mult, <- Zle_Qle. lia.
    + apply Qlt_shift_div_r; [exact HnQ|]. rewrite <- inject_Z_mult, <- Zlt_Qlt. nia.
    + split; [lia|]. split; [lia|]. intros f Hf.
      destruct (list_min_le (map (fun f => fst (center f)) others) (fst (center fruit)))
        as [Hm1 Hm2].
      destruct (list_max_ge (map (fun f => fst (center f)) others) (fst (center fruit)))
        as [HM1 HM2].
      destruct Hf as [<- | Hf]; [lia|].
      specialize (Hm2 _ (in_map (fun x => fst (center x)) _ _ Hf)).
      specialize (HM2 _ (in_map (fun x => fst (center x)) _ _ Hf)).
      cbv beta in Hm2, HM2. lia.
  - destruct Hpick as [_ Hsmall]. intros k.
    destruct (bucket_length fruits k) as [(g & Hg & <-) | ->]; [|simpl; lia].
    specialize (Hsmall _ _ Hg). lia.
Qed.

Section WithMath.
Context `{MathModule}.

(** The inner loop keeps the first nearest of the tracks it may match:
    those seen less than 0.8 seconds ago, nearer than 80 pixels and nearer
    than the bound so far. *)
Lemma find_track_spec (pos : Z * Z) (now : Q) (tracks : list (nat * track)) :
  (forall tid tr, In (tid, tr) tracks -> positions tr <> []) ->
  forall matched_id min_distance,
  (find_track tracks pos now matched_id min_distance = Some (matched_id, min_distance) /\
   forall tid tr p, In (tid, tr) tracks -> now - last_seen tr < 8 # 10 ->
     last (positions tr) = Some p -> norm pos p < 80 ->
     below (norm pos p) min_distance = false) \/
  (exists tid tr p before after,
     tracks = before ++ (tid, tr) :: after /\
     find_track tracks pos now matched_id min_distance = Some (Some tid, Some (norm pos p)) /\
     now - last_seen tr < 8 # 10 /\ last (positions tr) = Some p /\
     norm pos p < 80 /\ below (norm pos p) min_distance = true /\
     (forall tid' tr' p', In (tid', tr') before -> now - last_seen tr' < 8 # 10 ->
        last (positions tr') = Some p' -> norm pos p' < 80 -> norm pos p < norm pos p') /\
     (forall tid' tr' p', In (tid', tr') after -> now - last_seen tr' < 8 # 10 ->
        last (positions tr') = Some p' -> norm pos p' < 80 -> norm pos p <= norm pos p')).
Proof.
  induction tracks as [|[tid0 tr0] rest IH]; intros Hpos mid md.
  - left. split; [reflexivity | intros ? ? ? []].
  - assert (Hrest : forall tid tr, In (tid, tr) rest -> positions tr <> [])
      by (intros tid tr Hin; apply (Hpos tid tr); right; exact Hin).
    specialize (IH Hrest).
    assert (Hlast : exists p0, last (positions tr0) = Some p0).
    { destruct (last (positions tr0)) eqn:El; [eauto|]. apply last_None in El.
      exfalso. apply (Hpos tid0 tr0); [left; reflexivity | exact El]. }
    destruct Hlast as [p0 Hp0]. simpl.
    destruct (Qltb (now - last_seen tr0) (8 # 10)) eqn:Erec.
    + rewrite Hp0. cbn [mbind option_bind].
      destruct (Qltb (norm pos p0) 80) eqn:Enear; simpl andb.
      * destruct (below (norm pos p0) md) eqn:Ebelow.
        -- right. apply Qltb_lt in Erec, Enear.
           destruct (IH (Some tid0) (Some (norm pos p0)))
             as [[E Hall] | (tid & tr & p & l1 & l2 & -> & E & Hr & Hl & Hn & Hb & Hbef & Haft)].
           ++ exists tid0, tr0, p0, [], rest. repeat split; auto; [intros ? ? ? []|].
              intros tid' tr' p' Hin Hr' Hl' Hn'.
              specialize (Hall tid' tr' p' Hin Hr' Hl' Hn'). simpl in Hall.
              apply Qltb_ge in Hall. exact Hall.
           ++ simpl in Hb. apply Qltb_lt in Hb.
              exists tid, tr, p, ((tid0, tr0) :: l1), l2. repeat split; auto.
              ** destruct md as [m|]; simpl in *; [|reflexivity].
                 apply Qltb_lt in Ebelow. apply Qltb_lt. lra.
              ** intros tid' tr' p' [[= <- <-] | Hin] Hr' Hl' Hn';
                   [rewrite Hp0 in Hl'; injection Hl' as <-; exact Hb | eapply Hbef; eauto].
        -- destruct (IH mid md)
             as [[E Hall] | (tid & tr & p & l1 & l2 & -> & E & Hr & Hl & Hn & Hb & Hbef & Haft)].
           ++ left. split; [exact E|].
              intros tid' tr' p' [[= <- <-] | Hin] Hr' Hl' Hn';
                [rewrite Hp0 in Hl'; injection Hl' as <-; exact Ebelow | eapply Hall; eauto].
           ++ right. exists tid, tr, p, ((tid0, tr0) :: l1), l2. repeat split; auto.
              intros tid' tr' p' [[= <- <-] | Hin] Hr' Hl' Hn'; [|eapply Hbef; eauto].
              rewrite Hp0 in Hl'. injection Hl' as <-.
              destruct md as [m|]; simpl in *; [|discriminate].
              apply Qltb_ge in Ebelow. apply Qltb_lt in Hb. lra.
      * apply Qltb_ge in Enear.
        destruct (IH mid md)
          as [[E Hall] | (tid & tr & p & l1 & l2 & -> & E & Hr & Hl & Hn & Hb & Hbef & Haft)].
        -- left. split; [exact E|].
           intros tid' tr' p' [[= <- <-] | Hin] Hr' Hl' Hn'; [|eapply Hall; eauto].
           rewrite Hp0 in Hl'. injection Hl' as <-. lra.
        -- right. exists tid, tr, p, ((tid0, tr0) :: l1), l2. repeat split; auto.
           intros tid' tr' p' [[= <- <-] | Hin] Hr' Hl' Hn'; [|eapply Hbef; eauto].
           rewrite Hp0 in Hl'. injection Hl' as <-. lra.
    + apply Qltb_ge in Erec.
      destruct (IH mid md)
        as [[E Hall] | (tid & tr & p & l1 & l2 & -> & E & Hr & Hl & Hn & Hb & Hbef & Haft)].
      * left. split; [exact E|].
        intros tid' tr' p' [[= <- <-] | Hin] Hr' Hl' Hn'; [lra | eapply Hall; eauto].
      * right. exists tid, tr, p, ((tid0, tr0) :: l1), l2. repeat split; auto.
        intros tid' tr' p' [[= <- <-] | Hin] Hr' Hl' Hn'; [lra | eapply Hbef; eauto].
Qed.

(** X20.  The track a fruit is matched to is the nearest of the tracks
    seen less than 0.8 seconds ago whose last position is less than 80
    pixels away, the first one among equally near ones; a fruit is left
    unmatched exactly when there is no such track. *)
Theorem matched_track_is_nearest (tracks : list (nat * track)) (pos : Z * Z) (now : Q) :
  (forall tid tr, In (tid, tr) tracks -> positions tr <> []) ->
  exists matched_id min_distance,
    find_track tracks pos now None None = Some (matched_id, min_distance) /\
    match matched_id with
    | None =>
        forall tid tr p, In (tid, tr) tracks -> now - last_seen tr < 8 # 10 ->
          last (positions tr) = Some p -> 80 <= norm pos p
    | Some tid =>
        exists tr p before after,
          tracks = before ++ (tid, tr) :: after /\
          now - last_seen tr < 8 # 10 /\ last (positions tr) = Some p /\
          norm pos p < 80 /\
          (forall tid' tr' p', In (tid', tr') before -> now - last_seen tr' < 8 # 10 ->
             last (positions tr') = Some p' -> norm pos p < norm pos p') /\
          (forall tid' tr' p', In (tid', tr') after -> now - last_seen tr' < 8 # 10 ->
             last (positions tr') = Some p' -> norm pos p <= norm pos p')
    end.
Proof.
  intros Hpos.
  destruct (find_track_spec pos now tracks Hpos None None)
    as [[E Hall] | (tid & tr & p & l1 & l2 & Etr & E & Hr & Hl & Hn & _ & Hbef & Haft)].
  - exists None, None. split; [exact E|].
    intros tid tr p Hin Hr Hl.
    destruct (Qlt_le_dec (norm pos p) 80) as [Hn | Hn]; [|exact Hn].
    specialize (Hall tid tr p Hin Hr Hl Hn). discriminate.
  - exists (Some tid), (Some (norm pos p)). split; [exact E|].
    exists tr, p, l1, l2. repeat split; auto.
    + intros tid' tr' p' Hin Hr' Hl'.
      destruct (Qlt_le_dec (norm pos p') 80) as [Hn' | Hn']; [eapply Hbef; eauto | lra].
    + intros tid' tr' p' Hin Hr' Hl'.
      destruct (Qlt_le_dec (norm pos p') 80) as [Hn' | Hn']; [eapply Haft; eauto | lra].
Qed.

(** *** [_assign_ids_to_fruits] *)

Lemma dict_set_In_same {V : Type} (d : list (nat * V)) (k : nat) (v : V) :
  In (k, v) (dict_set k v d).
Proof.
  induction d as [|[k' v'] rest IH]; simpl; [auto|].
  destruct (Nat.eqb_spec k' k) as [->|Hne]; simpl; auto.
Qed.

Lemma dict_set_In_other {V : Type} (d : list (nat * V)) (k k' : nat) (v v' : V) :
  k' <> k -> In (k', v') d -> In (k', v') (dict_set k v d).
Proof.
  intros Hne. induction d as [|[k0 v0] rest IH]; simpl; [tauto|].
  destruct (Nat.eqb_spec k0 k) as [->|Hk0]; simpl.
  - intros [[= -> ->] | Hin]; [congruence | auto].
  - intros [E | Hin]; auto.
Qed.

Lemma find_track_total (pos : Z * Z) (now : Q) (tracks : list (nat * track)) :
  NoDup (map fst tracks) ->
  (forall tid tr, In (tid, tr) tracks -> positions tr <> []) ->
  exists matched_id min_distance,
    find_track tracks pos now None None = Some (matched_id, min_distance) /\
    forall tid, matched_id = Some tid -> exists tr, dict_get tid tracks = Some tr.
Proof.
  intros Hnd Hpos.
  destruct (find_track_spec pos now tracks Hpos None None)
    as [[E _] | (tid & tr & p & l1 & l2 & Etr & E & _)].
  - exists None, None. split; [exact E | discriminate].
  - exists (Some tid), (Some (norm pos p)). split; [exact E|].
    intros tid' [= <-]. exists tr. apply (dict_get_In _ _ _ Hnd).
    rewrite Etr. apply in_app_iff. right. left. reflexivity.
Qed.

Lemma assign_loop_spec (maxlen : nat) (now : Q) (fruits : list detection) :
  (0 < maxlen)%nat ->
  forall tracks counter updated,
  NoDup (map fst tracks) ->
  (forall tid tr, In (tid, tr) tracks -> (tid <= counter)%nat) ->
  (forall tid tr, In (tid, tr) tracks -> positions tr <> []) ->
  (forall fruit tid, In (fruit, tid) updated ->
     exists tr, In (tid, tr) tracks /\ last_seen tr = now) ->
  exists tracks' counter' updated',
    assign_loop maxlen now fruits tracks counter updated
      = Some (tracks', counter', updated') /\
    NoDup (map fst tracks') /\
    (forall tid tr, In (tid, tr) tracks' -> (tid <= counter')%nat) /\
    (forall tid tr, In (tid, tr) tracks' -> positions tr <> []) /\
    (counter <= counter')%nat /\
    map fst updated' = map fst updated ++ fruits /\
    (forall fruit tid, In (fruit, tid) updated' ->
       exists tr, In (tid, tr) tracks' /\ last_seen tr = now).
Proof.
  intros Hmax. induction fruits as [|fruit rest IH]; intros tracks counter updated
    Hnd Hcnt Hpos Hupd; simpl.
  - exists tracks, counter, updated. rewrite app_nil_r. repeat split; auto.
  - destruct (find_track_total (center fruit) now tracks Hnd Hpos)
      as (mid & md & -> & Hget).
    cbn [mbind option_bind].
    assert (Hstep : forall tid tr',
              last_seen tr' = now -> positions tr' <> [] -> (tid <= S counter)%nat ->
              (tid <= counter -> True)%nat ->
              let tracks1 := dict_set tid tr' tracks in
              NoDup (map fst tracks1) /\
              (forall t r, In (t, r) tracks1 -> (t <= Nat.max counter tid)%nat) /\
              (forall t r, In (t, r) tracks1 -> positions r <> []) /\
              (forall f t, In (f, t) (updated ++ [(fruit, tid)]) ->
                 exists r, In (t, r) tracks1 /\ last_seen r = now)).
    { intros tid tr' Hseen Hne Hle _ tracks1. subst tracks1.
      split; [apply dict_set_NoDup; exact Hnd|]. split; [|split].
      - intros t r Hin. apply TrackerFacts.dict_set_In_inv in Hin as [Hin | [= -> ->]];
          [apply Hcnt in Hin|]; lia.
      - intros t r Hin. apply TrackerFacts.dict_set_In_inv in Hin as [Hin | [= -> ->]];
          [apply (Hpos _ _ Hin) | exact Hne].
      - intros f t Hin. apply in_app_iff in Hin as [Hin | [[= <- <-] | []]].
        + destruct (Hupd f t Hin) as (r & Hr & Hs).
          destruct (Nat.eq_dec t tid) as [-> | Hneq].
          * exists tr'. split; [apply dict_set_In_same | exact Hseen].
          * exists r. split; [apply dict_set_In_other; assumption | exact Hs].
        + exists tr'. split; [apply dict_set_In_same | exact Hseen]. }
    destruct mid as [tid|].
    + destruct (Hget tid eq_refl) as [tr Etr]. rewrite Etr. cbn [mbind option_bind].
      rewrite push_position_append.
      assert (Htid : (tid <= counter)%nat).
      { apply (dict_get_In _ _ _ Hnd) in Etr. apply (Hcnt _ _ Etr). }
      destruct (Hstep tid
                  (Track (deque_append maxlen (positions tr) (center fruit)) now fruit
                     (first_seen tr)))
        as (H1 & H2 & H3 & H4); [reflexivity | apply deque_append_nonempty; exact Hmax | lia | tauto |].
      destruct (IH _ counter _ H1
                  ltac:(intros t r Hin; apply H2 in Hin; lia) H3 H4)
        as (tracks' & counter' & updated' & E & R1 & R2 & R3 & R4 & R5 & R6).
      exists tracks', counter', updated'. split; [exact E|].
      repeat split; auto.
      rewrite R5, map_app, <- app_assoc. reflexivity.
    + destruct (Hstep (S counter)
                  (Track (deque_append maxlen [] (center fruit)) now fruit now))
        as (H1 & H2 & H3 & H4); [reflexivity | apply deque_append_nonempty; exact Hmax | lia | tauto |].
      destruct (IH _ (S counter) _ H1
                  ltac:(intros t r Hin; apply H2 in Hin; lia) H3 H4)
        as (tracks' & counter' & updated' & E & R1 & R2 & R3 & R4 & R5 & R6).
      exists tracks', counter', updated'. split; [exact E|].
      repeat split; auto; [lia|].
      rewrite R5, map_app, <- app_assoc. reflexivity.
Qed.

Lemma sweep_In (now : Q) (tracks : list (nat * track)) (tid : nat) (tr : track) :
  NoDup (map fst tracks) ->
  In (tid, tr) (sweep now tracks) <->
  In (tid, tr) tracks /\ now - last_seen tr <= 15 # 10.
Proof.
  intros Hnd. unfold sweep. rewrite dict_del_fold_In.
  split; intros [Hin Hst]; (split; [exact Hin|]).
  - destruct (Qltb (15 # 10) (now - last_seen tr)) eqn:E; [|apply Qltb_ge in E; exact E].
    exfalso. apply Hst. apply in_map_iff. exists (tid, tr). split; [reflexivity|].
    apply filter_In. auto.
  - intros Hk. apply in_map_iff in Hk as ([tid' tr'] & Etid & Hf). simpl in Etid. subst tid'.
    apply filter_In in Hf as [Hin' Hst']. simpl in Hst'. apply Qltb_lt in Hst'.
    apply (dict_get_In _ _ _ Hnd) in Hin. apply (dict_get_In _ _ _ Hnd) in Hin'.
    assert (tr' = tr) by congruence. subst tr'. lra.
Qed.

Lemma assign_ids_spec (s : strategy) (fruits : list detection) (now : Q) :
  well_formed s ->
  (0 < max_track_history s)%nat ->
  exists s' tracked,
    _assign_ids_to_fruits s fruits now = Some (s', tracked) /\
    map fst tracked = fruits /\
    (forall fruit tid, In (fruit, tid) tracked ->
       exists tr, In (tid, tr) (fruit_tracks s') /\ last_seen tr = now) /\
    (forall tid tr, In (tid, tr) (fruit_tracks s') -> now - last_seen tr <= 15 # 10) /\
    well_formed s' /\
    (track_id_counter s <= track_id_counter s')%nat /\
    (frame_width s' = frame_width s /\ frame_height s' = frame_height s).
Proof.
  intros [Hnd Hcnt Hpos] Hmax. unfold _assign_ids_to_fruits.
  destruct (assign_loop_spec (max_track_history s) now fruits Hmax
              (fruit_tracks s) (track_id_counter s) [] Hnd Hcnt Hpos ltac:(intros ? ? []))
    as (tracks' & counter' & updated' & E & R1 & R2 & R3 & R4 & R5 & R6).
  rewrite E. cbn [mbind option_bind]. eexists _, _. split; [reflexivity|].
  simpl. split; [exact R5|]. split; [|split; [|split; [|split]]].
  - intros fruit tid Hin. destruct (R6 fruit tid Hin) as (tr & Htr & Hs).
    exists tr. split; [|exact Hs]. apply (sweep_In _ _ _ _ R1). split; [exact Htr|].
    rewrite Hs. lra.
  - intros tid tr Hin. apply (sweep_In _ _ _ _ R1) in Hin as [_ Hle]. exact Hle.
  - split; simpl.
    + apply dict_del_fold_keys. exact R1.
    + intros tid tr Hin. apply (sweep_In _ _ _ _ R1) in Hin as [Hin _]. apply (R2 _ _ Hin).
    + intros tid tr Hin. apply (sweep_In _ _ _ _ R1) in Hin as [Hin _]. apply (R3 _ _ Hin).
  - exact R4.
  - split; reflexivity.
Qed.

(** X21.  On a well-formed table, with room for at least one position per
    track, [_assign_ids_to_fruits] never raises and returns the fruits of
    the frame in their order, each with one id.  The track of every
    returned id is in the table afterwards, last seen at the time of the
    call; no track left in the table was last seen more than 1.5 seconds
    before; the table stays well formed and the counter never goes
    down. *)
Theorem every_fruit_gets_one_id (s : strategy) (fruits : list detection) (now : Q) :
  well_formed s ->
  (0 < max_track_history s)%nat ->
  exists s' tracked,
    _assign_ids_to_fruits s fruits now = Some (s', tracked) /\
    map fst tracked = fruits /\
    (forall fruit tid, In (fruit, tid) tracked ->
       exists tr, In (tid, tr) (fruit_tracks s') /\ last_seen tr = now) /\
    (forall tid tr, In (tid, tr) (fruit_tracks s') -> now - last_seen tr <= 15 # 10) /\
    well_formed s' /\
    (track_id_counter s <= track_id_counter s')%nat.
Proof.
  intros Hwf Hmax.
  destruct (assign_ids_spec s fruits now Hwf Hmax)
    as (s' & tracked & E & R1 & R2 & R3 & R4 & R5 & _).
  exists s', tracked. auto 10.
Qed.

(** *** [find_best_swipe] *)

Lemma is_at_peak_total (s : strategy) (tr : track) (now : Q) :
  exists at_peak, _is_at_peak s tr now = Some at_peak.
Proof.
  unfold _is_at_peak. destruct (length (positions tr) <? 3)%nat eqn:E3; [eauto|].
  apply Nat.ltb_ge in E3.
  destruct (calculate_velocity_total (positions tr)) as [[vx vy] ->].
  cbn [mbind option_bind].
  destruct (last (positions tr)) as [newest|] eqn:El; cbn [mbind option_bind]; [eauto|].
  apply last_None in El. rewrite El in E3. simpl in E3. lia.
Qed.

Lemma peak_loop_spec (s : strategy) (now : Q) (tracked : list (detection * nat)) :
  exists peaks, peak_loop s now tracked = Some peaks /\
                forall f, In f peaks -> In f (map fst tracked).
Proof.
  induction tracked as [|[fruit tid] rest (peaks & IH & Hsub)]; simpl.
  - exists []. split; [reflexivity | intros ? []].
  - destruct (dict_get tid (fruit_tracks s)) as [tr|].
    + destruct (is_at_peak_total s tr now) as [at_peak ->]. rewrite IH.
      cbn [mbind option_bind]. eexists. split; [reflexivity|].
      destruct at_peak; [intros f [<- | Hf]|]; auto.
    + exists peaks. split; [exact IH | auto].
Qed.

Lemma max_by_y_In (fruits : list detection) :
  forall best, In (max_by_y best fruits) (best :: fruits).
Proof.
  induction fruits as [|fruit rest IH]; intros best; simpl; [auto|].
  destruct (snd (center best) <? snd (center fruit))%Z.
  - right. apply IH.
  - destruct (IH best) as [E | Hin]; auto.
Qed.

(** X22.  On a well-formed table, with room for at least one position per
    track, [find_best_swipe] never raises and leaves the table well formed.
    The swipe it returns is the swipe of 150 pixels each side of one fruit
    of the frame, or the multi-fruit swipe of the frame; it returns none
    only when the frame has no multi-fruit swipe and no fruit lower than 70
    percent of the frame height. *)
Theorem best_swipe_is_single_or_multi (s : strategy) (fruits : list detection) (now : Q) :
  well_formed s ->
  (0 < max_track_history s)%nat ->
  exists s' r,
    find_best_swipe s fruits now = Some (s', r) /\
    well_formed s' /\
    match r with
    | Some sw =>
        (exists f, In f fruits /\ sw = single_swipe f) \/
        _find_multi_fruit_swipe s fruits = Some sw
    | None =>
        _find_multi_fruit_swipe s fruits = None /\
        forall f, In f fruits ->
          inject_Z (snd (center f)) <= inject_Z (frame_height s) * (7 # 10)
    end.
Proof.
  intros Hwf Hmax. unfold find_best_swipe.
  destruct fruits as [|fruit0 rest0] eqn:Efruits.
  { exists s, None. split; [reflexivity|]. split; [exact Hwf|].
    split; [reflexivity | intros ? []]. }
  rewrite <- Efruits. clear Efruits fruit0 rest0.
  destruct (assign_ids_spec s fruits now Hwf Hmax)
    as (s' & tracked & E & Etracked & _ & _ & Hwf' & _ & Eframe).
  rewrite E. cbn [mbind option_bind].
  destruct (peak_loop_spec s' now tracked) as (peaks & -> & Hsub).
  cbn [mbind option_bind]. rewrite Etracked in *.
  destruct Eframe as [Ew Eh].
  assert (Emulti : _find_multi_fruit_swipe s' fruits = _find_multi_fruit_swipe s fruits).
  { unfold _find_multi_fruit_swipe. rewrite Ew. reflexivity. }
  destruct peaks as [|fruit others].
  - rewrite Emulti. destruct (_find_multi_fruit_swipe s fruits) as [sw|].
    + exists s', (Some sw). auto.
    + destruct (List.filter _ fruits) as [|fruit others] eqn:Eurgent.
      * exists s', None. split; [reflexivity|]. split; [exact Hwf'|].
        split; [reflexivity|]. intros f Hf.
        destruct (Qltb (inject_Z (frame_height s') * (7 # 10)) (inject_Z (snd (center f))))
          eqn:Eu.
        -- exfalso. assert (Hin : In f []); [|destruct Hin].
           rewrite <- Eurgent. apply filter_In. auto.
        -- apply Qltb_ge in Eu. rewrite <- Eh. exact Eu.
      * exists s', (Some (single_swipe (max_by_y fruit others))).
        split; [reflexivity|]. split; [exact Hwf'|]. left.
        exists (max_by_y fruit others). split; [|reflexivity].
        assert (Hin : In (max_by_y fruit others) (fruit :: others)) by apply max_by_y_In.
        rewrite <- Eurgent in Hin. apply filter_In in Hin as [Hin _]. exact Hin.
  - exists s', (Some (single_swipe (max_by_y fruit others))).
    split; [reflexivity|]. split; [exact Hwf'|]. left.
    exists (max_by_y fruit others). split; [|reflexivity].
    apply Hsub. apply max_by_y_In.
Qed.

(** *** [should_swipe] *)

Lemma find_best_swipe_time (s s' : strategy) (fruits : list detection) (now : Q)
    (r : option swipe) :
  find_best_swipe s fruits now = Some (s', r) ->
  last_swipe_time s' = last_swipe_time s /\ min_swipe_interval s' = min_swipe_interval s.
Proof.
  unfold find_best_swipe. destruct fruits as [|fruit rest]; [intros [= <- <-]; auto|].
  unfold _assign_ids_to_fruits.
  destruct (assign_loop _ _ _ _ _ _) as [[[tracks counter] updated]|];
    cbn [mbind option_bind]; [|discriminate].
  destruct (peak_loop _ _ _) as [peaks|]; cbn [mbind option_bind]; [|discriminate].
  destruct peaks; [|intros [= <- <-]; auto].
  destruct (_find_multi_fruit_swipe _ _); [intros [= <- <-]; auto|].
  destruct (List.filter _ _); intros [= <- <-]; auto.
Qed.

(** X23.  [should_swipe] never records a swipe: whatever it answers, the
    last swipe time and the interval are as before.  Once
    [update_swipe_time] has recorded a time, every call less than the
    interval later answers no, and leaves the tracks as they are. *)
Theorem swipe_interval_respected (s : strategy) (fruits : list detection) (now later : Q) :
  (forall s' r, should_swipe s fruits now = Some (s', r) ->
     last_swipe_time s' = last_swipe_time s /\
     min_swipe_interval s' = min_swipe_interval s) /\
  (later - now < min_swipe_interval s ->
   should_swipe (update_swipe_time s now) fruits later
     = Some (update_swipe_time s now, None)).
Proof.
  split.
  - intros s' r. unfold should_swipe.
    destruct (Qltb _ _); [intros [= <- <-]; auto | apply find_best_swipe_time].
  - intros Hlt. unfold should_swipe. simpl.
    apply Qltb_lt in Hlt. rewrite Hlt. reflexivity.
Qed.

End WithMath.

End StrategyFacts.

(** ** The further properties on the worked scenarios *)

Module ExtraExamples.
Import FruitTracker RealBot Scenarios.

Lemma integer_sqrt_nonneg (q : Q) : 0 <= sqrt (MathModule := integer_sqrt) q.
Proof.
  simpl. change 0 with (inject_Z 0). rewrite <- Zle_Qle. apply Z.sqrt_nonneg.
Qed.

Lemma two_tracks_bounded (tid : nat) (h : list sample) :
  In (tid, h) (fruit_history two_tracks) -> (length h <= max_history two_tracks)%nat.
Proof. intros [E | [E | []]]; injection E as <- <-; simpl; lia. Qed.

Lemma orchard_well_formed : MLStrategy.well_formed orchard.
Proof.
  split; simpl.
  - apply NoDup_cons. split; [|apply NoDup_singleton].
    intros Hin. apply elem_of_cons in Hin as [E | Hin]; [discriminate E|].
    apply elem_of_nil in Hin. exact Hin.
  - intros tid tr [E | [E | []]]; injection E as <- _; lia.
  - intros tid tr [E | [E | []]]; injection E as _ <-; discriminate.
Qed.

(** *** Tracker *)

Lemma ids_are_never_reused_witness :
  exists t' out,
    update (H := integer_sqrt) two_tracks [at_x 105; at_x 130] (1 # 10) = Some (t', out) /\
    well_formed t' /\
    (next_track_id two_tracks <= next_track_id t')%nat.
Proof.
  destruct (update (H := integer_sqrt) two_tracks [at_x 105; at_x 130] (1 # 10))
    as [[t' out]|] eqn:E; [|vm_compute in E; discriminate].
  exists t', out. split; [reflexivity|].
  destruct (TrackerExtras.ids_are_never_reused (H := integer_sqrt) two_tracks t'
              [at_x 105; at_x 130] (1 # 10) out Examples.two_tracks_well_formed E)
    as (Hwf & Hle & _).
  split; [exact Hwf | exact Hle].
Defined.

Lemma unmatched_detections_get_fresh_ids_witness :
  (2 < snd (_assign_track_ids (H := integer_sqrt) two_tracks [at_x 105; at_x 130]))%nat.
Proof.
  destruct (TrackerExtras.unmatched_detections_get_fresh_ids (H := integer_sqrt)
              two_tracks [at_x 105; at_x 130] Examples.two_tracks_well_formed)
    as (_ & Hfresh & _).
  apply (Hfresh 2%nat 1%nat).
  - vm_compute. right. left. reflexivity.
  - simpl. lia.
Defined.

Lemma histories_stay_bounded_witness :
  exists t' out,
    update (H := integer_sqrt) two_tracks [at_x 105] (1 # 10) = Some (t', out) /\
    forall tid h, In (tid, h) (fruit_history t') -> (length h <= max_history t')%nat.
Proof.
  destruct (update (H := integer_sqrt) two_tracks [at_x 105] (1 # 10))
    as [[t' out]|] eqn:E; [|vm_compute in E; discriminate].
  exists t', out. split; [reflexivity|].
  destruct (TrackerExtras.histories_stay_bounded (H := integer_sqrt) two_tracks t'
              [at_x 105] (1 # 10) out two_tracks_bounded E) as [_ Hb].
  exact Hb.
Defined.

Lemma no_stale_track_after_update_witness :
  exists t' out,
    update (H := integer_sqrt) two_tracks [at_x 105] (12 # 10) = Some (t', out) /\
    forall tid h s, In (tid, h) (fruit_history t') -> last h = Some s ->
      (12 # 10) - sample_time s <= 1.
Proof.
  destruct (update (H := integer_sqrt) two_tracks [at_x 105] (12 # 10))
    as [[t' out]|] eqn:E; [|vm_compute in E; discriminate].
  exists t', out. split; [reflexivity|].
  apply (TrackerExtras.no_stale_track_after_update (H := integer_sqrt) two_tracks t'
           [at_x 105] (12 # 10) out).
  - apply Examples.two_tracks_well_formed.
  - exact E.
Defined.

Lemma phase_by_velocity_witness :
  exists vx ay,
    _calculate_trajectory_parameters speeding_fall
      = Some (Descending, vx, inject_Z (130 - 110) / (2 - 1), ay) /\
    ay == 10.
Proof.
  destruct (TrackerExtras.phase_by_velocity [(0, 100%Z, 100%Z)] 1 2 100 110 100 130)
    as (_ & _ & Hpos).
  destruct (Hpos ltac:(reflexivity)) as (ph & vx & ay & E & Hay & _ & _ & Hdown & _).
  cbn [last] in Hay. destruct Hay as [Hest _].
  assert (Eph : ph = Descending) by (apply Hdown; vm_compute; discriminate).
  subst ph. exists vx, ay. split; [exact E|].
  rewrite (Hest ltac:(reflexivity)). reflexivity.
Defined.

(** *** Targeting engine *)

Lemma safe_target_swipe_berth_witness :
  (545 <= snd (adjust_swipe_for_bombs RealBot.init 500 400 [near_bomb]) <= 560)%Z /\
  (snd (adjust_swipe_for_bombs RealBot.init 500 400 [near_bomb]) + 20 <= 575)%Z.
Proof.
  pose proof (BotExtras.safe_target_swipe_berth RealBot.init apple [near_bomb] eq_refl
                ltac:(vm_compute; reflexivity)) as Hberth.
  cbv zeta in Hberth. destruct Hberth as (_ & Hend & Hbombs).
  split; [exact Hend|].
  destruct (Hbombs near_bomb ltac:(left; reflexivity) ltac:(vm_compute; reflexivity))
    as [Hl | Hr]; [|exact Hr].
  vm_compute in Hl. exfalso. apply Hl. reflexivity.
Defined.

Lemma candidate_table_after_swipe_witness :
  potential_pomegranates (track_pomegranate_candidate RealBot.init apple 1) !! center apple
  = Some (1, 1%Z).
Proof.
  pose proof (BotExtras.candidate_table_after_swipe RealBot.init apple 1) as Htable.
  cbv zeta in Htable. destruct Htable as (Hnew & _).
  apply Hnew. reflexivity.
Defined.

Lemma rapid_mode_activation_witness :
  rapid_mode (fst (decide_frame (H := integer_sqrt) twice_swiped third_frame)) = true /\
  rapid_mode_end_time (fst (decide_frame (H := integer_sqrt) twice_swiped third_frame))
  = (25 # 10) + 3.
Proof.
  pose proof (BotExtras.rapid_mode_activation (H := integer_sqrt) twice_swiped third_frame
                ltac:(vm_compute; reflexivity)) as Hmode.
  cbv zeta in Hmode. destruct Hmode as [Hon Hend].
  split.
  - rewrite Hon. vm_compute. reflexivity.
  - rewrite Hend. vm_compute. reflexivity.
Defined.

Lemma best_target_is_best_witness :
  exists fruit score,
    find_best_swipe_target (H := integer_sqrt) RealBot.init [pear; apple] [] 1
      = (Some fruit, score) /\
    eligible (H := integer_sqrt) fruit [] = true /\
    score = total_score (H := integer_sqrt) fruit [].
Proof.
  destruct (find_best_swipe_target (H := integer_sqrt) RealBot.init [pear; apple] [] 1)
    as [[fruit|] score] eqn:E; [|vm_compute in E; discriminate].
  exists fruit, score. split; [reflexivity|].
  destruct (BotExtras.best_target_is_best (H := integer_sqrt) RealBot.init [pear; apple] [] 1)
    as [Hsome _].
  destruct (Hsome fruit score E) as (_ & Hel & Hscore & _).
  split; [exact Hel | exact Hscore].
Defined.

Lemma emitted_swipe_geometry_witness :
  exists start_x end_x y,
    snd (decide_frame (H := integer_sqrt) RealBot.init first_frame) =
      Swipe start_x y end_x y
        (swipe_duration RealBot.init *
         (if rapid_mode (fst (decide_frame (H := integer_sqrt) RealBot.init first_frame))
          then 8 # 10 else 1)) /\
    (region_left <= start_x <= end_x)%Z /\ (end_x <= region_right)%Z /\
    (region_top <= y <= region_bottom)%Z.
Proof.
  apply (BotExtras.emitted_swipe_geometry (H := integer_sqrt) RealBot.init first_frame).
  vm_compute. reflexivity.
Defined.

Lemma swipe_only_at_best_target_witness :
  exists fruit,
    In fruit (targeted_fruits first_frame) /\
    is_swipe_safe fruit (bombs first_frame) = true /\
    5 # 10 < total_score (H := integer_sqrt) fruit (bombs first_frame).
Proof.
  destruct (BotExtras.swipe_only_at_best_target (H := integer_sqrt) RealBot.init first_frame
              ltac:(vm_compute; reflexivity))
    as (fruit & start_x & end_x & duration & Hin & _ & Hsafe & Hscore & _).
  exists fruit. split; [exact Hin|]. split; [exact Hsafe | exact Hscore].
Defined.

Lemma safety_score_range_witness :
  0 <= calculate_safety_score (H := integer_sqrt) apple [far_bomb] /\
  calculate_safety_score (H := integer_sqrt) apple [far_bomb] <= 1.
Proof.
  destruct (BotExtras.safety_score_range (H := integer_sqrt) apple [far_bomb])
    as [Hup Hlow].
  split; [apply Hlow; exact integer_sqrt_nonneg | exact Hup].
Defined.

(** *** The loop and the capture *)

Lemma loop_stops_only_at_zero_frame_time_witness :
  (exists s' trace,
     Pipeline.loop (H := integer_sqrt) (FruitTracker.init 10, RealBot.init, []) still_apple
       = Some (s', trace) /\
     map fst trace = map Pipeline.loop_time still_apple /\
     cooldown RealBot.init <= 1 - (5 # 10)) /\
  Pipeline.loop (H := integer_sqrt) (FruitTracker.init 10, RealBot.init, [])
    (instant_capture :: still_apple) = None.
Proof.
  destruct (PipelineFacts.loop_stops_only_at_zero_frame_time (H := integer_sqrt)
              (FruitTracker.init 10) RealBot.init [] still_apple)
    as [Hruns Hstops].
  split.
  - destruct (Hruns ltac:(intros x []))
      as (s' & trace & E & Etimes & _ & Hpairs).
    { intros c Hc. repeat (destruct Hc as [<- | Hc]; [reflexivity|]). destruct Hc. }
    exists s', trace. split; [exact E|]. split; [exact Etimes|].
    vm_compute in E. injection E as _ <-.
    apply (Hpairs ltac:(vm_compute; discriminate) 0%nat 2%nat (5 # 10) 1
             apple_swipe apple_swipe).
    + lia.
    + reflexivity.
    + reflexivity.
    + reflexivity.
    + reflexivity.
  - apply (Hstops instant_capture); reflexivity.
Defined.

Lemma frames_respect_frame_rate_witness :
  exists c,
    GameCapture.init 60 = Some c /\
    snd (GameCapture.poll c burst)
      = [(1, Some 7%nat); (101 # 100, None); (102 # 100, Some 9%nat)] /\
    1 / 60 <= (102 # 100) - 1.
Proof.
  destruct (CaptureFacts.frames_respect_frame_rate 60 burst ltac:(reflexivity))
    as (c & Ec & _ & Hpairs).
  exists c. split; [exact Ec|].
  injection Ec as <-.
  assert (Etrace : snd (GameCapture.poll (GameCapture.Camera (1 / 60) 0) burst)
                   = [(1, Some 7%nat); (101 # 100, None); (102 # 100, Some 9%nat)])
    by (vm_compute; reflexivity).
  split; [exact Etrace|].
  apply (Hpairs 0%nat 2%nat 1 (102 # 100) 7%nat 9%nat).
  - lia.
  - rewrite Etrace. reflexivity.
  - rewrite Etrace. reflexivity.
Defined.

(** *** Strategy *)

Lemma velocity_window_witness :
  MLStrategy._calculate_velocity ((0, 0)%Z :: diagonal)
  = MLStrategy._calculate_velocity diagonal.
Proof.
  destruct (StrategyFacts.velocity_window [(0, 0)%Z] diagonal) as [_ Hwindow].
  apply Hwindow. reflexivity.
Defined.

Lemma matched_track_is_nearest_witness :
  exists matched_id min_distance,
    MLStrategy.find_track (H := integer_sqrt) near_tracks (center melon) (5 # 10) None None
      = Some (matched_id, min_distance) /\
    matched_id = Some 1%nat.
Proof.
  destruct (StrategyFacts.matched_track_is_nearest (H := integer_sqrt) near_tracks
              (center melon) (5 # 10))
    as (matched_id & min_distance & E & _).
  - intros tid tr [Ein | [Ein | []]]; injection Ein as _ <-; discriminate.
  - exists matched_id, min_distance. split; [exact E|].
    vm_compute in E. injection E as <- _. reflexivity.
Defined.

Lemma every_fruit_gets_one_id_witness :
  exists s' tracked,
    MLStrategy._assign_ids_to_fruits (H := integer_sqrt) orchard [melon; apple] (5 # 10)
      = Some (s', tracked) /\
    map fst tracked = [melon; apple] /\
    MLStrategy.well_formed s'.
Proof.
  destruct (StrategyFacts.every_fruit_gets_one_id (H := integer_sqrt) orchard
              [melon; apple] (5 # 10) orchard_well_formed ltac:(simpl; lia))
    as (s' & tracked & E & Efruits & _ & _ & Hwf & _).
  exists s', tracked. split; [exact E|]. split; [exact Efruits | exact Hwf].
Defined.

Lemma best_swipe_is_single_or_multi_witness :
  exists s' r,
    MLStrategy.find_best_swipe (H := integer_sqrt) orchard [melon; apple] (5 # 10)
      = Some (s', r) /\
    MLStrategy.well_formed s'.
Proof.
  destruct (StrategyFacts.best_swipe_is_single_or_multi (H := integer_sqrt) orchard
              [melon; apple] (5 # 10) orchard_well_formed ltac:(simpl; lia))
    as (s' & r & E & Hwf & _).
  exists s', r. split; [exact E | exact Hwf].
Defined.

Lemma swipe_interval_respected_witness :
  MLStrategy.should_swipe (H := integer_sqrt) (MLStrategy.update_swipe_time orchard 1)
    [melon] (12 # 10)
  = Some (MLStrategy.update_swipe_time orchard 1, None).
Proof.
  destruct (StrategyFacts.swipe_interval_respected (H := integer_sqrt) orchard [melon] 1 (12 # 10))
    as [_ Hclosed].
  apply Hclosed. reflexivity.
Defined.

End ExtraExamples.
